(** * cocobase-go: the query builder, the client's token state, request
    signing and the realtime connection, embedded from the Go sources.

    Sources embedded here:
    - [cocobase/query.go]    QueryBuilder, OrBuilder, Build, APIError
    - [cocobase/types.go]    Client, Connection, constants
    - [cocobase/client.go]   NewClient, SetToken, GetToken, IsAuthenticated, request
    - [cocobase/auth.go]     InitAuth, Login, Register, Logout, GetCurrentUser,
                             UpdateUser, mergeData
    - [cocobase/documents.go] GetDocument, CreateDocument, UpdateDocument,
                             DeleteDocument, ListDocuments, QueryDocuments
    - [cocobase/realtime.go] WatchCollection read loop, Close, IsClosed
    - [storage/memory.go]    MemoryStorage
    - [storage/file.go]      FileStorage

    Go strings are byte strings: [string] (a list of [ascii]).  Go maps are
    [gmap]s; a [range] over a map visits every entry once in an order the
    language leaves open, so a loop over a map takes the visiting order as
    an argument that is a permutation of the map's entries.  Go's [int] is
    taken at 64 bits with its wrap-around written out.  Where it matters
    that the builder is reached through a pointer and that Go maps are
    references, the objects live in a heap ([heap]). *)

From Stdlib Require Import ZArith Ascii String List.
From stdpp Require Import base tactics option list gmap strings pretty sorting.

Local Open Scope string_scope.
Local Open Scope list_scope.
Local Open Scope Z_scope.
Local Open Scope stdpp_scope.

(** ** Pieces of the Go standard library the sources call *)

Module strings.

(** [strings.Join(elems, sep)] *)
Definition Join (elems : list string) (sep : string) : string :=
  String.concat sep elems.

(** [strings.Cut(s, sep)] for a one-byte separator: the text before and
    after the first occurrence of [sep], or [None] when there is none. *)
Fixpoint Cut (sep : ascii) (s : string) : option (string * string) :=
  match s with
  | EmptyString => None
  | String c s' =>
      if decide (c = sep) then Some (EmptyString, s')
      else match Cut sep s' with
           | Some (before, after) => Some (String c before, after)
           | None => None
           end
  end.

(** [strings.SplitN(s, sep, 2)] for a one-byte separator: at most two
    pieces, the second one being the unsplit remainder. *)
Definition SplitN2 (s : string) (sep : ascii) : list string :=
  match Cut sep s with
  | Some (before, after) => [before; after]
  | None => [s]
  end.

(** [strings.Split(s, sep)] for a one-byte separator: the pieces between
    the occurrences of [sep]; one (empty) piece for the empty string. *)
Fixpoint Split (s : string) (sep : ascii) : list string :=
  match s with
  | EmptyString => [EmptyString]
  | String c s' =>
      if decide (c = sep) then EmptyString :: Split s' sep
      else match Split s' sep with
           | piece :: pieces => String c piece :: pieces
           | [] => [String c EmptyString]
           end
  end.

(** [strings.IndexByte(s, c) >= 0] *)
Fixpoint has_byte (c : ascii) (s : string) : bool :=
  match s with
  | EmptyString => false
  | String c' s' => bool_decide (c' = c) || has_byte c s'
  end.

(** [strings.CutPrefix(s, prefix)] *)
Fixpoint CutPrefix (s prefix : string) : option string :=
  match prefix, s with
  | EmptyString, _ => Some s
  | String p prefix', String c s' =>
      if decide (c = p) then CutPrefix s' prefix' else None
  | String _ _, EmptyString => None
  end.

(** [strings.Replace(s, old, new, 1)] for a non-empty [old]: the first
    occurrence of [old] is replaced. *)
Fixpoint Replace1 (s old new : string) : string :=
  match CutPrefix s old with
  | Some rest => new +:+ rest
  | None => match s with
            | EmptyString => EmptyString
            | String c s' => String c (Replace1 s' old new)
            end
  end.

(** [strings.TrimSuffix(s, "/")] *)
Fixpoint TrimSuffix_slash (s : string) : string :=
  match s with
  | EmptyString => EmptyString
  | String c EmptyString => if decide (c = "/"%char) then EmptyString else s
  | String c s' => String c (TrimSuffix_slash s')
  end.

End strings.

Module fmt.

(** The dynamic values ([interface{}]) the callers of the query builder
    pass: strings, ints, booleans and nil.  Floats and composite values
    are left out; the printing verb is all the builder applies to them. *)
Inductive Value : Type :=
| VNil
| VBool (b : bool)
| VInt (n : Z)
| VString (s : string).

(** [fmt.Sprintf("%d", n)] *)
Definition Sprint_d (n : Z) : string := pretty n.

(** [fmt.Sprintf("%v", v)] *)
Definition Sprint_v (v : Value) : string :=
  match v with
  | VNil => "<nil>"
  | VBool true => "true"
  | VBool false => "false"
  | VInt n => Sprint_d n
  | VString s => s
  end.

End fmt.

Module url.

Definition byte_in (lo hi c : ascii) : bool :=
  ((N_of_ascii lo <=? N_of_ascii c) && (N_of_ascii c <=? N_of_ascii hi))%N.

(** [shouldEscape(c, encodeQueryComponent)]: everything but the
    unreserved characters of RFC 3986 section 2.3 is escaped. *)
Definition shouldEscape (c : ascii) : bool :=
  if byte_in "a" "z" c || byte_in "A" "Z" c || byte_in "0" "9" c then false
  else if bool_decide (c = "-"%char) || bool_decide (c = "_"%char)
          || bool_decide (c = "."%char) || bool_decide (c = "~"%char) then false
  else true.

(** [upperhex[n]] for [n < 16] *)
Definition upperhex (n : N) : ascii :=
  match n with
  | 0 => "0" | 1 => "1" | 2 => "2" | 3 => "3" | 4 => "4" | 5 => "5"
  | 6 => "6" | 7 => "7" | 8 => "8" | 9 => "9" | 10 => "A" | 11 => "B"
  | 12 => "C" | 13 => "D" | 14 => "E" | _ => "F"
  end%N%char.

(** What [escape] writes for one byte in [encodeQueryComponent] mode. *)
Definition escape_byte (c : ascii) : string :=
  if bool_decide (c = " "%char) then "+"
  else if shouldEscape c then
    String "%" (String (upperhex (N.shiftr (N_of_ascii c) 4))
               (String (upperhex (N.land (N_of_ascii c) 15)) EmptyString))
  else String c EmptyString.

(** [url.QueryEscape(s)] *)
Fixpoint QueryEscape (s : string) : string :=
  match s with
  | EmptyString => EmptyString
  | String c s' => escape_byte c +:+ QueryEscape s'
  end.

(** [url.Values] is [map[string][]string]. *)
Abbreviation Values := (gmap string (list string)).

(** [v[key]]: the nil slice for a key that is not there. *)
Definition at_key (v : Values) (key : string) : list string :=
  default [] (v !! key).

(** [v.Add(key, value)]: [v[key] = append(v[key], value)] *)
Definition Add (key value : string) (v : Values) : Values :=
  <[key := at_key v key ++ [value]]> v.

(** The keys of [v] in the order [slices.Sort] leaves them. *)
Definition sorted_keys (v : Values) : list string :=
  merge_sort String.le (map_to_list v).*1.

(** The (key, value) pairs in the order [Encode] writes them: keys
    sorted, the values of one key in slice order. *)
Definition Encode_pairs (v : Values) : list (string * string) :=
  k ← sorted_keys v; pair k <$> at_key v k.

Definition Encode_pair (kv : string * string) : string :=
  QueryEscape kv.1 +:+ "=" +:+ QueryEscape kv.2.

(** [v.Encode()] *)
Definition Encode (v : Values) : string :=
  strings.Join (Encode_pair <$> Encode_pairs v) "&".

(** *** Reading a query string back *)

(** The [key=value] components of a query string: its pieces between the
    ampersands, none for the empty string. *)
Definition components (s : string) : list string :=
  if decide (s = "") then [] else strings.Split s "&".

(** The query string [s] carries the pair [key=value] (both escaped). *)
Definition emits (s key value : string) : Prop :=
  Encode_pair (key, value) ∈ components s.

(** The query string [s] carries a parameter named [key]. *)
Definition has_param (s key : string) : Prop :=
  ∃ value, emits s key value.

Definition hex_value (c : ascii) : N :=
  (if byte_in "0" "9" c then N_of_ascii c - 48
   else if byte_in "A" "F" c then N_of_ascii c - 55
   else N_of_ascii c - 87)%N.

(** The inverse of [QueryEscape] on what it writes (the decoding half of
    [url.QueryUnescape], without its error cases). *)
Fixpoint unescape (s : string) : string :=
  match s with
  | EmptyString => EmptyString
  | String "%" (String h (String l rest)) =>
      String (ascii_of_N (16 * hex_value h + hex_value l)) (unescape rest)
  | String "+" rest => String " " (unescape rest)
  | String c rest => String c (unescape rest)
  end.

End url.

(** ** cocobase/query.go *)

Module query.
Import fmt url.

Record QueryBuilder : Type := mkQueryBuilder {
  filters : gmap string string;
  orFilters : gmap string (list string);
  limit : Z;
  offset : Z;
  sort : string;
  order : string
}.

Definition set_filters (f : gmap string string → gmap string string)
    (qb : QueryBuilder) : QueryBuilder :=
  mkQueryBuilder (f (filters qb)) (orFilters qb) (limit qb) (offset qb)
                 (sort qb) (order qb).

Definition set_orFilters
    (f : gmap string (list string) → gmap string (list string))
    (qb : QueryBuilder) : QueryBuilder :=
  mkQueryBuilder (filters qb) (f (orFilters qb)) (limit qb) (offset qb)
                 (sort qb) (order qb).

(** Go's [int]: 64 bits, two's complement. *)
Definition int_wrap (z : Z) : Z := (z + 2^63) mod 2^64 - 2^63.
Definition int_range (z : Z) : Prop := - 2^63 ≤ z < 2^63.

Definition NewQuery : QueryBuilder :=
  mkQueryBuilder ∅ ∅ 0 0 "" "".

(** Every method below has a pointer receiver, mutates the builder and
    returns the same pointer: a function from the builder's state
    before the call to its state after. *)

Definition Where (field : string) (value : Value) : QueryBuilder → QueryBuilder :=
  set_filters <[field := Sprint_v value]>.

Definition Equals (field : string) (value : Value) : QueryBuilder → QueryBuilder :=
  Where field value.

Definition NotEquals (field : string) (value : Value) : QueryBuilder → QueryBuilder :=
  let key := field +:+ "_ne" in
  set_filters <[key := Sprint_v value]>.

Definition GreaterThan (field : string) (value : Value) : QueryBuilder → QueryBuilder :=
  let key := field +:+ "_gt" in
  set_filters <[key := Sprint_v value]>.

Definition GreaterThanOrEqual (field : string) (value : Value) : QueryBuilder → QueryBuilder :=
  let key := field +:+ "_gte" in
  set_filters <[key := Sprint_v value]>.

Definition LessThan (field : string) (value : Value) : QueryBuilder → QueryBuilder :=
  let key := field +:+ "_lt" in
  set_filters <[key := Sprint_v value]>.

Definition LessThanOrEqual (field : string) (value : Value) : QueryBuilder → QueryBuilder :=
  let key := field +:+ "_lte" in
  set_filters <[key := Sprint_v value]>.

Definition Between (field : string) (min max : Value) (qb : QueryBuilder) : QueryBuilder :=
  LessThanOrEqual field max (GreaterThanOrEqual field min qb).

Definition Contains (field substring : string) : QueryBuilder → QueryBuilder :=
  let key := field +:+ "_contains" in
  set_filters <[key := substring]>.

Definition StartsWith (field prefix : string) : QueryBuilder → QueryBuilder :=
  let key := field +:+ "_startswith" in
  set_filters <[key := prefix]>.

Definition EndsWith (field suffix : string) : QueryBuilder → QueryBuilder :=
  let key := field +:+ "_endswith" in
  set_filters <[key := suffix]>.

Definition Search (searchTerm : string) (fields : list string) : QueryBuilder → QueryBuilder :=
  let key := strings.Join fields "__or__" +:+ "_contains" in
  set_filters <[key := searchTerm]>.

Definition In (field : string) (values : list Value) : QueryBuilder → QueryBuilder :=
  let key := field +:+ "_in" in
  let strValues := Sprint_v <$> values in
  set_filters <[key := strings.Join strValues ","]>.

Definition NotIn (field : string) (values : list Value) : QueryBuilder → QueryBuilder :=
  let key := field +:+ "_notin" in
  let strValues := Sprint_v <$> values in
  set_filters <[key := strings.Join strValues ","]>.

Definition IsNull (field : string) : QueryBuilder → QueryBuilder :=
  let key := field +:+ "_isnull" in
  set_filters <[key := "true"]>.

Definition IsNotNull (field : string) : QueryBuilder → QueryBuilder :=
  let key := field +:+ "_isnull" in
  set_filters <[key := "false"]>.

(** An [OrBuilder] holds the pointer to the builder it came from and a
    group name.  There is one builder in play, so the handle is the group
    name and its methods act on that builder's state. *)
Record OrBuilder : Type := mkOrBuilder { groupName : string }.

Definition Or : OrBuilder := mkOrBuilder "".
Definition OrGroup (groupName : string) : OrBuilder := mkOrBuilder groupName.

Definition addCondition (ob : OrBuilder) (field operator : string) (value : Value)
    : QueryBuilder → QueryBuilder :=
  let key := if decide (operator ≠ "") then field +:+ "_" +:+ operator else field in
  let prefix := if decide (groupName ob = "") then "[or]"
                else "[or:" +:+ groupName ob +:+ "]" in
  let filterStr := prefix +:+ key +:+ "=" +:+ Sprint_v value in
  set_orFilters (fun m =>
    <[groupName ob := default [] (m !! groupName ob) ++ [filterStr]]> m).

Definition Or_Where ob field value := addCondition ob field "" value.
Definition Or_Equals ob field value := Or_Where ob field value.
Definition Or_NotEquals ob field value := addCondition ob field "ne" value.
Definition Or_GreaterThan ob field value := addCondition ob field "gt" value.
Definition Or_GreaterThanOrEqual ob field value := addCondition ob field "gte" value.
Definition Or_LessThan ob field value := addCondition ob field "lt" value.
Definition Or_LessThanOrEqual ob field value := addCondition ob field "lte" value.
Definition Or_Contains ob field substring := addCondition ob field "contains" (VString substring).
Definition Or_StartsWith ob field prefix := addCondition ob field "startswith" (VString prefix).
Definition Or_EndsWith ob field suffix := addCondition ob field "endswith" (VString suffix).
Definition Or_IsNull ob field := addCondition ob field "isnull" (VBool true).
Definition Or_IsNotNull ob field := addCondition ob field "isnull" (VBool false).

Definition Limit (n : Z) (qb : QueryBuilder) : QueryBuilder :=
  mkQueryBuilder (filters qb) (orFilters qb) n (offset qb) (sort qb) (order qb).

Definition Offset (n : Z) (qb : QueryBuilder) : QueryBuilder :=
  mkQueryBuilder (filters qb) (orFilters qb) (limit qb) n (sort qb) (order qb).

Definition Page (page perPage : Z) (qb : QueryBuilder) : QueryBuilder :=
  let page := if page <? 1 then 1 else page in
  mkQueryBuilder (filters qb) (orFilters qb)
                 perPage (int_wrap (int_wrap (page - 1) * perPage))
                 (sort qb) (order qb).

Definition set_sort (s o : string) (qb : QueryBuilder) : QueryBuilder :=
  mkQueryBuilder (filters qb) (orFilters qb) (limit qb) (offset qb) s o.

Definition OrderBy (field : string) := set_sort field "asc".
Definition OrderByAsc (field : string) := set_sort field "asc".
Definition OrderByDesc (field : string) := set_sort field "desc".
Definition Asc (qb : QueryBuilder) := set_sort (sort qb) "asc" qb.
Definition Desc (qb : QueryBuilder) := set_sort (sort qb) "desc" qb.

Definition Active := IsNull "deletedAt".
Definition Deleted := IsNotNull "deletedAt".
Definition Recent := OrderByDesc "created_at".
Definition Oldest := OrderByAsc "created_at".

(** *** Build *)

(** [for key, value := range qb.filters { params.Add(key, value) }],
    the entries visited in the order [fo]. *)
Definition add_filters (fo : list (string * string)) (params : Values) : Values :=
  foldl (fun p kv => Add kv.1 kv.2 p) params fo.

(** The body of the inner loop over one OR group's conditions. *)
Definition add_or_filter (params : Values) (filter : string) : Values :=
  match strings.SplitN2 filter "=" with
  | [p0; p1] => Add p0 p1 params
  | _ => params
  end.

(** [for _, filters := range qb.orFilters { for _, filter := range filters {...} }],
    the groups visited in the order [oo]. *)
Definition add_or_filters (oo : list (string * list string)) (params : Values) : Values :=
  foldl (fun p g => foldl add_or_filter p g.2) params oo.

Definition add_pagination (qb : QueryBuilder) (params : Values) : Values :=
  let params := if 0 <? limit qb then Add "limit" (Sprint_d (limit qb)) params
                else params in
  if 0 <? offset qb then Add "offset" (Sprint_d (offset qb)) params
  else params.

Definition add_sorting (qb : QueryBuilder) (params : Values) : Values :=
  if decide (sort qb ≠ "") then
    let params := Add "sort" (sort qb) params in
    if decide (order qb ≠ "") then Add "order" (order qb) params else params
  else params.

(** The [url.Values] that [Build] has filled when it reaches
    [params.Encode()]. *)
Definition Build_params (fo : list (string * string))
    (oo : list (string * list string)) (qb : QueryBuilder) : Values :=
  add_sorting qb (add_pagination qb (add_or_filters oo (add_filters fo ∅))).

(** [qb.Build()] when the two map loops visit their entries in the orders
    [fo] and [oo]: the string returned and the builder after the call. *)
Definition Build_in (fo : list (string * string))
    (oo : list (string * list string)) (qb : QueryBuilder)
    : string * QueryBuilder :=
  (Encode (Build_params fo oo qb), qb).

(** An order in which [range m] may visit the entries of [m]. *)
Definition range_order {V} (m : gmap string V) (l : list (string * V)) : Prop :=
  l ≡ₚ map_to_list m.

(** [s] is a string a call of [qb.Build()] may return. *)
Definition Build_returns (qb : QueryBuilder) (s : string) : Prop :=
  ∃ fo oo, range_order (filters qb) fo ∧ range_order (orFilters qb) oo ∧
           (Build_in fo oo qb).1 = s.

(** [Build] run with one particular visiting order. *)
Definition Build (qb : QueryBuilder) : string * QueryBuilder :=
  Build_in (map_to_list (filters qb)) (map_to_list (orFilters qb)) qb.

(** *** The pairs [Build] adds, as lists *)

(** [params.Add] over a list of pairs, first to last. *)
Definition adds (l : list (string * string)) (params : Values) : Values :=
  foldl (fun p kv => Add kv.1 kv.2 p) params l.

(** The two pieces of an OR condition, when it has an [=]. *)
Definition split_pair (filter : string) : option (string * string) :=
  match strings.SplitN2 filter "=" with
  | [p0; p1] => Some (p0, p1)
  | _ => None
  end.

Definition group_pairs (filters : list string) : list (string * string) :=
  omap split_pair filters.

Definition or_pairs (oo : list (string * list string)) : list (string * string) :=
  g ← oo; group_pairs g.2.

Definition pagination_pairs (qb : QueryBuilder) : list (string * string) :=
  (if 0 <? limit qb then [("limit", Sprint_d (limit qb))] else []) ++
  (if 0 <? offset qb then [("offset", Sprint_d (offset qb))] else []).

Definition sorting_pairs (qb : QueryBuilder) : list (string * string) :=
  if decide (sort qb ≠ "") then
    ("sort", sort qb) :: (if decide (order qb ≠ "") then [("order", order qb)] else [])
  else [].

Definition added_pairs (fo : list (string * string))
    (oo : list (string * list string)) (qb : QueryBuilder) : list (string * string) :=
  fo ++ or_pairs oo ++ pagination_pairs qb ++ sorting_pairs qb.

(** The values a list of pairs holds for one key, in order. *)
Definition picks (key : string) (l : list (string * string)) : list string :=
  (filter (fun kv => kv.1 = key) l).*2.

(** *** The predicate methods and what the specification prescribes *)

Inductive Predicate : Type :=
| PWhere (field : string) (value : Value)
| PEquals (field : string) (value : Value)
| PNotEquals (field : string) (value : Value)
| PGreaterThan (field : string) (value : Value)
| PGreaterThanOrEqual (field : string) (value : Value)
| PLessThan (field : string) (value : Value)
| PLessThanOrEqual (field : string) (value : Value)
| PContains (field substring : string)
| PStartsWith (field prefix : string)
| PEndsWith (field suffix : string)
| PIn (field : string) (values : list Value)
| PNotIn (field : string) (values : list Value)
| PIsNull (field : string)
| PIsNotNull (field : string).

(** The method call a [Predicate] stands for. *)
Definition call (p : Predicate) : QueryBuilder → QueryBuilder :=
  match p with
  | PWhere f v => Where f v
  | PEquals f v => Equals f v
  | PNotEquals f v => NotEquals f v
  | PGreaterThan f v => GreaterThan f v
  | PGreaterThanOrEqual f v => GreaterThanOrEqual f v
  | PLessThan f v => LessThan f v
  | PLessThanOrEqual f v => LessThanOrEqual f v
  | PContains f s => Contains f s
  | PStartsWith f s => StartsWith f s
  | PEndsWith f s => EndsWith f s
  | PIn f vs => In f vs
  | PNotIn f vs => NotIn f vs
  | PIsNull f => IsNull f
  | PIsNotNull f => IsNotNull f
  end.

(** The key the specification gives each operator. *)
Definition prescribed_key (p : Predicate) : string :=
  match p with
  | PWhere f _ | PEquals f _ => f
  | PNotEquals f _ => f +:+ "_ne"
  | PGreaterThan f _ => f +:+ "_gt"
  | PGreaterThanOrEqual f _ => f +:+ "_gte"
  | PLessThan f _ => f +:+ "_lt"
  | PLessThanOrEqual f _ => f +:+ "_lte"
  | PContains f _ => f +:+ "_contains"
  | PStartsWith f _ => f +:+ "_startswith"
  | PEndsWith f _ => f +:+ "_endswith"
  | PIn f _ => f +:+ "_in"
  | PNotIn f _ => f +:+ "_notin"
  | PIsNull f | PIsNotNull f => f +:+ "_isnull"
  end.

(** The value the specification gives each operator: the argument as
    printed, list arguments joined by commas, ["true"] and ["false"] for
    the null checks. *)
Definition prescribed_value (p : Predicate) : string :=
  match p with
  | PWhere _ v | PEquals _ v | PNotEquals _ v | PGreaterThan _ v
  | PGreaterThanOrEqual _ v | PLessThan _ v | PLessThanOrEqual _ v => Sprint_v v
  | PContains _ s | PStartsWith _ s | PEndsWith _ s => s
  | PIn _ vs | PNotIn _ vs => strings.Join (Sprint_v <$> vs) ","
  | PIsNull _ => "true"
  | PIsNotNull _ => "false"
  end.

(** No AND filter and no OR condition of [qb] is stored under [key]. *)
Definition key_free (key : string) (qb : QueryBuilder) : Prop :=
  filters qb !! key = None ∧
  ∀ g fs, orFilters qb !! g = Some fs → key ∉ (group_pairs fs).*1.

(** No two OR groups of [qb] hold a condition for the same parameter key. *)
Definition groups_apart (qb : QueryBuilder) : Prop :=
  ∀ g1 g2 fs1 fs2 key,
    orFilters qb !! g1 = Some fs1 → orFilters qb !! g2 = Some fs2 →
    key ∈ (group_pairs fs1).*1 → key ∈ (group_pairs fs2).*1 → g1 = g2.

(** The prefix [addCondition] puts before the key of a condition of group [g]. *)
Definition or_prefix (g : string) : string :=
  if decide (g = "") then "[or]" else "[or:" +:+ g +:+ "]".

(** A group name without [=] and without [\]]. *)
Definition plain (g : string) : Prop :=
  strings.has_byte "=" g = false ∧ strings.has_byte "]" g = false.

(** The OR conditions of [qb] are as [addCondition] leaves them when it is
    only used with plain group names: every group name is plain and every
    condition starts with the prefix of its group. *)
Definition well_grouped (qb : QueryBuilder) : Prop :=
  ∀ g fs, orFilters qb !! g = Some fs →
    plain g ∧ ∀ f, f ∈ fs → ∃ rest, f = or_prefix g +:+ rest.

End query.

(** ** cocobase/errors.go *)

Module errors.

Record APIError : Type := mkAPIError {
  StatusCode : Z;
  Method : string;
  URL : string;
  Body : string;
  Suggestion : string
}.

(** Go's [error] values as the client makes them: [fmt.Errorf] without
    and with a wrapped cause ([%w]), and [*APIError]. *)
Inductive error : Type :=
| errorString (msg : string)
| wrapError (msg : string) (cause : error)
| apiError (e : APIError).

Definition getErrorSuggestion (status : Z) (method : string) : string :=
  match status with
  | 401 => "Check if your API key is valid and properly set"
  | 403 => "You don't have permission to perform this action. Verify your access rights"
  | 404 => "The requested resource was not found. Verify the path and ID are correct"
  | 405 => "The " +:+ method +:+ " method is not allowed for this endpoint. Check the API documentation for supported methods"
  | 429 => "You've exceeded the rate limit. Please wait before making more requests"
  | _ => "Check the API documentation and verify your request format"
  end.

End errors.

(** ** net/http: headers, requests, responses *)

Module http.
Import errors.

(** [http.Header] is [map[string][]string] under canonical keys. *)
Abbreviation Header := (gmap string (list string)).

Definition is_lower (c : ascii) : bool := url.byte_in "a" "z" c.
Definition is_upper (c : ascii) : bool := url.byte_in "A" "Z" c.

(** [validHeaderFieldByte]: the token characters of RFC 7230. *)
Definition validHeaderFieldByte (c : ascii) : bool :=
  is_lower c || is_upper c || url.byte_in "0" "9" c
  || bool_decide (c ∈ ["!"; "#"; "$"; "%"; "&"; "'"; "*"; "+"; "-"; ".";
                       "^"; "_"; "`"; "|"; "~"]%char).

Fixpoint all_bytes (P : ascii → bool) (s : string) : bool :=
  match s with
  | EmptyString => true
  | String c s' => P c && all_bytes P s'
  end.

(** The loop of [canonicalMIMEHeaderKey]: upper case at the start and
    after each dash, lower case elsewhere. *)
Fixpoint canonical_go (upper : bool) (s : string) : string :=
  match s with
  | EmptyString => EmptyString
  | String c s' =>
      let c' := if upper && is_lower c then ascii_of_N (N_of_ascii c - 32)
                else if negb upper && is_upper c then ascii_of_N (N_of_ascii c + 32)
                else c in
      String c' (canonical_go (bool_decide (c' = "-"%char)) s')
  end.

(** [textproto.CanonicalMIMEHeaderKey]: a key with a byte that is not a
    token character is left as it is. *)
Definition CanonicalMIMEHeaderKey (s : string) : string :=
  if all_bytes validHeaderFieldByte s then canonical_go true s else s.

(** [h.Set(key, value)] *)
Definition Header_Set (key value : string) (h : Header) : Header :=
  <[CanonicalMIMEHeaderKey key := [value]]> h.

(** [h.Values(key)] *)
Definition Header_Values (h : Header) (key : string) : list string :=
  default [] (h !! CanonicalMIMEHeaderKey key).

(** [h.Get(key)]: the first value under the key, [""] when there is none. *)
Definition Header_Get (h : Header) (key : string) : string :=
  match Header_Values h key with
  | v :: _ => v
  | [] => ""
  end.

(** The header map has an entry for [key]. *)
Definition has_header (h : Header) (key : string) : Prop :=
  is_Some (h !! CanonicalMIMEHeaderKey key).

Record Request : Type := mkRequest {
  req_Method : string;
  req_URL : string;
  req_Header : Header;
  req_Body : option string
}.

(** A response body is a reader: the bytes it yields and the error, if
    any, that ends the reading. *)
Record Reader : Type := mkReader {
  content : string;
  failure : option error
}.

(** [io.ReadAll(r)] *)
Definition ReadAll (r : Reader) : string * option error :=
  (content r, failure r).

Record Response : Type := mkResponse {
  resp_StatusCode : Z;
  resp_Body : Reader
}.

End http.

(** ** cocobase/types.go *)

Module types.
Import errors http.

Definition DefaultBaseURL : string := "https://api.cocobase.com".
Definition ContentTypeJSON : string := "application/json".
Definition HeaderAPIKey : string := "x-api-key".
Definition HeaderAuthorization : string := "Authorization".

(** The JSON values request bodies and user data are made of. *)
#[warnings="-register-all"]
Inductive JSON : Type :=
| JNull
| JBool (b : bool)
| JNumber (n : Z)
| JString (s : string)
| JArray (items : list JSON)
| JObject (members : list (string * JSON)).

Record AppUser : Type := mkAppUser {
  ID : string;
  Email : string;
  Roles : list string;
  Data : gmap string JSON;
  CreatedAt : string;
  UpdatedAt : string
}.

Record Document : Type := mkDocument {
  doc_ID : string;
  doc_Collection : string;
  doc_Data : gmap string JSON;
  doc_CreatedAt : string;
  doc_UpdatedAt : string
}.

Record Event : Type := mkEvent {
  ev_Event : string;
  ev_Data : Document
}.

(** The [Storage] interface, implemented over a state of type [S]. *)
Class Storage (S : Type) : Type := {
  Get : string → S → (string * option error) * S;
  Set_ : string → string → S → option error * S;
  Delete : string → S → option error * S
}.

(** [Client]; [storage] is [None] for a nil interface.  The HTTP client
    and the lock are not fields here: the transport is the [roundTrip]
    of the section below, and calls run one at a time. *)
Record Client (S : Type) : Type := mkClient {
  baseURL : string;
  apiKey : string;
  token : string;
  user : option AppUser;
  storage : option S
}.
Arguments mkClient {S}.
Arguments baseURL {S}.
Arguments apiKey {S}.
Arguments token {S}.
Arguments user {S}.
Arguments storage {S}.

(** [Config], without the HTTP client. *)
Record Config (S : Type) : Type := mkConfig {
  cfg_APIKey : string;
  cfg_BaseURL : string;
  cfg_Storage : option S
}.
Arguments mkConfig {S}.
Arguments cfg_APIKey {S}.
Arguments cfg_BaseURL {S}.
Arguments cfg_Storage {S}.

End types.

(** ** storage/memory.go *)

Module memory.
Import errors types.

Record MemoryStorage : Type := mkMemoryStorage { data : gmap string string }.

Definition NewMemoryStorage : MemoryStorage := mkMemoryStorage ∅.

Definition Memory_Get (key : string) (s : MemoryStorage)
    : (string * option error) * MemoryStorage :=
  match data s !! key with
  | Some value => ((value, None), s)
  | None => (("", Some (errorString ("key not found: " +:+ key))), s)
  end.

Definition Memory_Set (key value : string) (s : MemoryStorage)
    : option error * MemoryStorage :=
  (None, mkMemoryStorage (<[key := value]> (data s))).

Definition Memory_Delete (key : string) (s : MemoryStorage)
    : option error * MemoryStorage :=
  (None, mkMemoryStorage (delete key (data s))).

#[export] Instance MemoryStorage_Storage : Storage MemoryStorage :=
  {| Get := Memory_Get; Set_ := Memory_Set; Delete := Memory_Delete |}.

End memory.

(** ** cocobase/client.go and cocobase/auth.go *)

Module client.
Import errors http types.

(** What a method of [*Client] can touch: the client's fields (with the
    state of its storage) and the network, seen as the requests sent so
    far. *)
Record World (S : Type) : Type := mkWorld {
  self : Client S;
  sent : list Request
}.
Arguments mkWorld {S}.
Arguments self {S}.
Arguments sent {S}.

(** A method call: from the world before to the result and the world after. *)
Definition Call (S A : Type) : Type := World S → A * World S.

#[export] Instance Call_ret {S} : MRet (Call S) := fun A a w => (a, w).
#[export] Instance Call_bind {S} : MBind (Call S) :=
  fun A B f m w => let '(a, w') := m w in f a w'.

Section methods.
Context {S : Type} `{!Storage S}.

(** [json.Marshal] of a request body. *)
Variable json_Marshal : JSON → string * option error.
(** [json.Marshal] of an [AppUser]; its error is dropped by the callers. *)
Variable json_Marshal_user : AppUser → string.
(** [json.NewDecoder(body).Decode(&user)] *)
Variable json_Decode_user : Reader → AppUser * option error.
(** The error, if any, of [http.NewRequestWithContext(ctx, method, url, _)]. *)
Variable NewRequest_err : string → string → option error.
(** [c.httpClient.Do(req)], given the requests sent before: a response,
    or the error that makes the caller drop whatever came with it. *)
Variable roundTrip : list Request → Request → Response + error.

Definition get_self : Call S (Client S) := fun w => (self w, w).
Definition put_self (c : Client S) : Call S unit :=
  fun w => (tt, mkWorld c (sent w)).

Definition NewClient (config : Config S) : Client S :=
  let base := if decide (cfg_BaseURL config = "") then DefaultBaseURL
              else cfg_BaseURL config in
  mkClient (strings.TrimSuffix_slash base) (cfg_APIKey config) "" None
           (cfg_Storage config).

(** A call on [c.storage], which the caller has checked to be non-nil;
    the storage's new state goes back into the client. *)
Definition with_storage {A} (dflt : A) (op : S → A * S) : Call S A :=
  c ← get_self;
  match storage c with
  | Some st =>
      let '(a, st') := op st in
      _ ← put_self (mkClient (baseURL c) (apiKey c) (token c) (user c) (Some st'));
      mret a
  | None => mret dflt
  end.

Definition set_token (t : string) : Call S unit :=
  c ← get_self;
  put_self (mkClient (baseURL c) (apiKey c) t (user c) (storage c)).

Definition set_user (u : option AppUser) : Call S unit :=
  c ← get_self;
  put_self (mkClient (baseURL c) (apiKey c) (token c) u (storage c)).

Definition SetToken (t : string) : Call S (option error) :=
  _ ← set_token t;
  c ← get_self;
  if decide (storage c ≠ None) then
    with_storage None (Set_ "cocobase-token" t)
  else mret None.

Definition GetToken : Call S string :=
  c ← get_self; mret (token c).

Definition IsAuthenticated : Call S bool :=
  c ← get_self; mret (bool_decide (token c ≠ "")).

Definition HasRole (role : string) : Call S bool :=
  c ← get_self;
  match user c with
  | None => mret false
  | Some u => mret (bool_decide (role ∈ Roles u))
  end.

(** The first part of [request], up to the request handed to
    [c.httpClient.Do]: the URL, the body and the headers. *)
Definition build_request (method path : string) (body : option JSON)
    (useDataKey : bool) : Call S (option Request * option error) :=
  c ← get_self;
  let url := baseURL c +:+ path in
  let marshalled :=
    match body with
    | Some b =>
        let data := if useDataKey then JObject [("data", b)] else b in
        let '(jsonData, err) := json_Marshal data in
        (Some jsonData, err)
    | None => (None, None)
    end in
  match marshalled.2 with
  | Some err => mret (None, Some (wrapError "failed to marshal request body" err))
  | None =>
      match NewRequest_err method url with
      | Some err => mret (None, Some (wrapError "failed to create request" err))
      | None =>
          let h : Header := ∅ in
          let h := Header_Set "Content-Type" ContentTypeJSON h in
          let h := if decide (apiKey c ≠ "") then Header_Set HeaderAPIKey (apiKey c) h
                   else h in
          token ← GetToken;
          let h := if decide (token ≠ "")
                   then Header_Set HeaderAuthorization ("Bearer " +:+ token) h
                   else h in
          let method' := if decide (method = "") then "GET" else method in
          mret (Some (mkRequest method' url h marshalled.1), None)
      end
  end.

(** [c.httpClient.Do(req)] *)
Definition Do (req : Request) : Call S (Response + error) :=
  fun w => (roundTrip (sent w) req, mkWorld (self w) (sent w ++ [req])).

Definition request (method path : string) (body : option JSON)
    (useDataKey : bool) : Call S (option Response * option error) :=
  '(req, err) ← build_request method path body useDataKey;
  match req, err with
  | Some req, None =>
      answer ← Do req;
      match answer with
      | inr err => mret (None, Some (wrapError "request failed" err))
      | inl resp =>
          if 400 <=? resp_StatusCode resp then
            let '(bodyBytes, _) := ReadAll (resp_Body resp) in
            mret (None, Some (apiError
              (mkAPIError (resp_StatusCode resp) method (req_URL req)
                          bodyBytes
                          (getErrorSuggestion (resp_StatusCode resp) method))))
          else mret (Some resp, None)
      end
  | _, _ => mret (None, err)
  end.

Definition Logout : Call S (option error) :=
  _ ← set_token "";
  _ ← set_user None;
  c ← get_self;
  if decide (storage c ≠ None) then
    with_storage None (Delete "cocobase-token")
  else mret None.

Definition GetCurrentUser : Call S (option AppUser * option error) :=
  auth ← IsAuthenticated;
  if negb auth then mret (None, Some (errorString "user is not authenticated"))
  else
    '(resp, err) ← request "GET" "/auth-collections/user" None true;
    match resp, err with
    | Some resp, None =>
        let '(user, err) := json_Decode_user (resp_Body resp) in
        match err with
        | Some err => mret (None, Some (wrapError "failed to decode response" err))
        | None =>
            c ← get_self;
            _ ← (if decide (storage c ≠ None) then
                   let userData := json_Marshal_user user in
                   with_storage None (Set_ "cocobase-user" userData)
                 else mret None);
            mret (Some user, None)
        end
    | _, _ => mret (None, err)
    end.

(** [for k, v := range m { result[k] = v }] *)
Definition copy_into (m result : gmap string JSON) : gmap string JSON :=
  map_fold (fun k v r => <[k := v]> r) result m.

Definition mergeData (current updates : gmap string JSON) : gmap string JSON :=
  let result := ∅ in
  let result := copy_into current result in
  copy_into updates result.

Definition UpdateUser (data : option (gmap string JSON))
    (email password : option string) : Call S (option AppUser * option error) :=
  auth ← IsAuthenticated;
  if negb auth then mret (None, Some (errorString "user is not authenticated"))
  else
    c ← get_self;
    let body : list (string * JSON) := [] in
    let body :=
      match data with
      | Some data =>
          let currentData := match user c with
                             | Some u => Data u
                             | None => ∅
                             end in
          let merged := mergeData currentData data in
          body ++ [("data", JObject (map_to_list merged))]
      | None => body
      end in
    let body := match email with
                | Some e => body ++ [("email", JString e)]
                | None => body
                end in
    let body := match password with
                | Some p => body ++ [("password", JString p)]
                | None => body
                end in
    '(resp, err) ← request "PATCH" "/auth-collections/user" (Some (JObject body)) false;
    match resp, err with
    | Some resp, None =>
        let '(user, err) := json_Decode_user (resp_Body resp) in
        match err with
        | Some err => mret (None, Some (wrapError "failed to decode response" err))
        | None =>
            _ ← set_user (Some user);
            c ← get_self;
            _ ← (if decide (storage c ≠ None) then
                   let userData := json_Marshal_user user in
                   with_storage None (Set_ "cocobase-user" userData)
                 else mret None);
            mret (Some user, None)
        end
    | _, _ => mret (None, err)
    end.

End methods.

(** What the specification asks of a request the client [c] builds for
    [path]: its URL, its content type, and the two credentials, each
    carried exactly when the client has it. *)
Definition signed {S} (c : Client S) (path : string) (req : Request) : Prop :=
  req_URL req = baseURL c +:+ path ∧
  Header_Values (req_Header req) "Content-Type" = ["application/json"] ∧
  (has_header (req_Header req) "x-api-key" ↔ apiKey c ≠ "") ∧
  (apiKey c ≠ "" → Header_Values (req_Header req) "x-api-key" = [apiKey c]) ∧
  (has_header (req_Header req) "Authorization" ↔ token c ≠ "") ∧
  (token c ≠ "" →
     Header_Values (req_Header req) "Authorization" = ["Bearer " +:+ token c]).

(** The headers [request] sets, for a client with the given key and token. *)
Definition signed_headers (key tok : string) : Header :=
  let h := Header_Set "Content-Type" ContentTypeJSON ∅ in
  let h := if decide (key ≠ "") then Header_Set HeaderAPIKey key h else h in
  if decide (tok ≠ "") then Header_Set HeaderAuthorization ("Bearer " +:+ tok) h
  else h.

End client.

(** ** cocobase/realtime.go *)

Module realtime.
Import errors types.

(** The gorilla [*websocket.Conn] as the client sees it: where it was
    dialled and how many times its [Close] has been called. *)
Record WebSocket : Type := mkWebSocket {
  ws_URL : string;
  ws_closes : nat
}.

(** [Connection]; the lock makes each method below one atomic step. *)
Record Connection : Type := mkConnection {
  conn : WebSocket;
  name : string;
  closed : bool
}.

(** [conn.Close()]; [ws_result] is what the websocket's own [Close]
    returns if it is reached. *)
Definition Close (ws_result : option error) (c : Connection)
    : option error * Connection :=
  if closed c then (None, c)
  else (ws_result,
        mkConnection (mkWebSocket (ws_URL (conn c)) (S (ws_closes (conn c))))
                     (name c) true).

(** [conn.IsClosed()] *)
Definition IsClosed (c : Connection) : bool * Connection :=
  (closed c, c).

(** Where the goroutine started by [WatchCollection] stands. *)
Inductive Loop : Type :=
| Reading                (* at the top of the loop, before [conn.ReadJSON] *)
| Calling (event : Event) (* [ReadJSON] gave [event], before [callback(event)] *)
| Returning              (* [ReadJSON] gave an error, the deferred function is due *)
| Returned.              (* the deferred function has run, the goroutine is over *)

(** A subscription: the connection shared with the caller, the goroutine,
    and the history of what the goroutine has read and delivered. *)
Record Watch : Type := mkWatch {
  connection : Connection;
  loop : Loop;
  reads : list (Event + error);   (* results of [ReadJSON], oldest first *)
  calls : list Event              (* arguments of [callback], oldest first *)
}.

(** [WatchCollection] up to and including the [go] statement.  [dial] and
    [write] are the errors, if any, of the dial and of sending the auth
    message. *)
Definition WatchCollection (baseURL collection name : string)
    (dial write : option error) : option Watch * option error :=
  let wsURL := strings.Replace1 baseURL "http" "ws" in
  let wsURL := wsURL +:+ "/realtime/collections/" +:+ collection in
  match dial with
  | Some err => (None, Some (wrapError "failed to connect to WebSocket" err))
  | None =>
      match write with
      | Some err => (None, Some (wrapError "failed to send auth message" err))
      | None =>
          let name := if decide (name = "") then "watch-" +:+ collection else name in
          (Some (mkWatch (mkConnection (mkWebSocket wsURL 0) name false)
                         Reading [] []),
           None)
      end
  end.

(** What can happen next to a subscription: a step of the goroutine or a
    call by the holder of the [*Connection]. *)
Inductive Action : Type :=
| ReadJSON (result : Event + error)   (* [err := conn.ReadJSON(&event)] returns *)
| Callback                            (* [callback(event)] *)
| Deferred                            (* the deferred [connection.closed = true] *)
| CallClose (ws_result : option error)
| CallIsClosed.

(** What the step hands back to whoever made it. *)
Inductive Output : Type :=
| Silent
| CloseResult (err : option error)
| IsClosedResult (b : bool).

Definition set_loop (l : Loop) (w : Watch) : Watch :=
  mkWatch (connection w) l (reads w) (calls w).

Definition set_connection (c : Connection) (w : Watch) : Watch :=
  mkWatch c (loop w) (reads w) (calls w).

(** One step; [None] when the action is not the next thing the goroutine
    does. *)
Definition step (w : Watch) (a : Action) : option (Watch * Output) :=
  match a, loop w with
  | ReadJSON (inl event), Reading =>
      Some (mkWatch (connection w) (Calling event) (reads w ++ [inl event]) (calls w),
            Silent)
  | ReadJSON (inr err), Reading =>
      Some (mkWatch (connection w) Returning (reads w ++ [inr err]) (calls w),
            Silent)
  | Callback, Calling event =>
      Some (mkWatch (connection w) Reading (reads w) (calls w ++ [event]), Silent)
  | Deferred, Returning =>
      let c := connection w in
      Some (mkWatch (mkConnection (conn c) (name c) true) Returned (reads w) (calls w),
            Silent)
  | CallClose ws_result, _ =>
      let '(err, c) := Close ws_result (connection w) in
      Some (set_connection c w, CloseResult err)
  | CallIsClosed, _ =>
      let '(b, c) := IsClosed (connection w) in
      Some (set_connection c w, IsClosedResult b)
  | _, _ => None
  end.

(** A run: the subscription after the actions, with the outputs in order. *)
Fixpoint run (w : Watch) (actions : list Action) : option (Watch * list Output) :=
  match actions with
  | [] => Some (w, [])
  | a :: actions' =>
      match step w a with
      | Some (w', o) =>
          match run w' actions' with
          | Some (w'', os) => Some (w'', o :: os)
          | None => None
          end
      | None => None
      end
  end.

(** The events among read results, in order. *)
Definition decoded (rs : list (Event + error)) : list Event :=
  omap (fun r => match r with inl e => Some e | inr _ => None end) rs.

(** Whether some read has returned an error. *)
Definition read_failed (rs : list (Event + error)) : bool :=
  existsb (fun r => match r with inl _ => false | inr _ => true end) rs.

(** The event read and not yet handed to the callback. *)
Definition in_flight (l : Loop) : list Event :=
  match l with Calling e => [e] | _ => [] end.

(** The goroutine has left its loop. *)
Definition left_loop (l : Loop) : bool :=
  match l with Returning | Returned => true | _ => false end.

(** The read results among a list of actions, in order. *)
Definition reads_of (actions : list Action) : list (Event + error) :=
  omap (fun a => match a with ReadJSON r => Some r | _ => None end) actions.

(** A subscription as [WatchCollection] hands it out. *)
Definition fresh (w : Watch) : Prop :=
  loop w = Reading ∧ reads w = [] ∧ calls w = [] ∧
  closed (connection w) = false ∧ ws_closes (conn (connection w)) = 0%nat.

(** What holds of a subscription at every moment of its life. *)
Definition consistent (w : Watch) : Prop :=
  calls w ++ in_flight (loop w) = decoded (reads w) ∧
  left_loop (loop w) = read_failed (reads w) ∧
  (loop w = Returned → closed (connection w) = true) ∧
  (ws_closes (conn (connection w)) ≤ 1)%nat ∧
  (ws_closes (conn (connection w)) = 1%nat → closed (connection w) = true).

End realtime.

(** ** A client, a server and a subscription to run the definitions on *)

Module fixtures.
Import errors http types memory client realtime.

Definition json_Marshal (data : JSON) : string * option error := ("{}", None).
Definition json_Marshal_user (u : AppUser) : string := "{}".
Definition json_Decode_user (body : Reader) : AppUser * option error :=
  (mkAppUser "u1" "user@example.com" [] ∅ "" "", None).
Definition NewRequest_err (method url : string) : option error := None.

(** A server that answers every request with 404. *)
Definition not_found (history : list Request) (req : Request)
    : Response + error :=
  inl (mkResponse 404 (mkReader "not found" None)).

Definition logged_in : World MemoryStorage :=
  mkWorld (mkClient "https://api.cocobase.com" "key-123" "tok-abc" None
                    (Some NewMemoryStorage)) [].

Definition logged_out : World MemoryStorage :=
  mkWorld (mkClient "https://api.cocobase.com" "key-123" "" None
                    (Some NewMemoryStorage)) [].

Definition get_user : Request :=
  mkRequest "GET" "https://api.cocobase.com/auth-collections/user"
            (signed_headers "key-123" "tok-abc") None.

Definition created : Event := mkEvent "create" (mkDocument "1" "users" ∅ "" "").
Definition updated : Event := mkEvent "update" (mkDocument "1" "users" ∅ "" "").

Definition subscription : Watch :=
  mkWatch (mkConnection (mkWebSocket "wss://api.cocobase.com/realtime/collections/users" 0)
                        "watch-users" false)
          Reading [] [].

(** Two events arrive, the holder closes the connection twice, the next
    read fails and the goroutine ends. *)
Definition session : list Action :=
  [ReadJSON (inl created); Callback; CallIsClosed;
   ReadJSON (inl updated); Callback;
   CallClose None; CallClose None;
   ReadJSON (inr (errorString "use of closed network connection"));
   Deferred; CallIsClosed].

End fixtures.


(** ** More of the query builder: names used by its properties *)

Module query_more.
Import strings fmt url query.

(** The key [addCondition] makes of a field and an operator. *)
Definition condition_key (field operator : string) : string :=
  if decide (operator ≠ "") then field +:+ "_" +:+ operator else field.

(** The condition string [addCondition] stores. *)
Definition condition (ob : OrBuilder) (field operator : string) (value : Value)
    : string :=
  or_prefix (groupName ob) +:+ condition_key field operator +:+ "="
    +:+ Sprint_v value.

(** The parameter names [Build] uses for pagination and sorting. *)
Definition reserved : list string := ["limit"; "offset"; "sort"; "order"].

(** No OR condition of [qb] is stored under [key]. *)
Definition or_free (key : string) (qb : QueryBuilder) : Prop :=
  ∀ g fs, orFilters qb !! g = Some fs → key ∉ (group_pairs fs).*1.


(** [Build] has nothing to write for [qb]. *)
Definition nothing_to_emit (qb : QueryBuilder) : Prop :=
  filters qb = ∅ ∧
  (∀ g fs f, orFilters qb !! g = Some fs → f ∈ fs → has_byte "=" f = false) ∧
  limit qb ≤ 0 ∧ offset qb ≤ 0 ∧ sort qb = "".

End query_more.

(** ** cocobase/auth.go: InitAuth, Login, Register *)

Module auth.
Import errors http types client.

Record TokenResponse : Type := mkTokenResponse { AccessToken : string }.

Section methods.
Context {S : Type} `{!Storage S}.
Variable json_Marshal : JSON → string * option error.
Variable json_Marshal_user : AppUser → string.
Variable json_Decode_user : Reader → AppUser * option error.
(** [json.NewDecoder(body).Decode(&tokenResp)] *)
Variable json_Decode_token : Reader → TokenResponse * option error.
Variable NewRequest_err : string → string → option error.
Variable roundTrip : list Request → Request → Response + error.

Local Abbreviation request := (request json_Marshal NewRequest_err roundTrip).
Local Abbreviation GetCurrentUser :=
  (GetCurrentUser json_Marshal json_Marshal_user json_Decode_user
                  NewRequest_err roundTrip).

Definition InitAuth : Call S (option error) :=
  c ← get_self;
  if decide (storage c = None) then mret None
  else
    '(token, err) ← with_storage ("", None) (Get "cocobase-token");
    match err with
    | Some _ => mret None
    | None =>
        _ ← set_token token;
        '(user, err) ← GetCurrentUser;
        match err with
        | Some err => mret (Some err)
        | None => _ ← set_user user; mret None
        end
    end.

Definition Login (email password : string) : Call S (option error) :=
  let body := JObject [("email", JString email); ("password", JString password)] in
  '(resp, err) ← request "POST" "/auth-collections/login" (Some body) false;
  match resp, err with
  | Some resp, None =>
      let '(tokenResp, err) := json_Decode_token (resp_Body resp) in
      match err with
      | Some err => mret (Some (wrapError "failed to decode response" err))
      | None =>
          err ← SetToken (AccessToken tokenResp);
          match err with
          | Some err => mret (Some err)
          | None =>
              '(user, err) ← GetCurrentUser;
              match err with
              | Some err => mret (Some err)
              | None => _ ← set_user user; mret None
              end
          end
      end
  | _, _ => mret err
  end.

Definition Register (email password : string) (data : option (gmap string JSON))
    : Call S (option error) :=
  let body := [("email", JString email); ("password", JString password)] in
  let body := match data with
              | Some data => body ++ [("data", JObject (map_to_list data))]
              | None => body
              end in
  '(resp, err) ← request "POST" "/auth-collections/signup" (Some (JObject body)) false;
  match resp, err with
  | Some resp, None =>
      let '(tokenResp, err) := json_Decode_token (resp_Body resp) in
      match err with
      | Some err => mret (Some (wrapError "failed to decode response" err))
      | None =>
          err ← SetToken (AccessToken tokenResp);
          match err with
          | Some err => mret (Some err)
          | None =>
              '(user, err) ← GetCurrentUser;
              match err with
              | Some err => mret (Some err)
              | None => _ ← set_user user; mret None
              end
          end
      end
  | _, _ => mret err
  end.

End methods.

End auth.

(** ** cocobase/documents.go *)

Module documents.
Import errors http types client query.

Section methods.
Context {S : Type}.
Variable json_Marshal : JSON → string * option error.
(** [json.NewDecoder(body).Decode(&doc)] *)
Variable json_Decode_document : Reader → Document * option error.
(** [json.NewDecoder(body).Decode(&docs)] *)
Variable json_Decode_documents : Reader → list Document * option error.
Variable NewRequest_err : string → string → option error.
Variable roundTrip : list Request → Request → Response + error.

Local Abbreviation request :=
  (request (S:=S) json_Marshal NewRequest_err roundTrip).

(** A [map[string]interface{}] argument as a request body: a nil map is
    still a non-nil [interface{}] and is sent as [null]. *)
Definition map_body (data : option (gmap string JSON)) : JSON :=
  match data with
  | Some m => JObject (map_to_list m)
  | None => JNull
  end.

(** The common end of the methods that return one document. *)
Definition decode_document (r : option Response * option error)
    : option Document * option error :=
  match r with
  | (Some resp, None) =>
      let '(doc, err) := json_Decode_document (resp_Body resp) in
      match err with
      | Some err => (None, Some (wrapError "failed to decode response" err))
      | None => (Some doc, None)
      end
  | (_, err) => (None, err)
  end.

(** The common end of the methods that return a list of documents. *)
Definition decode_documents (r : option Response * option error)
    : list Document * option error :=
  match r with
  | (Some resp, None) =>
      let '(docs, err) := json_Decode_documents (resp_Body resp) in
      match err with
      | Some err => ([], Some (wrapError "failed to decode response" err))
      | None => (docs, None)
      end
  | (_, err) => ([], err)
  end.

Definition GetDocument (collection docID : string)
    : Call S (option Document * option error) :=
  let path := "/collections/" +:+ collection +:+ "/documents/" +:+ docID in
  r ← request "GET" path None true;
  mret (decode_document r).

Definition CreateDocument (collection : string) (data : option (gmap string JSON))
    : Call S (option Document * option error) :=
  let path := "/collections/documents?collection=" +:+ collection in
  r ← request "POST" path (Some (map_body data)) true;
  mret (decode_document r).

Definition UpdateDocument (collection docID : string)
    (data : option (gmap string JSON))
    : Call S (option Document * option error) :=
  let path := "/collections/" +:+ collection +:+ "/documents/" +:+ docID in
  r ← request "PATCH" path (Some (map_body data)) true;
  mret (decode_document r).

Definition DeleteDocument (collection docID : string) : Call S (option error) :=
  let path := "/collections/" +:+ collection +:+ "/documents/" +:+ docID in
  r ← request "DELETE" path None true;
  mret r.2.

(** [ListDocuments]; [fo] and [oo] are the orders in which [query.Build()]
    visits the builder's two maps. *)
Definition ListDocuments (collection : string) (query : option QueryBuilder)
    (fo : list (string * string)) (oo : list (string * list string))
    : Call S (list Document * option error) :=
  let path := "/collections/" +:+ collection +:+ "/documents" in
  let path :=
    match query with
    | Some qb =>
        let queryStr := (Build_in fo oo qb).1 in
        if decide (queryStr ≠ "") then path +:+ "?" +:+ queryStr else path
    | None => path
    end in
  r ← request "GET" path None true;
  mret (decode_documents r).

Definition QueryDocuments (collection rawQuery : string)
    : Call S (list Document * option error) :=
  let path := "/collections/" +:+ collection +:+ "/documents" in
  let path := if decide (rawQuery ≠ "") then path +:+ "?" +:+ rawQuery else path in
  r ← request "GET" path None true;
  mret (decode_documents r).

End methods.

End documents.

(** ** storage/file.go *)

Module file.
Import errors types.

(** What [os.ReadFile] finds at a path: the bytes of a file, or something
    it cannot read. *)
Inductive Entry : Type :=
| Regular (content : string)
| Unreadable (err : error).

(** The files of the disk, by path. *)
Abbreviation Disk := (gmap string Entry).

(** The error of [os.ReadFile]: the one [os.IsNotExist] recognises, or
    another one. *)
Inductive ReadError : Type :=
| NotExist
| OtherError (err : error).

(** [os.ReadFile(path)] *)
Definition ReadFile (path : string) (d : Disk) : string * option ReadError :=
  match d !! path with
  | None => ("", Some NotExist)
  | Some (Unreadable err) => ("", Some (OtherError err))
  | Some (Regular content) => (content, None)
  end.

Record FileStorage : Type := mkFileStorage {
  filepath : string;
  data : gmap string string
}.

(** A [FileStorage] together with the disk it reads and writes. *)
Record Mounted : Type := mkMounted {
  store : FileStorage;
  disk : Disk
}.

Section methods.
(** [filepath.Dir] *)
Variable filepath_Dir : string → string.
(** [os.MkdirAll(dir, 0755)] *)
Variable os_MkdirAll : string → Disk → option error * Disk.
(** [os.WriteFile(path, data, 0644)] *)
Variable os_WriteFile : string → string → Disk → option error * Disk.
(** [json.MarshalIndent(m, "", "  ")] *)
Variable json_MarshalIndent : gmap string string → string * option error.
(** [json.Unmarshal(bytes, &m)]: the map after the call and the error. *)
Variable json_Unmarshal :
  string → gmap string string → gmap string string * option error.

Definition load (s : FileStorage) (d : Disk)
    : option ReadError * FileStorage :=
  let '(bytes, err) := ReadFile (filepath s) d in
  match err with
  | Some err => (Some err, s)
  | None =>
      let '(m, err) := json_Unmarshal bytes (data s) in
      (OtherError <$> err, mkFileStorage (filepath s) m)
  end.

Definition NewFileStorage (path : string) (d : Disk)
    : option FileStorage * option error :=
  let fs := mkFileStorage path ∅ in
  let '(err, fs) := load fs d in
  match err with
  | Some (OtherError err) => (None, Some err)
  | Some NotExist | None => (Some fs, None)
  end.

Definition save (m : Mounted) : option error * Mounted :=
  let dir := filepath_Dir (filepath (store m)) in
  let '(err, d) := os_MkdirAll dir (disk m) in
  match err with
  | Some err => (Some err, mkMounted (store m) d)
  | None =>
      let '(bytes, err) := json_MarshalIndent (data (store m)) in
      match err with
      | Some err => (Some err, mkMounted (store m) d)
      | None =>
          let '(err, d) := os_WriteFile (filepath (store m)) bytes d in
          (err, mkMounted (store m) d)
      end
  end.

Definition File_Get (key : string) (m : Mounted)
    : (string * option error) * Mounted :=
  match data (store m) !! key with
  | Some value => ((value, None), m)
  | None => (("", Some (errorString ("key not found: " +:+ key))), m)
  end.

Definition File_Set (key value : string) (m : Mounted) : option error * Mounted :=
  let s := store m in
  save (mkMounted (mkFileStorage (filepath s) (<[key := value]> (data s)))
                  (disk m)).

Definition File_Delete (key : string) (m : Mounted) : option error * Mounted :=
  let s := store m in
  save (mkMounted (mkFileStorage (filepath s) (delete key (data s))) (disk m)).

Definition FileStorage_Storage : Storage Mounted :=
  {| Get := File_Get; Set_ := File_Set; Delete := File_Delete |}.

End methods.

End file.

(** ** More servers, decoders and disks to run the definitions on *)

Module fixtures_more.
Import errors http types memory client auth file.

(** A server that answers every request with 200. *)
Definition ok (history : list Request) (req : Request) : Response + error :=
  inl (mkResponse 200 (mkReader "{}" None)).

(** A server that cannot be reached. *)
Definition unreachable (history : list Request) (req : Request)
    : Response + error :=
  inr (errorString "connection refused").

Definition json_Decode_token (body : Reader) : TokenResponse * option error :=
  (mkTokenResponse "tok-new", None).

Definition the_user : AppUser := mkAppUser "u1" "user@example.com" [] ∅ "" "".

Definition the_document : Document := mkDocument "42" "users" ∅ "" "".

Definition json_Decode_document (body : Reader) : Document * option error :=
  (the_document, None).

Definition json_Decode_documents (body : Reader)
    : list Document * option error :=
  ([the_document], None).

(** A client without storage. *)
Definition no_storage : World MemoryStorage :=
  mkWorld (mkClient "https://api.cocobase.com" "key-123" "" None None) [].

(** A storage that holds a token, and a fresh client over it. *)
Definition with_token : MemoryStorage :=
  mkMemoryStorage (<["cocobase-token" := "tok-abc"]> ∅).

Definition restarted : World MemoryStorage :=
  mkWorld (mkClient "https://api.cocobase.com" "key-123" "" None
                    (Some with_token)) [].

(** An operating system on which writing works, and one on which the
    directory cannot be made. *)
Definition filepath_Dir (path : string) : string := "/home/user/.cocobase".

Definition os_MkdirAll (dir : string) (d : Disk) : option error * Disk :=
  (None, d).

Definition os_MkdirAll_denied (dir : string) (d : Disk) : option error * Disk :=
  (Some (errorString "permission denied"), d).

Definition os_WriteFile (path bytes : string) (d : Disk) : option error * Disk :=
  (None, <[path := Regular bytes]> d).

(** A codec that knows the one map the fixtures save. *)
Definition json_MarshalIndent (m : gmap string string) : string * option error :=
  ("saved", None).

Definition json_Unmarshal (bytes : string) (m : gmap string string)
    : gmap string string * option error :=
  (<["k" := "v"]> ∅, None).

Definition empty_mount : Mounted :=
  mkMounted (mkFileStorage "/home/user/.cocobase/auth.json" ∅) ∅.

End fixtures_more.

(** ** The builder as the Go program holds it: objects behind pointers

    [qb] is a [*QueryBuilder] and Go maps are references, so a method can
    write to the struct and to either map, and [Build] fills a
    [url.Values] of its own, which is one more map of the type of
    [orFilters].  Here the objects live in a heap and every statement of
    a method is a step on that heap. *)

Module heap.
Import strings fmt url.

Abbreviation loc := nat.

(** The fields of a [QueryBuilder]; a map field holds a reference, [None]
    for the nil map of a zero-value struct. *)
Record Struct : Type := mkStruct {
  f_filters : option loc;
  f_orFilters : option loc;
  f_limit : Z;
  f_offset : Z;
  f_sort : string;
  f_order : string
}.

Inductive Object : Type :=
| OStruct (b : Struct)
| OFilters (m : gmap string string)
| OValues (m : Values).

(** The objects allocated so far; a location is an index. *)
Abbreviation Heap := (list Object).

(** A piece of Go code run on a heap; [None] is a panic. *)
Definition Exec (A : Type) : Type := Heap → option (A * Heap).

#[export] Instance Exec_ret : MRet Exec := fun A a h => Some (a, h).
#[export] Instance Exec_bind : MBind Exec := fun A B f m h =>
  match m h with
  | Some (a, h') => f a h'
  | None => None
  end.

Definition panic {A} : Exec A := fun _ => None.

Definition alloc (o : Object) : Exec loc := fun h => Some (length h, h ++ [o]).

Definition load (l : loc) : Exec Object := fun h =>
  match h !! l with
  | Some o => Some (o, h)
  | None => None
  end.

Definition store (l : loc) (o : Object) : Exec unit := fun h =>
  Some (tt, <[l := o]> h).

(** [*qb] *)
Definition load_struct (qb : loc) : Exec Struct :=
  o ← load qb;
  match o with
  | OStruct b => mret b
  | _ => panic
  end.

(** Reading a [map[string]string]; the nil map reads as the empty one. *)
Definition load_filters (m : option loc) : Exec (gmap string string) :=
  match m with
  | None => mret ∅
  | Some l =>
      o ← load l;
      match o with
      | OFilters m => mret m
      | _ => panic
      end
  end.

(** Reading a [map[string][]string]. *)
Definition load_values (m : option loc) : Exec Values :=
  match m with
  | None => mret ∅
  | Some l =>
      o ← load l;
      match o with
      | OValues m => mret m
      | _ => panic
      end
  end.

(** [for _, x := range l { body }] *)
Fixpoint for_each {A} (l : list A) (body : A → Exec unit) : Exec unit :=
  match l with
  | [] => mret tt
  | x :: l => body x;; for_each l body
  end.

(** [v.Add(key, value)] on the [url.Values] at [v]. *)
Definition Values_Add (v : loc) (key value : string) : Exec unit :=
  m ← load_values (Some v);
  store v (OValues (Add key value m)).

(** [NewQuery()] *)
Definition NewQuery_at : Exec loc :=
  filters ← alloc (OFilters ∅);
  orFilters ← alloc (OValues ∅);
  alloc (OStruct (mkStruct (Some filters) (Some orFilters) 0 0 "" "")).

(** [qb.Where(field, value)]: an assignment to an entry of a nil map
    panics. *)
Definition Where_at (field : string) (value : Value) (qb : loc) : Exec loc :=
  b ← load_struct qb;
  match f_filters b with
  | None => panic
  | Some l =>
      m ← load_filters (Some l);
      store l (OFilters (<[field := Sprint_v value]> m));;
      mret qb
  end.

(** [qb.Limit(limit)] *)
Definition Limit_at (limit : Z) (qb : loc) : Exec loc :=
  b ← load_struct qb;
  store qb (OStruct (mkStruct (f_filters b) (f_orFilters b) limit (f_offset b)
                              (f_sort b) (f_order b)));;
  mret qb.

(** [qb.Build()], statement by statement.  [order_f] and [order_o] are
    the orders in which this call's two [range] loops visit the map they
    find. *)
Definition Build_at (order_f : gmap string string → list (string * string))
    (order_o : gmap string (list string) → list (string * list string))
    (qb : loc) : Exec string :=
  params ← alloc (OValues ∅);
  b ← load_struct qb;
  filters ← load_filters (f_filters b);
  for_each (order_f filters) (fun kv => Values_Add params kv.1 kv.2);;
  b ← load_struct qb;
  orFilters ← load_values (f_orFilters b);
  for_each (order_o orFilters) (fun g =>
    for_each g.2 (fun filter =>
      match SplitN2 filter "=" with
      | [p0; p1] => Values_Add params p0 p1
      | _ => mret tt
      end));;
  b ← load_struct qb;
  (if 0 <? f_limit b then Values_Add params "limit" (Sprint_d (f_limit b))
   else mret tt);;
  b ← load_struct qb;
  (if 0 <? f_offset b then Values_Add params "offset" (Sprint_d (f_offset b))
   else mret tt);;
  b ← load_struct qb;
  (if decide (f_sort b ≠ "") then
     Values_Add params "sort" (f_sort b);;
     b ← load_struct qb;
     if decide (f_order b ≠ "") then Values_Add params "order" (f_order b)
     else mret tt
   else mret tt);;
  m ← load_values (Some params);
  mret (Encode m).

(** The builder a pointer stands for: the struct it points to with the
    content of its two maps. *)
Definition view (h : Heap) (qb : loc) : option query.QueryBuilder :=
  match load_struct qb h with
  | Some (b, _) =>
      match load_filters (f_filters b) h, load_values (f_orFilters b) h with
      | Some (fm, _), Some (om, _) =>
          Some (query.mkQueryBuilder fm om (f_limit b) (f_offset b)
                                     (f_sort b) (f_order b))
      | _, _ => None
      end
  | None => None
  end.

(** What a caller holding [qb] gets from running [p]: the value returned
    and the builder [qb] stands for afterwards. *)
Definition observe {A} (p : Exec A) (qb : loc) (h : Heap)
    : option (A * query.QueryBuilder) :=
  match p h with
  | Some (a, h') =>
      match view h' qb with
      | Some b => Some (a, b)
      | None => None
      end
  | None => None
  end.

(** The heap after [NewQuery().Where("status", "active").Limit(10)]. *)
Definition a_builder : loc * Heap :=
  default (0%nat, [])
    ((qb ← NewQuery_at;
      qb ← Where_at "status" (VString "active") qb;
      Limit_at 10 qb) []).

End heap.

(** * Properties *)

(** ** The repository's tests, run on the embedding *)

Section repository_tests.
Import strings fmt url query realtime.

(** tests/query_test.go, "simple where" *)
Example test_simple_where :
  (Build (Where "status" (VString "active") NewQuery)).1 = "status=active".
Proof. vm_compute. reflexivity. Qed.

(** TestSimpleOr *)
Example test_simple_or :
  (Build (Or_Where Or "isVerified" (VBool true)
           (Or_Where Or "isPremium" (VBool true) NewQuery))).1
  = "%5Bor%5DisPremium=true&%5Bor%5DisVerified=true".
Proof. vm_compute. reflexivity. Qed.

(** tests/query_test.go, "with pagination" *)
Example test_with_pagination :
  (Build (Offset 100 (Limit 50 (Where "status" (VString "active") NewQuery)))).1
  = "limit=50&offset=100&status=active".
Proof. vm_compute. reflexivity. Qed.

(** TestOrGroups *)
Example test_or_groups :
  (Build (Or_Where (OrGroup "location") "country" (VString "UK")
           (Or_Where (OrGroup "location") "country" (VString "US")
             (Or_Where (OrGroup "tier") "isVerified" (VBool true)
               (Or_Where (OrGroup "tier") "isPremium" (VBool true) NewQuery))))).1
  = "%5Bor%3Alocation%5Dcountry=US&%5Bor%3Alocation%5Dcountry=UK&%5Bor%3Atier%5DisPremium=true&%5Bor%3Atier%5DisVerified=true".
Proof. vm_compute. reflexivity. Qed.

(** TestBetween and TestIn *)
Example test_between_in :
  (Build (In "role" [VString "admin"; VString "editor"]
           (Between "age" (VInt 18) (VInt 65) NewQuery))).1
  = "age_gte=18&age_lte=65&role_in=admin%2Ceditor".
Proof. vm_compute. reflexivity. Qed.

(** TestPage *)
Example test_page :
  (Build (Page 3 20 NewQuery)).1 = "limit=20&offset=40".
Proof. vm_compute. reflexivity. Qed.

(** TestPageWithInvalidNumber asks for [offset=0] in the query string; the
    offset is 0 and [Build] leaves a zero offset out. *)
Example test_page_with_invalid_number :
  offset (Page 0 20 NewQuery) = 0 ∧ (Build (Page 0 20 NewQuery)).1 = "limit=20".
Proof. vm_compute. split; reflexivity. Qed.

(** TestOrderByDesc *)
Example test_order_by_desc :
  (Build (OrderByDesc "createdAt" NewQuery)).1 = "order=desc&sort=createdAt".
Proof. vm_compute. reflexivity. Qed.

(** TestEmptyQuery *)
Example test_empty_query : (Build NewQuery).1 = "".
Proof. vm_compute. reflexivity. Qed.

(** The subscription of the fixtures is what [WatchCollection] returns. *)
Example WatchCollection_users :
  WatchCollection "https://api.cocobase.com" "users" "" None None
  = (Some fixtures.subscription, None).
Proof. vm_compute. reflexivity. Qed.

End repository_tests.

(** ** Strings: splitting, joining, escaping *)

Section string_facts.
Import strings.

Lemma app_String (c : ascii) (s t : string) :
  String c s +:+ t = String c (s +:+ t).
Proof. reflexivity. Qed.

Lemma app_empty (t : string) : "" +:+ t = t.
Proof. reflexivity. Qed.

Ltac str_simpl := rewrite ?app_String, ?app_empty; simpl.

Lemma app_assoc_string (s t u : string) : (s +:+ t) +:+ u = s +:+ (t +:+ u).
Proof. induction s as [|c s IH]; str_simpl; [done | by rewrite IH]. Qed.

Lemma app_nil_r_string (s : string) : s +:+ "" = s.
Proof. induction s as [|c s IH]; str_simpl; [done | by rewrite IH]. Qed.

Lemma has_byte_app (c : ascii) (s t : string) :
  has_byte c (s +:+ t) = has_byte c s || has_byte c t.
Proof.
  induction s as [|c' s IH]; str_simpl; [done|].
  rewrite IH. by destruct (bool_decide (c' = c)).
Qed.

Lemma Cut_app (sep : ascii) (s t : string) :
  has_byte sep s = false →
  Cut sep (s +:+ String sep t) = Some (s, t).
Proof.
  induction s as [|c s IH]; str_simpl; intros Hs.
  - by rewrite decide_True.
  - apply orb_false_iff in Hs as [Hc Hs]. apply bool_decide_eq_false in Hc.
    rewrite decide_False by done. by rewrite IH.
Qed.

Lemma Cut_None (sep : ascii) (s : string) :
  has_byte sep s = false → Cut sep s = None.
Proof.
  induction s as [|c s IH]; simpl; intros Hs; [done|].
  apply orb_false_iff in Hs as [Hc Hs]. apply bool_decide_eq_false in Hc.
  rewrite decide_False by done. by rewrite IH.
Qed.

Lemma Split_no_sep (sep : ascii) (s : string) :
  has_byte sep s = false → Split s sep = [s].
Proof.
  induction s as [|c s IH]; simpl; intros Hs; [done|].
  apply orb_false_iff in Hs as [Hc Hs]. apply bool_decide_eq_false in Hc.
  rewrite decide_False by done. by rewrite IH.
Qed.

Lemma Split_app (sep : ascii) (s t : string) :
  has_byte sep s = false →
  Split (s +:+ String sep t) sep = s :: Split t sep.
Proof.
  induction s as [|c s IH]; str_simpl; intros Hs.
  - by rewrite decide_True.
  - apply orb_false_iff in Hs as [Hc Hs]. apply bool_decide_eq_false in Hc.
    rewrite decide_False by done. by rewrite IH.
Qed.

Lemma Join_cons (x y : string) (l : list string) (sep : string) :
  Join (x :: y :: l) sep = x +:+ sep +:+ Join (y :: l) sep.
Proof. reflexivity. Qed.

(** Splitting a joined list gives the list back when no piece holds the
    separator. *)
Lemma Split_Join (sep : ascii) (l : list string) :
  l ≠ [] →
  Forall (fun x => has_byte sep x = false) l →
  Split (Join l (String sep "")) sep = l.
Proof.
  intros Hne Hl. induction Hl as [|x l Hx Hl IH]; [done|].
  destruct l as [|y l].
  - simpl. by apply Split_no_sep.
  - rewrite Join_cons, app_String, app_empty.
    rewrite Split_app by done. f_equal. by apply IH.
Qed.

End string_facts.

Section escape_facts.
Import strings url.

Lemma escape_byte_plain (sep : ascii) (c : ascii) :
  sep = "&"%char ∨ sep = "="%char → has_byte sep (escape_byte c) = false.
Proof.
  intros [-> | ->];
    destruct c as [[] [] [] [] [] [] [] []]; vm_compute; reflexivity.
Qed.

Lemma unescape_escape_byte (c : ascii) (s : string) :
  unescape (escape_byte c +:+ s) = String c (unescape s).
Proof. destruct c as [[] [] [] [] [] [] [] []]; reflexivity. Qed.

Lemma QueryEscape_plain (sep : ascii) (s : string) :
  sep = "&"%char ∨ sep = "="%char → has_byte sep (QueryEscape s) = false.
Proof.
  intros Hsep. induction s as [|c s IH]; simpl; [done|].
  rewrite has_byte_app, IH by done. by rewrite escape_byte_plain.
Qed.

Lemma unescape_QueryEscape (s : string) : unescape (QueryEscape s) = s.
Proof.
  induction s as [|c s IH]; simpl; [done|].
  by rewrite unescape_escape_byte, IH.
Qed.

Lemma QueryEscape_inj (s t : string) : QueryEscape s = QueryEscape t → s = t.
Proof.
  intros H. rewrite <-(unescape_QueryEscape s), <-(unescape_QueryEscape t).
  by rewrite H.
Qed.

Lemma Encode_pair_no_amp (kv : string * string) :
  has_byte "&" (Encode_pair kv) = false.
Proof.
  unfold Encode_pair. rewrite !has_byte_app, !QueryEscape_plain by auto. done.
Qed.

Lemma Encode_pair_inj (kv kv' : string * string) :
  Encode_pair kv = Encode_pair kv' → kv = kv'.
Proof.
  destruct kv as [k v], kv' as [k' v']. unfold Encode_pair. simpl. intros H.
  assert (Some (QueryEscape k, QueryEscape v) = Some (QueryEscape k', QueryEscape v')) as Heq.
  { rewrite <-(Cut_app "=" (QueryEscape k) (QueryEscape v)) by (apply QueryEscape_plain; auto).
    rewrite <-(Cut_app "=" (QueryEscape k') (QueryEscape v')) by (apply QueryEscape_plain; auto).
    by f_equal. }
  injection Heq as Hk Hv. f_equal; by apply QueryEscape_inj.
Qed.

Lemma Encode_pair_nonempty (kv : string * string) : Encode_pair kv ≠ "".
Proof.
  unfold Encode_pair. destruct (QueryEscape kv.1); discriminate.
Qed.

(** The components of an encoded [url.Values] are its pairs, escaped, in
    the order [Encode] writes them. *)
Lemma components_Encode (v : Values) :
  components (Encode v) = Encode_pair <$> Encode_pairs v.
Proof.
  unfold components, Encode.
  destruct (Encode_pairs v) as [|kv l] eqn:Hl; [done|].
  rewrite decide_False.
  - apply (Split_Join "&"); [done|].
    apply Forall_forall. intros x Hx.
    apply list_elem_of_fmap in Hx as (kv' & -> & _). apply Encode_pair_no_amp.
  - rewrite fmap_cons. destruct l as [|kv' l].
    + apply Encode_pair_nonempty.
    + rewrite fmap_cons, Join_cons. intros Heq.
      apply (Encode_pair_nonempty kv).
      destruct (Encode_pair kv); [done | discriminate].
Qed.

End escape_facts.

(** ** url.Values: what [Add] and [Encode] do to one key *)

Section values_facts.
Import strings url query.

Lemma at_key_Add_eq (k v : string) (m : Values) :
  at_key (Add k v m) k = at_key m k ++ [v].
Proof. unfold at_key at 1, Add. by rewrite lookup_insert_eq. Qed.

Lemma at_key_Add_ne (k k' v : string) (m : Values) :
  k ≠ k' → at_key (Add k v m) k' = at_key m k'.
Proof. intros Hne. unfold at_key, Add. by rewrite lookup_insert_ne. Qed.

Lemma picks_nil (k : string) : picks k [] = [].
Proof. reflexivity. Qed.

Lemma picks_cons (k : string) (kv : string * string) (l : list (string * string)) :
  picks k (kv :: l) = (if decide (kv.1 = k) then [kv.2] else []) ++ picks k l.
Proof. unfold picks. rewrite filter_cons. by destruct (decide (kv.1 = k)). Qed.

Lemma picks_app (k : string) (l1 l2 : list (string * string)) :
  picks k (l1 ++ l2) = picks k l1 ++ picks k l2.
Proof. unfold picks. by rewrite filter_app, fmap_app. Qed.

Lemma elem_of_picks (k v : string) (l : list (string * string)) :
  v ∈ picks k l ↔ (k, v) ∈ l.
Proof.
  unfold picks. rewrite list_elem_of_fmap. split.
  - intros ([k' v'] & -> & Hin). apply list_elem_of_filter in Hin as [Hk Hin].
    simpl in *. by subst.
  - intros Hin. exists (k, v). split; [done|]. by apply list_elem_of_filter.
Qed.

Lemma picks_nil_iff (k : string) (l : list (string * string)) :
  picks k l = [] ↔ k ∉ l.*1.
Proof.
  induction l as [|[k' v'] l IH]; [rewrite picks_nil; set_solver|].
  rewrite picks_cons, fmap_cons, not_elem_of_cons. simpl.
  destruct (decide (k' = k)) as [->|Hne]; simpl.
  - split; [done | intros [? _]; done].
  - rewrite IH. split; [by intros ? | by intros [_ ?]].
Qed.

Lemma adds_app (l1 l2 : list (string * string)) (m : Values) :
  adds (l1 ++ l2) m = adds l2 (adds l1 m).
Proof. apply foldl_app. Qed.

(** After a run of [Add]s a key holds what it held, then the values added
    under it, in the order they were added. *)
Lemma at_key_adds (k : string) (l : list (string * string)) (m : Values) :
  at_key (adds l m) k = at_key m k ++ picks k l.
Proof.
  revert m. induction l as [|[k' v'] l IH]; intros m.
  - by rewrite picks_nil, app_nil_r.
  - unfold adds. simpl. fold (adds l (Add k' v' m)). rewrite IH, picks_cons. simpl.
    destruct (decide (k' = k)) as [->|Hne].
    + by rewrite at_key_Add_eq, <-app_assoc.
    + by rewrite at_key_Add_ne.
Qed.

Lemma lookup_adds (k : string) (l : list (string * string)) (m : Values) :
  adds l m !! k =
    if decide (picks k l = []) then m !! k else Some (at_key m k ++ picks k l).
Proof.
  revert m. induction l as [|[k' v'] l IH]; intros m; [done|].
  unfold adds. simpl. fold (adds l (Add k' v' m)). rewrite IH, picks_cons. simpl.
  destruct (decide (k' = k)) as [->|Hne]; simpl.
  - rewrite at_key_Add_eq. unfold Add. rewrite lookup_insert_eq.
    destruct (decide (picks k l = [])) as [->|]; [done|].
    by rewrite <-app_assoc.
  - rewrite at_key_Add_ne by done. unfold Add. rewrite lookup_insert_ne by done.
    done.
Qed.

(** Two runs of [Add]s from the empty map that give every key the same
    values build the same map. *)
Lemma adds_ext (l1 l2 : list (string * string)) :
  (∀ k, picks k l1 = picks k l2) → adds l1 ∅ = adds l2 ∅.
Proof.
  intros Heq. apply map_eq. intros k. by rewrite !lookup_adds, Heq.
Qed.

Lemma elem_of_sorted_keys (k : string) (m : Values) :
  k ∈ sorted_keys m ↔ is_Some (m !! k).
Proof.
  unfold sorted_keys. rewrite merge_sort_Permutation.
  rewrite list_elem_of_fmap. split.
  - intros ([k' l] & -> & Hin). apply elem_of_map_to_list in Hin. by exists l.
  - intros [l Hl]. exists (k, l). split; [done|]. by apply elem_of_map_to_list.
Qed.

Lemma elem_of_Encode_pairs (k v : string) (m : Values) :
  (k, v) ∈ Encode_pairs m ↔ v ∈ at_key m k.
Proof.
  unfold Encode_pairs. rewrite list_elem_of_bind. split.
  - intros (k' & Hin & _). apply list_elem_of_fmap in Hin as (v' & Heq & Hin).
    by simplify_eq.
  - intros Hin. exists k. split; [by apply list_elem_of_fmap_2|].
    apply elem_of_sorted_keys. unfold at_key in Hin.
    destruct (m !! k); [done|]. by apply elem_of_nil in Hin.
Qed.

(** An encoded [url.Values] carries [key=value] exactly when [value] is
    among the values of [key]. *)
Lemma emits_Encode (k v : string) (m : Values) :
  emits (Encode m) k v ↔ v ∈ at_key m k.
Proof.
  unfold emits. rewrite components_Encode, <-elem_of_Encode_pairs. split.
  - intros Hin. apply list_elem_of_fmap in Hin as (kv & Heq & Hin).
    by apply Encode_pair_inj in Heq as <-.
  - apply list_elem_of_fmap_2.
Qed.

Lemma has_param_Encode (k : string) (m : Values) :
  has_param (Encode m) k ↔ at_key m k ≠ [].
Proof.
  unfold has_param. setoid_rewrite emits_Encode. split.
  - intros [v Hv] Hnil. rewrite Hnil in Hv. by apply elem_of_nil in Hv.
  - destruct (at_key m k) as [|v l]; [done|]. intros _. exists v. left.
Qed.

End values_facts.

(** ** Build as one run of [params.Add] *)

Section build_facts.
Import strings fmt url query.

Lemma add_or_filter_adds (params : Values) (filter : string) :
  add_or_filter params filter =
    adds (from_option (fun kv => [kv]) [] (split_pair filter)) params.
Proof.
  unfold add_or_filter, split_pair.
  destruct (SplitN2 filter "=") as [|p0 [|p1 [|p2 l]]]; reflexivity.
Qed.

Lemma add_group_adds (filters : list string) (params : Values) :
  foldl add_or_filter params filters = adds (group_pairs filters) params.
Proof.
  revert params. induction filters as [|f fs IH]; intros params; [done|].
  simpl. rewrite IH, add_or_filter_adds. unfold group_pairs. simpl.
  destruct (split_pair f) as [kv|]; reflexivity.
Qed.

Lemma add_or_filters_adds (oo : list (string * list string)) (params : Values) :
  add_or_filters oo params = adds (or_pairs oo) params.
Proof.
  revert params. induction oo as [|g oo IH]; intros params; [done|].
  unfold or_pairs. rewrite bind_cons, adds_app, <-add_group_adds.
  apply IH.
Qed.

Lemma add_pagination_adds (qb : QueryBuilder) (params : Values) :
  add_pagination qb params = adds (pagination_pairs qb) params.
Proof.
  unfold add_pagination, pagination_pairs.
  destruct (0 <? limit qb), (0 <? offset qb); reflexivity.
Qed.

Lemma add_sorting_adds (qb : QueryBuilder) (params : Values) :
  add_sorting qb params = adds (sorting_pairs qb) params.
Proof.
  unfold add_sorting, sorting_pairs.
  destruct (decide (sort qb ≠ "")), (decide (order qb ≠ "")); reflexivity.
Qed.

(** [Build] fills [params] with the AND filters, then the OR conditions,
    then the pagination and the sorting parameters. *)
Lemma Build_params_adds (fo : list (string * string))
    (oo : list (string * list string)) (qb : QueryBuilder) :
  Build_params fo oo qb = adds (added_pairs fo oo qb) ∅.
Proof.
  unfold Build_params, added_pairs.
  rewrite add_sorting_adds, add_pagination_adds, add_or_filters_adds.
  by rewrite !adds_app.
Qed.

Lemma at_key_Build_params (k : string) (fo : list (string * string))
    (oo : list (string * list string)) (qb : QueryBuilder) :
  at_key (Build_params fo oo qb) k =
    picks k fo ++ picks k (or_pairs oo) ++ picks k (pagination_pairs qb)
      ++ picks k (sorting_pairs qb).
Proof.
  rewrite Build_params_adds, at_key_adds. unfold added_pairs.
  by rewrite !picks_app.
Qed.

Lemma range_order_elem_of {V} (m : gmap string V) (l : list (string * V))
    (k : string) (v : V) :
  range_order m l → (k, v) ∈ l ↔ m !! k = Some v.
Proof. unfold range_order. intros ->. apply elem_of_map_to_list. Qed.

Lemma range_order_NoDup {V} (m : gmap string V) (l : list (string * V)) :
  range_order m l → NoDup l.*1.
Proof. unfold range_order. intros ->. apply NoDup_fst_map_to_list. Qed.

Lemma range_order_refl {V} (m : gmap string V) : range_order m (map_to_list m).
Proof. unfold range_order. reflexivity. Qed.

(** Every call of [Build] returns what [Build] returns for some order. *)
Lemma Build_returns_Build (qb : QueryBuilder) : Build_returns qb (Build qb).1.
Proof.
  exists (map_to_list (filters qb)), (map_to_list (orFilters qb)).
  split; [apply range_order_refl|]. split; [apply range_order_refl | done].
Qed.

(** Among keys that are all different, one key holds at most its value. *)
Lemma picks_NoDup (k : string) (l : list (string * string)) :
  NoDup l.*1 → picks k l = match list_find (fun kv => kv.1 = k) l with
                           | Some (_, kv) => [kv.2]
                           | None => []
                           end.
Proof.
  induction l as [|[k' v'] l IH]; [done|].
  rewrite fmap_cons, NoDup_cons. simpl. intros [Hnotin Hnd].
  rewrite picks_cons. simpl. destruct (decide (k' = k)) as [->|Hne]; simpl.
  - apply picks_nil_iff in Hnotin. by rewrite Hnotin.
  - rewrite IH by done. by destruct (list_find _ l) as [[]|].
Qed.

(** The AND filters give each of their keys its one value, in whatever
    order the map is visited. *)
Lemma picks_filters (k : string) (m : gmap string string)
    (fo : list (string * string)) :
  range_order m fo → picks k fo = match m !! k with Some v => [v] | None => [] end.
Proof.
  intros Hfo. destruct (m !! k) as [v|] eqn:Hk.
  - apply (range_order_elem_of _ _ _ _ Hfo) in Hk.
    rewrite picks_NoDup by (by eapply range_order_NoDup).
    destruct (list_find _ fo) as [[i [k' v']]|] eqn:Hfind.
    + apply list_find_Some in Hfind as (Hi & Hk' & _). simpl in *. subst k'.
      apply list_elem_of_lookup_2 in Hi.
      apply (range_order_elem_of _ _ _ _ Hfo) in Hi, Hk. congruence.
    + apply list_find_None in Hfind. rewrite Forall_forall in Hfind.
      by destruct (Hfind _ Hk).
  - apply picks_nil_iff. intros Hin. apply list_elem_of_fmap in Hin as ([k' v] & -> & Hin).
    apply (range_order_elem_of _ _ _ _ Hfo) in Hin. simpl in *. congruence.
Qed.

End build_facts.

(** ** The query builder *)

Section query_claims.
Import strings fmt url query.

Lemma call_filters (p : Predicate) (qb : QueryBuilder) :
  filters (call p qb) = <[prescribed_key p := prescribed_value p]> (filters qb).
Proof. destruct p; reflexivity. Qed.

Lemma call_frame (p : Predicate) (qb : QueryBuilder) :
  orFilters (call p qb) = orFilters qb ∧ limit (call p qb) = limit qb ∧
  offset (call p qb) = offset qb ∧ sort (call p qb) = sort qb ∧
  order (call p qb) = order qb.
Proof. destruct p; done. Qed.

(** A stored AND filter is emitted by every [Build]. *)
Lemma Build_emits_filter (qb : QueryBuilder) (k v s : string) :
  filters qb !! k = Some v → Build_returns qb s → emits s k v.
Proof.
  intros Hk (fo & oo & Hfo & _ & <-). unfold Build_in. simpl.
  apply emits_Encode. rewrite at_key_Build_params.
  rewrite (picks_filters k _ _ Hfo), Hk. set_solver.
Qed.

(** C1: each predicate method of the query builder writes exactly the key
    its operator prescribes into the filter map, with the value as
    printed (list arguments joined by commas, "true"/"false" for the null
    checks), leaves the rest of the builder alone, and every [Build] of
    the resulting builder emits that key=value pair. *)
Theorem predicate_stored_and_emitted (p : Predicate) (qb : QueryBuilder) :
  filters (call p qb) = <[prescribed_key p := prescribed_value p]> (filters qb) ∧
  (∀ k, k ≠ prescribed_key p → filters (call p qb) !! k = filters qb !! k) ∧
  orFilters (call p qb) = orFilters qb ∧
  (∀ s, Build_returns (call p qb) s →
        emits s (prescribed_key p) (prescribed_value p)).
Proof.
  split; [apply call_filters|]. split; [|split].
  - intros k Hk. by rewrite call_filters, lookup_insert_ne.
  - apply call_frame.
  - intros s Hs. eapply Build_emits_filter; [|done].
    by rewrite call_filters, lookup_insert_eq.
Qed.

Lemma predicate_stored_and_emitted_witness :
  emits (Build (call (PNotEquals "status" (VString "deleted")) NewQuery)).1
        "status_ne" "deleted".
Proof.
  apply (proj2 (proj2 (proj2 (predicate_stored_and_emitted
           (PNotEquals "status" (VString "deleted")) NewQuery)))).
  apply Build_returns_Build.
Defined.

Lemma int_wrap_small (z : Z) : int_range z → int_wrap z = z.
Proof.
  unfold int_range, int_wrap. intros Hz.
  rewrite Z.mod_small by lia. lia.
Qed.

Lemma picks_or_pairs_nil (k : string) (oo : list (string * list string)) :
  (∀ g, g ∈ oo → k ∉ (group_pairs g.2).*1) → picks k (or_pairs oo) = [].
Proof.
  intros Hfree. apply picks_nil_iff. unfold or_pairs. intros Hin.
  apply list_elem_of_fmap in Hin as (kv & -> & Hin).
  apply list_elem_of_bind in Hin as (g & Hin & Hg).
  apply (Hfree g Hg). by apply list_elem_of_fmap_2.
Qed.

Lemma picks_key_free (k : string) (qb : QueryBuilder)
    (fo : list (string * string)) (oo : list (string * list string)) :
  key_free k qb → range_order (filters qb) fo → range_order (orFilters qb) oo →
  picks k fo = [] ∧ picks k (or_pairs oo) = [].
Proof.
  intros [Hf Ho] Hfo Hoo. split.
  - by rewrite (picks_filters k _ _ Hfo), Hf.
  - apply picks_or_pairs_nil. intros [g fs] Hg.
    apply (range_order_elem_of _ _ _ _ Hoo) in Hg. by apply (Ho g).
Qed.

(** The value of [key] written by the pagination and sorting steps. *)
Lemma picks_limit (qb : QueryBuilder) :
  picks "limit" (pagination_pairs qb ++ sorting_pairs qb) =
    if 0 <? limit qb then [Sprint_d (limit qb)] else [].
Proof.
  unfold pagination_pairs, sorting_pairs.
  destruct (0 <? limit qb), (0 <? offset qb), (decide (sort qb ≠ "")),
    (decide (order qb ≠ "")); reflexivity.
Qed.

Lemma picks_offset (qb : QueryBuilder) :
  picks "offset" (pagination_pairs qb ++ sorting_pairs qb) =
    if 0 <? offset qb then [Sprint_d (offset qb)] else [].
Proof.
  unfold pagination_pairs, sorting_pairs.
  destruct (0 <? limit qb), (0 <? offset qb), (decide (sort qb ≠ "")),
    (decide (order qb ≠ "")); reflexivity.
Qed.

(** As stated, C4 fails: a filter on a field called "limit" makes [Build]
    emit a "limit" parameter while the stored limit is 0. *)
Lemma limit_param_without_limit :
  let qb := Where "limit" (VInt 5) NewQuery in
  limit qb = 0 ∧ (Build qb).1 = "limit=5" ∧ Build_returns qb "limit=5" ∧
  ¬ (has_param "limit=5" "limit" ↔ 0 < limit qb).
Proof.
  split; [reflexivity|]. split; [vm_compute; reflexivity|]. split.
  - exists [("limit", "5")], []. vm_compute. repeat split; reflexivity.
  - intros [Himp _]. simpl in Himp. enough (0 < 0) by lia. apply Himp.
    exists "5". vm_compute. left.
Qed.

(** C4 (amended): for every string [Build] returns, a stored limit above 0
    is emitted as limit=<decimal>, and when no AND filter and no OR
    condition is itself stored under the key "limit", a "limit" parameter
    is emitted if and only if the stored limit is above 0; the same for
    "offset".  [Page(page, perPage)] sets limit to [perPage] and offset to
    [(page' - 1) * perPage] in Go's int arithmetic, where [page'] is
    [page], or 1 when [page < 1]; a page below 1 gives offset 0. *)
Theorem pagination_serialized (qb : QueryBuilder) (s : string) (page perPage : Z) :
  Build_returns qb s → int_range page →
  (0 < limit qb → emits s "limit" (Sprint_d (limit qb))) ∧
  (key_free "limit" qb → (has_param s "limit" ↔ 0 < limit qb)) ∧
  (0 < offset qb → emits s "offset" (Sprint_d (offset qb))) ∧
  (key_free "offset" qb → (has_param s "offset" ↔ 0 < offset qb)) ∧
  limit (Page page perPage qb) = perPage ∧
  offset (Page page perPage qb) = int_wrap ((Z.max 1 page - 1) * perPage) ∧
  (int_range ((Z.max 1 page - 1) * perPage) →
     offset (Page page perPage qb) = (Z.max 1 page - 1) * perPage) ∧
  (page ≤ 1 → offset (Page page perPage qb) = 0).
Proof.
  intros (fo & oo & Hfo & Hoo & Hs) Hpage. unfold Build_in in Hs. simpl in Hs.
  subst s.
  assert (∀ k, at_key (Build_params fo oo qb) k =
               picks k fo ++ picks k (or_pairs oo) ++
               picks k (pagination_pairs qb ++ sorting_pairs qb)) as Hat.
  { intros k. by rewrite at_key_Build_params, picks_app. }
  assert (offset (Page page perPage qb) = int_wrap ((Z.max 1 page - 1) * perPage))
    as Hoff.
  { unfold Page. simpl. destruct (Z.ltb_spec page 1).
    - by replace (Z.max 1 page) with 1 by lia.
    - replace (Z.max 1 page) with page by lia.
      rewrite (int_wrap_small (page - 1)); [done|]. unfold int_range in *. lia. }
  split; [|split; [|split; [|split; [|split; [|split; [|split]]]]]].
  - intros Hpos. apply emits_Encode. rewrite Hat, picks_limit.
    apply Z.ltb_lt in Hpos as ->. set_solver.
  - intros Hfree. destruct (picks_key_free _ _ _ _ Hfree Hfo Hoo) as [Hf Ho].
    rewrite has_param_Encode, Hat, picks_limit, Hf, Ho.
    destruct (Z.ltb_spec 0 (limit qb)); split; (done || lia).
  - intros Hpos. apply emits_Encode. rewrite Hat, picks_offset.
    apply Z.ltb_lt in Hpos as ->. set_solver.
  - intros Hfree. destruct (picks_key_free _ _ _ _ Hfree Hfo Hoo) as [Hf Ho].
    rewrite has_param_Encode, Hat, picks_offset, Hf, Ho.
    destruct (Z.ltb_spec 0 (offset qb)); split; (done || lia).
  - done.
  - done.
  - intros Hrange. by rewrite Hoff, int_wrap_small.
  - intros Hle. rewrite Hoff. by replace (Z.max 1 page) with 1 by lia.
Qed.

Lemma pagination_serialized_witness :
  let s := "limit=20&offset=40" in
  (has_param s "limit" ↔ 0 < 20) ∧ emits s "offset" "40" ∧
  offset (Page 0 20 NewQuery) = 0.
Proof.
  assert (Build_returns (Page 3 20 NewQuery) "limit=20&offset=40") as Hs.
  { exact (Build_returns_Build (Page 3 20 NewQuery)). }
  assert (int_range 0) as Hp.
  { unfold int_range. lia. }
  assert (key_free "limit" (Page 3 20 NewQuery)) as Hfree.
  { split; [reflexivity|]. intros g fs Hg. simpl in Hg.
    rewrite lookup_empty in Hg. discriminate. }
  pose proof (pagination_serialized (Page 3 20 NewQuery) _ 0 20 Hs Hp)
    as (_ & Hlimit & Hoffset & _ & _ & _ & _ & Hpage).
  split; [exact (Hlimit Hfree)|]. split.
  - exact (Hoffset eq_refl).
  - apply Hpage. lia.
Defined.

(** *** Determinism of [Build] *)

Lemma picks_bind {A} (k : string) (f : A → list (string * string)) (l : list A) :
  picks k (l ≫= f) = l ≫= (fun x => picks k (f x)).
Proof.
  induction l as [|x l IH]; [done|].
  by rewrite !bind_cons, picks_app, IH.
Qed.

(** Joining the contributions of a list's elements does not depend on the
    order of the list when at most one element contributes. *)
Lemma bind_one_contributor {A B} (c : A → list B) (l1 l2 : list A) :
  l1 ≡ₚ l2 → NoDup l1 →
  (∀ x y, x ∈ l1 → y ∈ l1 → c x ≠ [] → c y ≠ [] → x = y) →
  l1 ≫= c = l2 ≫= c.
Proof.
  induction 1 as [|x l1 l2 Hperm IH|x y l|l1 l2 l3 Hperm1 IH1 Hperm2 IH2];
    intros Hnd Hone.
  - done.
  - rewrite !bind_cons. f_equal. apply IH.
    + by apply NoDup_cons in Hnd as [_ ?].
    + intros a b Ha Hb. apply Hone; by right.
  - rewrite !bind_cons.
    destruct (c x) as [|bx lx] eqn:Hx; [done|].
    destruct (c y) as [|by_ ly] eqn:Hy; [done|].
    apply NoDup_cons in Hnd as [Hnotin _]. exfalso. apply Hnotin.
    rewrite (Hone y x); [left| left | right; left | congruence | congruence].
  - rewrite IH1 by done. apply IH2.
    + by rewrite <-Hperm1.
    + intros a b Ha Hb. apply Hone; by rewrite Hperm1.
Qed.

Lemma picks_or_pairs_order (k : string) (qb : QueryBuilder)
    (oo1 oo2 : list (string * list string)) :
  groups_apart qb →
  range_order (orFilters qb) oo1 → range_order (orFilters qb) oo2 →
  picks k (or_pairs oo1) = picks k (or_pairs oo2).
Proof.
  intros Hapart Hoo1 Hoo2. unfold or_pairs. rewrite !picks_bind.
  apply bind_one_contributor.
  - unfold range_order in *. by rewrite Hoo1, Hoo2.
  - unfold range_order in Hoo1. rewrite Hoo1. apply NoDup_map_to_list.
  - intros [g1 fs1] [g2 fs2] H1 H2 Hc1 Hc2. simpl in *.
    apply (range_order_elem_of _ _ _ _ Hoo1) in H1, H2.
    apply (not_iff_compat (picks_nil_iff k _)) in Hc1, Hc2.
    apply dec_stable in Hc1, Hc2.
    assert (g1 = g2) as -> by (by eapply Hapart).
    congruence.
Qed.

(** *** Plain group names keep the groups apart *)

Lemma Cut_Some (sep : ascii) (s before after : string) :
  strings.Cut sep s = Some (before, after) →
  s = before +:+ String sep after ∧ strings.has_byte sep before = false.
Proof.
  revert before. induction s as [|c s IH]; intros before; simpl; [done|].
  destruct (decide (c = sep)) as [->|Hne].
  - by intros [= <- <-].
  - destruct (strings.Cut sep s) as [[b a]|]; [|done].
    intros [= <- <-]. destruct (IH b eq_refl) as [-> Hb].
    split; [done|]. simpl. rewrite Hb. by rewrite bool_decide_eq_false_2.
Qed.

Lemma split_pair_Some (f k v : string) :
  split_pair f = Some (k, v) →
  f = k +:+ String "=" v ∧ strings.has_byte "=" k = false.
Proof.
  unfold split_pair, strings.SplitN2.
  destruct (strings.Cut "=" f) as [[b a]|] eqn:Hcut; [|done].
  intros [= <- <-]. by apply Cut_Some.
Qed.

(** A piece without [sep] at the start of a string is at the start of
    what comes before the first [sep]. *)
Lemma prefix_before_sep (sep : ascii) (p rest k v : string) :
  strings.has_byte sep p = false → strings.has_byte sep k = false →
  p +:+ rest = k +:+ String sep v → ∃ rest', k = p +:+ rest'.
Proof.
  revert k. induction p as [|c p IH]; intros k Hp Hk; [by exists k|].
  simpl in Hp. apply orb_false_iff in Hp as [Hc Hp].
  apply bool_decide_eq_false in Hc.
  destruct k as [|c' k]; rewrite !app_String, ?app_empty.
  - intros [= ? _]. done.
  - simpl in Hk. apply orb_false_iff in Hk as [_ Hk].
    intros [= <- Heq]. destruct (IH k Hp Hk Heq) as [rest' ->].
    by exists rest'.
Qed.

Lemma or_prefix_plain (g : string) :
  plain g → strings.has_byte "=" (or_prefix g) = false.
Proof.
  intros [Heq _]. unfold or_prefix. destruct (decide (g = "")); [done|].
  by rewrite !has_byte_app, Heq.
Qed.

Lemma or_prefix_inj (g1 g2 r1 r2 : string) :
  plain g1 → plain g2 →
  or_prefix g1 +:+ r1 = or_prefix g2 +:+ r2 → g1 = g2.
Proof.
  intros [_ H1] [_ H2]. unfold or_prefix.
  destruct (decide (g1 = "")) as [->|Hne1], (decide (g2 = "")) as [->|Hne2];
    [done| | |].
  - rewrite !app_String, !app_empty. intros Heq. discriminate Heq.
  - rewrite !app_String, !app_empty. intros Heq. discriminate Heq.
  - rewrite !app_assoc_string, !app_String, !app_empty. intros [= Heq].
    assert (Some (g1, r1) = Some (g2, r2)) as [= ? _]; [|done].
    rewrite <-(Cut_app "]" g1 r1), <-(Cut_app "]" g2 r2) by done.
    by rewrite Heq.
Qed.

Lemma well_grouped_key (qb : QueryBuilder) (g : string) (fs : list string)
    (key : string) :
  well_grouped qb → orFilters qb !! g = Some fs → key ∈ (group_pairs fs).*1 →
  plain g ∧ ∃ rest, key = or_prefix g +:+ rest.
Proof.
  intros Hwg Hg Hkey. destruct (Hwg g fs Hg) as [Hplain Hfs].
  split; [done|].
  apply list_elem_of_fmap in Hkey as ([k v] & -> & Hkv). simpl.
  unfold group_pairs in Hkv. apply list_elem_of_omap in Hkv as (f & Hf & Hsplit).
  destruct (Hfs f Hf) as [rest Hrest].
  apply split_pair_Some in Hsplit as [Heq Hk]. rewrite Hrest in Heq.
  by apply (prefix_before_sep "=" _ _ _ _ (or_prefix_plain g Hplain) Hk Heq).
Qed.

(** Conditions added under plain group names never share a parameter key
    across groups. *)
Lemma well_grouped_apart (qb : QueryBuilder) : well_grouped qb → groups_apart qb.
Proof.
  intros Hwg g1 g2 fs1 fs2 key Hg1 Hg2 Hk1 Hk2.
  destruct (well_grouped_key qb g1 fs1 key Hwg Hg1 Hk1) as [Hp1 [r1 Hr1]].
  destruct (well_grouped_key qb g2 fs2 key Hwg Hg2 Hk2) as [Hp2 [r2 Hr2]].
  apply (or_prefix_inj g1 g2 r1 r2 Hp1 Hp2). congruence.
Qed.

Lemma well_grouped_NewQuery : well_grouped NewQuery.
Proof. intros g fs Hg. simpl in Hg. by rewrite lookup_empty in Hg. Qed.

Lemma well_grouped_addCondition (ob : OrBuilder) (field operator : string)
    (value : Value) (qb : QueryBuilder) :
  plain (groupName ob) → well_grouped qb →
  well_grouped (addCondition ob field operator value qb).
Proof.
  intros Hplain Hwg g fs. unfold addCondition. simpl.
  rewrite lookup_insert_Some. intros [[<- <-]|[Hne Hg]]; [|by apply Hwg].
  split; [done|]. intros f Hf. apply elem_of_app in Hf as [Hf|Hf].
  - destruct (orFilters qb !! groupName ob) as [fs|] eqn:Hg; simpl in Hf.
    + by apply (Hwg _ _ Hg).
    + by apply elem_of_nil in Hf.
  - apply list_elem_of_singleton in Hf as ->. unfold or_prefix.
    destruct (decide (groupName ob = "")); eexists;
      rewrite ?app_assoc_string; reflexivity.
Qed.

Lemma well_grouped_same_orFilters (qb qb' : QueryBuilder) :
  orFilters qb' = orFilters qb → well_grouped qb → well_grouped qb'.
Proof. unfold well_grouped. by intros ->. Qed.

(** As stated, C2 fails: two OR groups whose conditions land under one
    parameter key are written in the order the map of groups is visited,
    and that order is not fixed. *)
Lemma Build_depends_on_group_order :
  let qb := Or_Where (OrGroup "tier=silver") "plan" (VString "free")
              (Or_Where (OrGroup "tier=gold") "plan" (VString "pro") NewQuery) in
  let s1 := "%5Bor%3Atier=gold%5Dplan%3Dpro&%5Bor%3Atier=silver%5Dplan%3Dfree" in
  let s2 := "%5Bor%3Atier=silver%5Dplan%3Dfree&%5Bor%3Atier=gold%5Dplan%3Dpro" in
  Build_returns qb s1 ∧ Build_returns qb s2 ∧ s1 ≠ s2.
Proof.
  split; [|split].
  - exists [], [("tier=gold", ["[or:tier=gold]plan=pro"]);
               ("tier=silver", ["[or:tier=silver]plan=free"])].
    split; [unfold range_order; vm_compute; reflexivity|].
    split; [|vm_compute; reflexivity].
    unfold range_order. vm_compute. first [reflexivity | apply perm_swap].
  - exists [], [("tier=silver", ["[or:tier=silver]plan=free"]);
               ("tier=gold", ["[or:tier=gold]plan=pro"])].
    split; [unfold range_order; vm_compute; reflexivity|].
    split; [|vm_compute; reflexivity].
    unfold range_order. vm_compute. first [reflexivity | apply perm_swap].
  - discriminate.
Qed.

(** C2 (amended): for every builder state in which no two OR groups hold
    a condition for the same parameter key, any two calls of [Build] on
    that state return the same string, whatever the order in which the
    two maps are visited. *)
Theorem Build_deterministic (qb : QueryBuilder) (s1 s2 : string) :
  groups_apart qb → Build_returns qb s1 → Build_returns qb s2 → s1 = s2.
Proof.
  intros Hapart (fo1 & oo1 & Hfo1 & Hoo1 & <-) (fo2 & oo2 & Hfo2 & Hoo2 & <-).
  unfold Build_in. simpl. f_equal. rewrite !Build_params_adds.
  apply adds_ext. intros k. unfold added_pairs. rewrite !picks_app.
  rewrite (picks_filters k _ _ Hfo1), (picks_filters k _ _ Hfo2).
  by rewrite (picks_or_pairs_order k qb oo1 oo2).
Qed.

Lemma Build_deterministic_witness :
  let qb := Or_Where (OrGroup "location") "country" (VString "US")
              (Or_Where (OrGroup "tier") "isPremium" (VBool true)
                 (Where "status" (VString "active") NewQuery)) in
  let tier := ("tier", ["[or:tier]isPremium=true"]) in
  let location := ("location", ["[or:location]country=US"]) in
  (Build_in [("status", "active")] [tier; location] qb).1 =
  (Build_in [("status", "active")] [location; tier] qb).1.
Proof.
  intros qb tier location.
  assert (range_order (filters qb) [("status", "active")]) as Hfo.
  { unfold range_order. vm_compute. reflexivity. }
  assert (groups_apart qb) as Hapart.
  { intros g1 g2 fs1 fs2 key H1 H2 Hk1 Hk2. simpl in H1, H2.
    apply lookup_insert_Some in H1 as [[<- <-]|[_ H1]];
      [|apply lookup_insert_Some in H1 as [[<- <-]|[_ H1]];
        [|by rewrite lookup_empty in H1]];
    (apply lookup_insert_Some in H2 as [[<- <-]|[_ H2]];
      [|apply lookup_insert_Some in H2 as [[<- <-]|[_ H2]];
        [|by rewrite lookup_empty in H2]]);
    try reflexivity; vm_compute in Hk1, Hk2;
    apply list_elem_of_singleton in Hk1; apply list_elem_of_singleton in Hk2;
    rewrite Hk1 in Hk2; discriminate Hk2. }
  apply (Build_deterministic qb _ _ Hapart).
  - exists [("status", "active")], [tier; location].
    split; [exact Hfo|]. split; [|reflexivity].
    unfold range_order. vm_compute. first [reflexivity | apply perm_swap].
  - exists [("status", "active")], [location; tier].
    split; [exact Hfo|]. split; [|reflexivity].
    unfold range_order. vm_compute. first [reflexivity | apply perm_swap].
Defined.

End query_claims.

(** ** The builder behind its pointer *)

Section heap_facts.
Import strings fmt url query heap.

Lemma load_old (h : Heap) (o o' : Object) (l : loc) :
  h !! l = Some o → load l (h ++ [o']) = Some (o, h ++ [o']).
Proof.
  intros Hl. unfold load. by rewrite (lookup_app_l_Some _ _ _ _ Hl).
Qed.

Lemma load_struct_Some (h h' : Heap) (qb : loc) (b : Struct) :
  load_struct qb h = Some (b, h') ↔ h !! qb = Some (OStruct b) ∧ h' = h.
Proof.
  unfold load_struct, load, mbind, Exec_bind, mret, Exec_ret, panic.
  destruct (h !! qb) as [[b'|m|m]|]; split; try (by intros [? ?]); try done.
  - by intros [= -> ->].
  - by intros [[= ->] ->].
Qed.

Lemma load_struct_old (h : Heap) (o : Object) (qb : loc) (b : Struct) :
  h !! qb = Some (OStruct b) → load_struct qb (h ++ [o]) = Some (b, h ++ [o]).
Proof.
  intros Hqb. apply load_struct_Some. split; [|done].
  by apply lookup_app_l_Some.
Qed.

Lemma load_filters_frame (h h' : Heap) (m : option loc) (fm : gmap string string) :
  load_filters m h = Some (fm, h') → h' = h.
Proof.
  unfold load_filters, load, mbind, Exec_bind, mret, Exec_ret, panic.
  destruct m as [l|]; [|by intros [= _ <-]].
  destruct (h !! l) as [[b'|m|m]|]; try done; by intros [= _ <-].
Qed.

Lemma load_values_frame (h h' : Heap) (m : option loc) (om : Values) :
  load_values m h = Some (om, h') → h' = h.
Proof.
  unfold load_values, load, mbind, Exec_bind, mret, Exec_ret, panic.
  destruct m as [l|]; [|by intros [= _ <-]].
  destruct (h !! l) as [[b'|m|m]|]; try done; by intros [= _ <-].
Qed.

Lemma load_filters_old (h h' : Heap) (o : Object) (m : option loc)
    (fm : gmap string string) :
  load_filters m h = Some (fm, h') →
  load_filters m (h ++ [o]) = Some (fm, h ++ [o]).
Proof.
  unfold load_filters, load, mbind, Exec_bind, mret, Exec_ret, panic.
  destruct m as [l|]; [|by intros [= <- _]].
  destruct (h !! l) as [x|] eqn:Hl; [|done].
  rewrite (lookup_app_l_Some _ _ _ _ Hl). destruct x; try done.
  all: by intros [= <- _].
Qed.

Lemma load_values_old (h h' : Heap) (o : Object) (m : option loc) (om : Values) :
  load_values m h = Some (om, h') →
  load_values m (h ++ [o]) = Some (om, h ++ [o]).
Proof.
  unfold load_values, load, mbind, Exec_bind, mret, Exec_ret, panic.
  destruct m as [l|]; [|by intros [= <- _]].
  destruct (h !! l) as [x|] eqn:Hl; [|done].
  rewrite (lookup_app_l_Some _ _ _ _ Hl). destruct x; try done.
  all: by intros [= <- _].
Qed.

(** [Add] on the map allocated last writes to that map only. *)
Lemma Values_Add_last (h : Heap) (m : Values) (key value : string) :
  Values_Add (length h) key value (h ++ [OValues m])
  = Some (tt, h ++ [OValues (Add key value m)]).
Proof.
  unfold Values_Add, load_values, load, store, mbind, Exec_bind, mret, Exec_ret.
  rewrite lookup_app_r, Nat.sub_diag by lia. simpl.
  do 2 f_equal. rewrite insert_app_r_alt, Nat.sub_diag by lia. done.
Qed.

Lemma for_each_filters (h : Heap) (fo : list (string * string)) (m : Values) :
  for_each fo (fun kv => Values_Add (length h) kv.1 kv.2) (h ++ [OValues m])
  = Some (tt, h ++ [OValues (add_filters fo m)]).
Proof.
  revert m. induction fo as [|[k v] fo IH]; intros m; [done|].
  simpl. unfold mbind, Exec_bind. rewrite Values_Add_last. apply IH.
Qed.

Lemma for_each_group (h : Heap) (fs : list string) (m : Values) :
  for_each fs (fun filter =>
                 match SplitN2 filter "=" with
                 | [p0; p1] => Values_Add (length h) p0 p1
                 | _ => mret tt
                 end) (h ++ [OValues m])
  = Some (tt, h ++ [OValues (foldl add_or_filter m fs)]).
Proof.
  revert m. induction fs as [|f fs IH]; intros m; [done|].
  simpl. unfold mbind, Exec_bind. rewrite <-IH. unfold add_or_filter.
  destruct (SplitN2 f "=") as [|p0 [|p1 [|p2 l]]]; try done.
  by rewrite Values_Add_last.
Qed.

Lemma for_each_or_filters (h : Heap) (oo : list (string * list string))
    (m : Values) :
  for_each oo (fun g =>
    for_each g.2 (fun filter =>
                    match SplitN2 filter "=" with
                    | [p0; p1] => Values_Add (length h) p0 p1
                    | _ => mret tt
                    end)) (h ++ [OValues m])
  = Some (tt, h ++ [OValues (add_or_filters oo m)]).
Proof.
  revert m. induction oo as [|g oo IH]; intros m; [done|].
  simpl. unfold mbind, Exec_bind. rewrite for_each_group. apply IH.
Qed.

(** [Build] run on a heap in which [qb] points to a builder: the string
    is the one of [Build_in], and the heap has one more object, the
    [url.Values] that was filled. *)
Lemma Build_at_run (order_f : gmap string string → list (string * string))
    (order_o : gmap string (list string) → list (string * list string))
    (h : Heap) (qb : loc) (b : QueryBuilder) :
  view h qb = Some b →
  Build_at order_f order_o qb h
  = Some ((Build_in (order_f (filters b)) (order_o (orFilters b)) b).1,
          h ++ [OValues (Build_params (order_f (filters b))
                                      (order_o (orFilters b)) b)]).
Proof.
  unfold view. destruct (load_struct qb h) as [[st h0]|] eqn:Hst; [|done].
  apply load_struct_Some in Hst as [Hqb ->].
  destruct (load_filters (f_filters st) h) as [[fm h1]|] eqn:Hf; [|done].
  destruct (load_values (f_orFilters st) h) as [[om h2]|] eqn:Ho; [|done].
  intros [= <-]. simpl.
  unfold Build_at, alloc, mbind, Exec_bind.
  rewrite !(load_struct_old _ _ _ _ Hqb).
  rewrite (load_filters_old _ _ _ _ _ Hf), for_each_filters.
  rewrite !(load_struct_old _ _ _ _ Hqb).
  rewrite (load_values_old _ _ _ _ _ Ho), for_each_or_filters.
  rewrite !(load_struct_old _ _ _ _ Hqb).
  unfold Build_params, add_pagination, add_sorting. simpl.
  set (m0 := add_or_filters _ _).
  destruct (0 <? f_limit st); unfold mret, Exec_ret;
    rewrite ?Values_Add_last, (load_struct_old _ _ _ _ Hqb); cbv beta iota;
    (destruct (0 <? f_offset st);
     rewrite ?Values_Add_last, (load_struct_old _ _ _ _ Hqb); cbv beta iota;
     (destruct (decide (f_sort st ≠ ""));
      [rewrite Values_Add_last, (load_struct_old _ _ _ _ Hqb); cbv beta iota;
       destruct (decide (f_order st ≠ "")); rewrite ?Values_Add_last|];
      unfold load, mbind, Exec_bind;
      by rewrite lookup_app_r, Nat.sub_diag by lia)).
Qed.

(** An object allocated later does not change what a pointer stands
    for. *)
Lemma view_old (h : Heap) (o : Object) (qb : loc) (b : QueryBuilder) :
  view h qb = Some b → view (h ++ [o]) qb = Some b.
Proof.
  unfold view. destruct (load_struct qb h) as [[st h0]|] eqn:Hst; [|done].
  apply load_struct_Some in Hst as [Hqb ->].
  destruct (load_filters (f_filters st) h) as [[fm h1]|] eqn:Hf; [|done].
  destruct (load_values (f_orFilters st) h) as [[om h2]|] eqn:Ho; [|done].
  intros [= <-].
  rewrite (load_struct_old _ _ _ _ Hqb), (load_filters_old _ _ _ _ _ Hf),
    (load_values_old _ _ _ _ _ Ho). done.
Qed.

(** [Where] on the heap is [Where] on the builder the pointer stands for;
    it panics exactly on a nil filter map. *)
Lemma Where_at_observe (field : string) (value : Value) (h : Heap) (qb : loc)
    (st : Struct) (b : QueryBuilder) :
  h !! qb = Some (OStruct st) → view h qb = Some b →
  observe (Where_at field value qb) qb h
  = match f_filters st with
    | Some _ => Some (qb, Where field value b)
    | None => None
    end.
Proof.
  intros Hqb. unfold view, observe, Where_at, mbind, Exec_bind.
  rewrite (proj2 (load_struct_Some h h qb st)) by done.
  destruct (f_filters st) as [lf|] eqn:Hlf; [|done].
  unfold load_filters, load_values, load, store, mbind, Exec_bind, mret,
    Exec_ret, panic.
  destruct (h !! lf) as [[b'|fm|m]|] eqn:Hf; try done.
  assert (qb ≠ lf) as Hne by (intros ->; congruence).
  assert (lf < length h)%nat as Hlt by (by eapply lookup_lt_Some).
  destruct (f_orFilters st) as [lo|] eqn:Hlo.
  - destruct (h !! lo) as [[b'|m|om]|] eqn:Ho; try done.
    intros [= <-].
    assert (lo ≠ lf) as Hne' by (intros ->; congruence).
    unfold view, load_struct, load_filters, load_values, load, mbind,
      Exec_bind, mret, Exec_ret.
    rewrite list_lookup_insert_ne, Hqb by done. simpl. rewrite Hlf, Hlo.
    rewrite list_lookup_insert_eq by done.
    rewrite list_lookup_insert_ne, Ho by done. done.
  - intros [= <-].
    unfold view, load_struct, load_filters, load_values, load, mbind,
      Exec_bind, mret, Exec_ret.
    rewrite list_lookup_insert_ne, Hqb by done. simpl. rewrite Hlf, Hlo.
    rewrite list_lookup_insert_eq by done. done.
Qed.

(** [Limit] on the heap is [Limit] on the builder the pointer stands
    for. *)
Lemma Limit_at_observe (n : Z) (h : Heap) (qb : loc) (b : QueryBuilder) :
  view h qb = Some b →
  observe (Limit_at n qb) qb h = Some (qb, Limit n b).
Proof.
  unfold view. destruct (load_struct qb h) as [[st h0]|] eqn:Hst; [|done].
  apply load_struct_Some in Hst as [Hqb ->].
  assert (qb < length h)%nat as Hlt by (by eapply lookup_lt_Some).
  unfold observe, Limit_at, mbind, Exec_bind.
  rewrite (proj2 (load_struct_Some h h qb st)) by done.
  unfold load_filters, load_values, load, store, mbind, Exec_bind, mret,
    Exec_ret, panic.
  unfold view, load_struct, load_filters, load_values, load, mbind,
      Exec_bind, mret, Exec_ret.
  rewrite list_lookup_insert_eq by done. simpl.
  destruct (f_filters st) as [lf|] eqn:Hlf;
    destruct (f_orFilters st) as [lo|] eqn:Hlo.
  - destruct (h !! lf) as [[b'|fm|m]|] eqn:Hf; try done.
    destruct (h !! lo) as [[b'|m|om]|] eqn:Ho; try done.
    intros [= <-].
    rewrite !list_lookup_insert_ne, Hf, Ho by (intros ->; congruence). done.
  - destruct (h !! lf) as [[b'|fm|m]|] eqn:Hf; try done.
    intros [= <-].
    rewrite !list_lookup_insert_ne, Hf by (intros ->; congruence). done.
  - destruct (h !! lo) as [[b'|m|om]|] eqn:Ho; try done.
    intros [= <-].
    rewrite !list_lookup_insert_ne, Ho by (intros ->; congruence). done.
  - by intros [= <-].
Qed.

(** C3: [Build] is a pure observer of the builder.  Run on any heap in
    which [qb] points to a builder, whatever the order in which its two
    loops visit the maps, [Build] returns, and every object that was on
    the heap before the call, the builder's struct and its two maps among
    them, is on the heap unchanged afterwards: all of [Build]'s writes go
    to the [url.Values] it allocated.  So [qb] stands for the same
    builder, field by field, and a later [Build], [Where] or [Limit]
    gives the caller what it would have given without the call. *)
Theorem Build_leaves_builder_unchanged
    (order_f : gmap string string → list (string * string))
    (order_o : gmap string (list string) → list (string * list string))
    (h : Heap) (qb : loc) (b : QueryBuilder) :
  view h qb = Some b →
  ∃ s h',
    Build_at order_f order_o qb h = Some (s, h') ∧
    s = (Build_in (order_f (filters b)) (order_o (orFilters b)) b).1 ∧
    (∀ l o, h !! l = Some o → h' !! l = Some o) ∧
    view h' qb = Some b ∧
    (∀ order_f' order_o',
       observe (Build_at order_f' order_o' qb) qb h'
       = observe (Build_at order_f' order_o' qb) qb h) ∧
    (∀ field value,
       observe (Where_at field value qb) qb h'
       = observe (Where_at field value qb) qb h) ∧
    (∀ n, observe (Limit_at n qb) qb h' = observe (Limit_at n qb) qb h).
Proof.
  intros Hview. eexists _, _. split; [by apply Build_at_run|].
  split; [done|].
  set (h' := h ++ _).
  assert (view h' qb = Some b) as Hview' by (by apply view_old).
  split; [intros l o Hl; by apply lookup_app_l_Some|].
  split; [done|]. split; [|split].
  - intros order_f' order_o'. unfold observe.
    rewrite (Build_at_run _ _ _ _ _ Hview), (Build_at_run _ _ _ _ _ Hview').
    by rewrite !(view_old _ _ _ _ Hview), (view_old _ _ _ _ Hview').
  - intros field value.
    assert (∃ st, h !! qb = Some (OStruct st)) as [st Hqb].
    { unfold view in Hview.
      destruct (load_struct qb h) as [[st h0]|] eqn:Hst; [|done].
      apply load_struct_Some in Hst as [Hqb _]. by exists st. }
    rewrite (Where_at_observe _ _ _ _ st b), (Where_at_observe _ _ _ _ st b);
      try done.
    by apply lookup_app_l_Some.
  - intros n. by rewrite !(Limit_at_observe _ _ _ b).
Qed.

Lemma Build_leaves_builder_unchanged_witness :
  ∃ s h',
    Build_at map_to_list map_to_list heap.a_builder.1 heap.a_builder.2
      = Some (s, h') ∧
    s = "limit=10&status=active" ∧
    view h' heap.a_builder.1
      = Some (Limit 10 (Where "status" (VString "active") NewQuery)).
Proof.
  destruct (Build_leaves_builder_unchanged map_to_list map_to_list
              heap.a_builder.2 heap.a_builder.1
              (Limit 10 (Where "status" (VString "active") NewQuery)))
    as (s & h' & Hrun & Hs & _ & Hview & _); [vm_compute; reflexivity|].
  exists s, h'. split; [exact Hrun|]. split; [|exact Hview].
  rewrite Hs. vm_compute. reflexivity.
Defined.

End heap_facts.

(** ** The client: token state, request signing, error responses *)

Section client_claims.
Import errors http types client.
Context {S : Type} `{!Storage S}.
Variable json_Marshal : JSON → string * option error.
Variable json_Marshal_user : AppUser → string.
Variable json_Decode_user : Reader → AppUser * option error.
Variable NewRequest_err : string → string → option error.
Variable roundTrip : list Request → Request → Response + error.

Local Abbreviation build_request := (build_request json_Marshal NewRequest_err).
Local Abbreviation request := (request json_Marshal NewRequest_err roundTrip).
Local Abbreviation GetCurrentUser :=
  (GetCurrentUser json_Marshal json_Marshal_user json_Decode_user
                  NewRequest_err roundTrip).
Local Abbreviation UpdateUser :=
  (UpdateUser json_Marshal json_Marshal_user json_Decode_user
              NewRequest_err roundTrip).

(** A call on the storage touches the storage only. *)
Lemma with_storage_frame {A} (dflt : A) (op : S → A * S) (w : World S) :
  let w' := (with_storage dflt op w).2 in
  baseURL (self w') = baseURL (self w) ∧ apiKey (self w') = apiKey (self w) ∧
  token (self w') = token (self w) ∧ user (self w') = user (self w) ∧
  sent w' = sent w.
Proof.
  unfold with_storage, mbind, Call_bind, get_self, put_self, mret, Call_ret.
  simpl. destruct (storage (self w)) as [st|]; [|done].
  destruct (op st) as [a st']. done.
Qed.

Lemma SetToken_token (t : string) (w : World S) :
  token (self (SetToken t w).2) = t.
Proof.
  unfold SetToken, set_token, mbind, Call_bind, get_self, put_self, mret, Call_ret.
  simpl. destruct (decide (storage (self w) ≠ None)); [|done].
  match goal with |- context [with_storage ?d ?op ?w0] =>
    destruct (with_storage_frame d op w0) as (_ & _ & -> & _) end.
  done.
Qed.

Lemma Logout_state (w : World S) :
  token (self (Logout w).2) = "" ∧ user (self (Logout w).2) = None.
Proof.
  unfold Logout, set_token, set_user, mbind, Call_bind, get_self, put_self,
    mret, Call_ret.
  simpl. destruct (decide (storage (self w) ≠ None)); [|done].
  match goal with |- context [with_storage ?d ?op ?w0] =>
    destruct (with_storage_frame d op w0) as (_ & _ & -> & -> & _) end.
  done.
Qed.

(** Reading the token or the authentication state changes nothing. *)
Lemma GetToken_read (w : World S) : GetToken w = (token (self w), w).
Proof. reflexivity. Qed.

Lemma IsAuthenticated_read (w : World S) :
  IsAuthenticated w = (bool_decide (token (self w) ≠ ""), w).
Proof. reflexivity. Qed.

(** C5: the client is authenticated exactly when its token is not empty;
    [GetToken] after [SetToken(t)] gives [t]; after [Logout] the token is
    empty, the cached user is nil and the client is not authenticated,
    whatever the storage answers. *)
Theorem authentication_is_token_presence (w : World S) (t : string) :
  ((IsAuthenticated w).1 = true ↔ (GetToken w).1 ≠ "") ∧
  (GetToken (SetToken t w).2).1 = t ∧
  (GetToken (Logout w).2).1 = "" ∧
  user (self (Logout w).2) = None ∧
  (IsAuthenticated (Logout w).2).1 = false.
Proof.
  rewrite !GetToken_read, !IsAuthenticated_read. simpl.
  destruct (Logout_state w) as [Htoken Huser].
  rewrite SetToken_token, Htoken, Huser.
  split; [apply bool_decide_eq_true|]. done.
Qed.

Lemma has_header_Set (k v : string) (h : Header) : has_header (Header_Set k v h) k.
Proof. unfold has_header, Header_Set. rewrite lookup_insert_eq. by eexists. Qed.

Lemma Header_Values_Set (k v : string) (h : Header) :
  Header_Values (Header_Set k v h) k = [v].
Proof. unfold Header_Values, Header_Set. by rewrite lookup_insert_eq. Qed.

Lemma lookup_Header_Set_ne (k k' v : string) (h : Header) :
  CanonicalMIMEHeaderKey k ≠ CanonicalMIMEHeaderKey k' →
  Header_Set k v h !! CanonicalMIMEHeaderKey k' = h !! CanonicalMIMEHeaderKey k'.
Proof. intros Hne. unfold Header_Set. by rewrite lookup_insert_ne. Qed.

Lemma build_request_Some (method path : string) (body : option JSON)
    (useDataKey : bool) (w : World S) (req : Request) :
  (build_request method path body useDataKey w).1 = (Some req, None) →
  req_URL req = baseURL (self w) +:+ path ∧
  req_Header req = signed_headers (apiKey (self w)) (token (self w)) ∧
  req_Method req = (if decide (method = "") then "GET" else method).
Proof.
  unfold client.build_request, mbind, Call_bind, get_self, GetToken, mret, Call_ret.
  simpl.
  destruct body as [b|]; simpl.
  - destruct (json_Marshal _) as [jsonData [err|]]; simpl; [done|].
    destruct (NewRequest_err _ _); simpl; [done|].
    intros [= <-]. done.
  - destruct (NewRequest_err _ _); simpl; [done|].
    intros [= <-]. done.
Qed.

Lemma build_request_world (method path : string) (body : option JSON)
    (useDataKey : bool) (w : World S) :
  (build_request method path body useDataKey w).2 = w.
Proof.
  unfold client.build_request, mbind, Call_bind, get_self, GetToken, mret, Call_ret.
  simpl.
  destruct body as [b|]; simpl.
  - destruct (json_Marshal _) as [jsonData [err|]]; simpl; [done|].
    by destruct (NewRequest_err _ _).
  - by destruct (NewRequest_err _ _).
Qed.

Lemma canonical_keys :
  CanonicalMIMEHeaderKey "Content-Type" = "Content-Type" ∧
  CanonicalMIMEHeaderKey "x-api-key" = "X-Api-Key" ∧
  CanonicalMIMEHeaderKey "Authorization" = "Authorization".
Proof. vm_compute. repeat split; reflexivity. Qed.

Lemma signed_headers_signed (c : Client S) (path : string) (req : Request) :
  req_URL req = baseURL c +:+ path →
  req_Header req = signed_headers (apiKey c) (token c) →
  signed c path req.
Proof.
  intros Hurl Hh. unfold signed. rewrite Hurl, Hh. clear Hurl Hh.
  destruct canonical_keys as (Hct & Hak & Hau).
  unfold signed_headers, has_header, Header_Values, Header_Set.
  unfold HeaderAPIKey, HeaderAuthorization, ContentTypeJSON in *.
  rewrite Hct, Hak, Hau. clear Hct Hak Hau.
  destruct (decide (apiKey c ≠ "")) as [Hk|Hk],
           (decide (token c ≠ "")) as [Ht|Ht].
  all: rewrite ?lookup_insert_eq.
  all: rewrite ?lookup_insert_ne by discriminate.
  all: rewrite ?lookup_insert_eq.
  all: rewrite ?lookup_insert_ne by discriminate.
  all: rewrite ?lookup_insert_eq, ?lookup_empty.
  all: simpl.
  all: repeat split; try done.
  all: try (intros _; by eexists).
  all: try (by intros [? ?]).
Qed.

(** What [request] does to the world: at most one request goes out, the
    one [build_request] made, and the client is not touched. *)
Lemma request_sent (method path : string) (body : option JSON)
    (useDataKey : bool) (w : World S) :
  let w' := (request method path body useDataKey w).2 in
  self w' = self w ∧
  match (build_request method path body useDataKey w).1 with
  | (Some req, None) => sent w' = sent w ++ [req]
  | _ => sent w' = sent w
  end.
Proof.
  unfold client.request, mbind, Call_bind. simpl.
  pose proof (build_request_world method path body useDataKey w) as Hw.
  destruct (build_request method path body useDataKey w) as [[req err] w0].
  simpl in *. subst w0.
  destruct req as [req|], err as [err|]; try done.
  unfold Do, mret, Call_ret. simpl.
  destruct (roundTrip (sent w) req) as [resp|err]; [|done].
  destruct (400 <=? resp_StatusCode resp); done.
Qed.

(** C6: every request that [request] hands to the HTTP client targets
    baseURL+path, carries Content-Type application/json, carries x-api-key
    (with the API key as its value) exactly when the API key is not empty,
    and carries Authorization (with "Bearer " and the token as its value)
    exactly when the stored token is not empty. *)
Theorem request_is_signed (method path : string) (body : option JSON)
    (useDataKey : bool) (w : World S) :
  ∃ out, sent (request method path body useDataKey w).2 = sent w ++ out ∧
         (length out ≤ 1)%nat ∧
         ∀ req, req ∈ out → signed (self w) path req.
Proof.
  destruct (request_sent method path body useDataKey w) as [_ Hsent].
  destruct ((build_request method path body useDataKey w).1) as [[req|] [err|]] eqn:Hb;
    try (exists []; rewrite app_nil_r; split; [done|]; split; [simpl; lia|];
         intros ? Hin; by apply elem_of_nil in Hin).
  exists [req]. split; [done|]. split; [simpl; lia|].
  intros req' Hin. apply list_elem_of_singleton in Hin as ->.
  apply build_request_Some in Hb as (Hurl & Hh & _).
  by apply signed_headers_signed.
Qed.

(** C8: when the transport answers with a status of 400 or more,
    [request] returns no response and an [*APIError] holding the status,
    the method, the full URL, the body read from the response and the
    suggestion for that status and method; below 400 it returns the
    response and no error.  The suggestion is a fixed string for 401, 403,
    404 and 429, names the method for 405, and is the default string for
    every other status. *)
Theorem request_error_mapping (method path : string) (body : option JSON)
    (useDataKey : bool) (w : World S) (req : Request) (resp : Response) :
  (build_request method path body useDataKey w).1 = (Some req, None) →
  roundTrip (sent w) req = inl resp →
  (400 ≤ resp_StatusCode resp →
     (request method path body useDataKey w).1 =
       (None, Some (apiError
          {| StatusCode := resp_StatusCode resp;
             Method := method;
             URL := baseURL (self w) +:+ path;
             Body := content (resp_Body resp);
             Suggestion := getErrorSuggestion (resp_StatusCode resp) method |}))) ∧
  (resp_StatusCode resp < 400 →
     (request method path body useDataKey w).1 = (Some resp, None)) ∧
  req_URL req = baseURL (self w) +:+ path ∧
  getErrorSuggestion 401 method
    = "Check if your API key is valid and properly set" ∧
  getErrorSuggestion 403 method
    = "You don't have permission to perform this action. Verify your access rights" ∧
  getErrorSuggestion 404 method
    = "The requested resource was not found. Verify the path and ID are correct" ∧
  getErrorSuggestion 405 method
    = "The " +:+ method +:+ " method is not allowed for this endpoint. Check the API documentation for supported methods" ∧
  getErrorSuggestion 429 method
    = "You've exceeded the rate limit. Please wait before making more requests" ∧
  (∀ status, status ∉ [401; 403; 404; 405; 429] →
     getErrorSuggestion status method
       = "Check the API documentation and verify your request format").
Proof.
  intros Hb Hrt.
  pose proof (build_request_world method path body useDataKey w) as Hw.
  pose proof (build_request_Some _ _ _ _ _ _ Hb) as (Hurl & _ & _).
  assert (∀ r, (request method path body useDataKey w).1 = r ↔
               (if 400 <=? resp_StatusCode resp
                then (None, Some (apiError
                       (mkAPIError (resp_StatusCode resp) method
                          (baseURL (self w) +:+ path) (content (resp_Body resp))
                          (getErrorSuggestion (resp_StatusCode resp) method))))
                else (Some resp, None)) = r) as Hreq.
  { intros r. unfold client.request, mbind, Call_bind.
    destruct (build_request method path body useDataKey w) as [[req0 err0] w0].
    simpl in Hb, Hw. injection Hb as -> ->. subst w0.
    unfold Do, mret, Call_ret. simpl. rewrite Hrt, Hurl.
    by destruct (400 <=? resp_StatusCode resp). }
  split; [|split; [|split; [done|]]].
  - intros Hge. apply Hreq. apply Z.leb_le in Hge. by rewrite Hge.
  - intros Hlt. apply Hreq. apply Z.leb_gt in Hlt. by rewrite Hlt.
  - repeat split; try reflexivity.
    intros status Hstatus. unfold getErrorSuggestion.
    repeat (apply not_elem_of_cons in Hstatus as [? Hstatus]).
    destruct status as [|p|p]; try reflexivity.
    repeat (destruct p as [p|p|]; try reflexivity); done.
Qed.

(** C9: a client without a token gets, from [GetCurrentUser] and from
    [UpdateUser], a nil user and the error "user is not authenticated",
    and the world is as before: no request has gone out, and the token,
    the cached user and the storage are what they were. *)
Theorem unauthenticated_calls_rejected (w : World S)
    (data : option (gmap string JSON)) (email password : option string) :
  (IsAuthenticated w).1 = false →
  GetCurrentUser w = ((None, Some (errorString "user is not authenticated")), w) ∧
  UpdateUser data email password w
    = ((None, Some (errorString "user is not authenticated")), w).
Proof.
  rewrite IsAuthenticated_read. simpl. intros Hauth.
  unfold client.GetCurrentUser, client.UpdateUser, mbind, Call_bind.
  rewrite !IsAuthenticated_read, Hauth. done.
Qed.

End client_claims.

(** ** The realtime connection *)

Section realtime_claims.
Import errors types realtime.

Lemma WatchCollection_fresh (baseURL collection name : string)
    (dial write : option error) (w : Watch) (err : option error) :
  WatchCollection baseURL collection name dial write = (Some w, err) → fresh w.
Proof.
  unfold WatchCollection. destruct dial, write; intros Heq; simplify_eq.
  done.
Qed.

Lemma fresh_consistent (w : Watch) : fresh w → consistent w.
Proof.
  intros (Hl & Hr & Hc & Hcl & Hws). unfold consistent.
  rewrite Hl, Hr, Hc, Hws. repeat split; (done || lia).
Qed.

Lemma decoded_snoc (rs : list (Event + error)) (r : Event + error) :
  decoded (rs ++ [r]) =
    decoded rs ++ match r with inl e => [e] | inr _ => [] end.
Proof. unfold decoded. rewrite omap_app. by destruct r. Qed.

Lemma read_failed_snoc (rs : list (Event + error)) (r : Event + error) :
  read_failed (rs ++ [r]) =
    read_failed rs || match r with inl _ => false | inr _ => true end.
Proof.
  unfold read_failed. rewrite existsb_app. simpl. by rewrite orb_false_r.
Qed.

Lemma step_consistent (w w' : Watch) (a : Action) (o : Output) :
  consistent w → step w a = Some (w', o) → consistent w'.
Proof.
  intros (Hcalls & Hleft & Hret & Hws & Hws1).
  destruct w as [[[url n] nm cl] l rs cs]. simpl in *.
  unfold consistent, step.
  destruct a as [[e|err]| | |ws_result|], l as [|e'| |], cl; simpl;
    intros Heq; simplify_eq; simpl in *;
    rewrite ?decoded_snoc, ?read_failed_snoc, ?app_nil_r in *;
    rewrite <-?Hleft, <-?Hcalls, ?orb_false_r, ?orb_true_r;
    repeat split; try done; try lia; try (by rewrite <-app_assoc);
    try (intros; apply Hws1; lia); auto.
  all: try (by simplify_eq).
Qed.

Lemma step_reads (w w' : Watch) (a : Action) (o : Output) :
  step w a = Some (w', o) → reads w' = reads w ++ reads_of [a].
Proof.
  destruct w as [[[url n] nm cl] l rs cs]. unfold step. simpl.
  destruct a as [[e|err]| | |ws_result|], l as [|e'| |], cl; simpl;
    intros Heq; simplify_eq; simpl; by rewrite ?app_nil_r.
Qed.

(** Nothing sets the flag back: a step from a closed connection leaves it
    closed, does not touch the websocket, and [IsClosed] answers true. *)
Lemma step_closed (w w' : Watch) (a : Action) (o : Output) :
  closed (connection w) = true → step w a = Some (w', o) →
  closed (connection w') = true ∧
  conn (connection w') = conn (connection w) ∧
  o ≠ IsClosedResult false ∧ (∀ err, o = CloseResult err → err = None).
Proof.
  destruct w as [[[url n] nm cl] l rs cs]. unfold step. simpl. intros ->.
  destruct a as [[e|err]| | |ws_result|], l as [|e'| |]; simpl;
    intros Heq; simplify_eq; simpl; repeat split; try done;
    by intros ? [= <-].
Qed.

Lemma run_consistent (w w' : Watch) (actions : list Action) (outs : list Output) :
  consistent w → run w actions = Some (w', outs) →
  consistent w' ∧ reads w' = reads w ++ reads_of actions.
Proof.
  revert w outs. induction actions as [|a actions IH]; intros w outs Hw; simpl.
  - intros [= <- <-]. by rewrite app_nil_r.
  - destruct (step w a) as [[w1 o]|] eqn:Hstep; [|done].
    destruct (run w1 actions) as [[w2 os]|] eqn:Hrun; [|done].
    intros [= <- <-].
    destruct (IH w1 os (step_consistent _ _ _ _ Hw Hstep) Hrun) as [Hc Hr].
    split; [done|]. rewrite Hr, (step_reads _ _ _ _ Hstep).
    rewrite <-app_assoc. f_equal. unfold reads_of. simpl.
    by destruct a.
Qed.

Lemma run_closed (w w' : Watch) (actions : list Action) (outs : list Output) :
  closed (connection w) = true → run w actions = Some (w', outs) →
  closed (connection w') = true ∧
  conn (connection w') = conn (connection w) ∧
  IsClosedResult false ∉ outs.
Proof.
  revert w outs. induction actions as [|a actions IH]; intros w outs Hw; simpl.
  - intros [= <- <-]. repeat split; try done. apply not_elem_of_nil.
  - destruct (step w a) as [[w1 o]|] eqn:Hstep; [|done].
    destruct (run w1 actions) as [[w2 os]|] eqn:Hrun; [|done].
    intros [= <- <-].
    destruct (step_closed _ _ _ _ Hw Hstep) as (Hc1 & Hconn1 & Ho & _).
    destruct (IH w1 os Hc1 Hrun) as (Hc2 & Hconn2 & Hos).
    split; [done|]. split; [congruence|].
    apply not_elem_of_cons. split; [congruence | done].
Qed.


(** C10: [Close] on a closed connection returns nil and changes nothing,
    so a second [Close] leaves the connection as the first one left it;
    and over the whole life of a subscription the websocket's own [Close]
    is reached at most once. *)
Theorem Close_idempotent (c : Connection) (r1 r2 : option error)
    (w0 w : Watch) (actions : list Action) (outs : list Output) :
  (closed c = true → Close r1 c = (None, c)) ∧
  Close r2 (Close r1 c).2 = (None, (Close r1 c).2) ∧
  closed (Close r1 c).2 = true ∧
  (fresh w0 → run w0 actions = Some (w, outs) →
     (ws_closes (conn (connection w)) ≤ 1)%nat).
Proof.
  split; [|split; [|split]].
  - intros Hc. unfold Close. by rewrite Hc.
  - unfold Close. by destruct (closed c) eqn:Hc; simpl; rewrite ?Hc.
  - unfold Close. by destruct (closed c) eqn:Hc.
  - intros Hfresh Hrun.
    by destruct (run_consistent _ _ _ _ (fresh_consistent _ Hfresh) Hrun)
      as ((_ & _ & _ & Hws & _) & _).
Qed.

End realtime_claims.

(** ** The claims on the fixtures *)

Section instances.
Import errors http types memory client realtime.

Lemma request_is_signed_witness :
  signed (self fixtures.logged_in) "/auth-collections/user" fixtures.get_user.
Proof.
  destruct (request_is_signed fixtures.json_Marshal fixtures.NewRequest_err
              fixtures.not_found "GET" "/auth-collections/user" None true
              fixtures.logged_in) as (out & Hsent & _ & Hsigned).
  apply Hsigned.
  change (sent fixtures.logged_in ++ out) with out in Hsent.
  rewrite <-Hsent. vm_compute. left.
Defined.

Lemma request_error_mapping_witness :
  (request fixtures.json_Marshal fixtures.NewRequest_err fixtures.not_found
           "GET" "/auth-collections/user" None true fixtures.logged_in).1
  = (None, Some (apiError
       {| StatusCode := 404;
          Method := "GET";
          URL := "https://api.cocobase.com/auth-collections/user";
          Body := "not found";
          Suggestion := "The requested resource was not found. Verify the path and ID are correct" |})).
Proof.
  refine (proj1 (request_error_mapping fixtures.json_Marshal
            fixtures.NewRequest_err fixtures.not_found
            "GET" "/auth-collections/user" None true fixtures.logged_in
            fixtures.get_user
            (mkResponse 404 (mkReader "not found" None)) _ _) _).
  - vm_compute. reflexivity.
  - reflexivity.
  - simpl. lia.
Defined.

Lemma unauthenticated_calls_rejected_witness :
  GetCurrentUser fixtures.json_Marshal fixtures.json_Marshal_user
                 fixtures.json_Decode_user fixtures.NewRequest_err
                 fixtures.not_found fixtures.logged_out
  = ((None, Some (errorString "user is not authenticated")), fixtures.logged_out).
Proof.
  refine (proj1 (unauthenticated_calls_rejected fixtures.json_Marshal
            fixtures.json_Marshal_user fixtures.json_Decode_user
            fixtures.NewRequest_err fixtures.not_found fixtures.logged_out
            None None None _)).
  reflexivity.
Defined.


Lemma Close_idempotent_witness :
  ∃ w outs, run fixtures.subscription fixtures.session = Some (w, outs) ∧
            (ws_closes (conn (connection w)) ≤ 1)%nat.
Proof.
  destruct (run fixtures.subscription fixtures.session) as [[w outs]|] eqn:Hrun;
    [|vm_compute in Hrun; discriminate Hrun].
  exists w, outs. split; [reflexivity|].
  assert (fresh fixtures.subscription) as Hfresh.
  { repeat split; reflexivity. }
  exact (proj2 (proj2 (proj2 (Close_idempotent (connection w) None None
           _ _ _ _))) Hfresh Hrun).
Defined.

End instances.

(** ** More of the query builder *)

Section query_more_facts.
Import strings fmt url query query_more.

Lemma Cut_is_Some (sep : ascii) (s : string) :
  has_byte sep s = true → is_Some (Cut sep s).
Proof.
  induction s as [|c s IH]; simpl; [done|].
  destruct (decide (c = sep)) as [->|Hne]; [by eexists|].
  rewrite bool_decide_eq_false_2 by done. simpl. intros Hs.
  destruct (IH Hs) as [[b a] ->]. by eexists.
Qed.

Lemma split_pair_is_Some (f : string) :
  has_byte "=" f = true → is_Some (split_pair f).
Proof.
  intros Hf. unfold split_pair, SplitN2.
  destruct (Cut_is_Some _ _ Hf) as [[b a] ->]. by eexists.
Qed.

Lemma split_pair_None (f : string) :
  has_byte "=" f = false → split_pair f = None.
Proof. intros Hf. unfold split_pair, SplitN2. by rewrite Cut_None. Qed.

Lemma split_pair_app (k v : string) :
  has_byte "=" k = false → split_pair (k +:+ "=" +:+ v) = Some (k, v).
Proof.
  intros Hk. unfold split_pair, SplitN2.
  rewrite app_String, app_empty. by rewrite Cut_app.
Qed.

Lemma addCondition_orFilters (ob : OrBuilder) (field operator : string)
    (value : Value) (qb : QueryBuilder) :
  orFilters (addCondition ob field operator value qb) !! groupName ob =
    Some (default [] (orFilters qb !! groupName ob)
            ++ [condition ob field operator value]).
Proof.
  unfold addCondition, condition, condition_key, or_prefix. simpl.
  rewrite lookup_insert_eq.
  destruct (decide (groupName ob = "")); by rewrite ?app_assoc_string.
Qed.

(** A stored OR condition with an [=] is emitted by every [Build], split
    at its first [=]. *)
Lemma Build_emits_condition (qb : QueryBuilder) (g : string) (fs : list string)
    (f k v s : string) :
  orFilters qb !! g = Some fs → f ∈ fs → split_pair f = Some (k, v) →
  Build_returns qb s → emits s k v.
Proof.
  intros Hg Hf Hsplit (fo & oo & _ & Hoo & <-). unfold Build_in. simpl.
  apply emits_Encode. rewrite at_key_Build_params.
  apply elem_of_app. right. apply elem_of_app. left.
  apply elem_of_picks. unfold or_pairs. apply list_elem_of_bind.
  exists (g, fs). split.
  - unfold group_pairs. apply list_elem_of_omap. by exists f.
  - by apply (range_order_elem_of _ _ _ _ Hoo).
Qed.

(** X1: a condition added to an OR group is emitted by every [Build],
    split at the first [=] of the stored text; when neither the group name
    nor the key holds an [=], that is the pair of the prefixed key and the
    printed value. *)
Theorem or_condition_emitted (ob : OrBuilder) (field operator : string)
    (value : Value) (qb : QueryBuilder) (s : string) :
  Build_returns (addCondition ob field operator value qb) s →
  (∃ k v, split_pair (condition ob field operator value) = Some (k, v) ∧
          emits s k v) ∧
  (has_byte "=" (groupName ob) = false →
   has_byte "=" (condition_key field operator) = false →
   emits s (or_prefix (groupName ob) +:+ condition_key field operator)
           (Sprint_v value)).
Proof.
  intros Hs.
  pose proof (addCondition_orFilters ob field operator value qb) as Hg.
  assert (condition ob field operator value ∈
            default [] (orFilters qb !! groupName ob)
              ++ [condition ob field operator value]) as Hin.
  { apply elem_of_app. right. apply list_elem_of_singleton. done. }
  split.
  - destruct (split_pair_is_Some (condition ob field operator value))
      as [[k v] Hkv].
    { unfold condition. rewrite !has_byte_app. simpl.
      by rewrite !orb_true_r. }
    exists k, v. split; [done|]. by eapply Build_emits_condition.
  - intros Hgroup Hkey. eapply Build_emits_condition; [done..| |done].
    unfold condition. rewrite <-app_assoc_string. apply split_pair_app.
    rewrite has_byte_app, Hkey. unfold or_prefix.
    destruct (decide (groupName ob = "")); [done|].
    by rewrite !has_byte_app, Hgroup.
Qed.

Lemma call_set_filters (p : Predicate) (qb : QueryBuilder) :
  call p qb = set_filters <[prescribed_key p := prescribed_value p]> qb.
Proof. destruct p; reflexivity. Qed.

(** X2: a later predicate call on the same key replaces the earlier one
    altogether, and predicate calls on different keys commute. *)
Theorem predicate_calls_compose (p1 p2 : Predicate) (qb : QueryBuilder) :
  (prescribed_key p1 = prescribed_key p2 →
     call p2 (call p1 qb) = call p2 qb) ∧
  (prescribed_key p1 ≠ prescribed_key p2 →
     call p2 (call p1 qb) = call p1 (call p2 qb)).
Proof.
  rewrite !call_set_filters. unfold set_filters. simpl. split.
  - intros ->. by rewrite insert_insert_eq.
  - intros Hne. by rewrite insert_insert_ne.
Qed.

Lemma picks_reserved (k : string) (qb : QueryBuilder) :
  k ∉ reserved → picks k (pagination_pairs qb ++ sorting_pairs qb) = [].
Proof.
  unfold reserved. intros Hk.
  repeat (apply not_elem_of_cons in Hk as [? Hk]).
  apply picks_nil_iff. unfold pagination_pairs, sorting_pairs.
  destruct (0 <? limit qb), (0 <? offset qb), (decide (sort qb ≠ "")),
    (decide (order qb ≠ "")); simpl;
    repeat (apply not_elem_of_cons; split; [done|]); apply not_elem_of_nil.
Qed.

(** X3: an AND filter whose key no OR condition uses and that is not one
    of limit, offset, sort, order is emitted with its stored value and
    with no other value. *)
Theorem filter_emitted_with_its_value (qb : QueryBuilder) (k v s : string) :
  filters qb !! k = Some v → or_free k qb → k ∉ reserved →
  Build_returns qb s →
  ∀ v', emits s k v' ↔ v' = v.
Proof.
  intros Hk Hfree Hres (fo & oo & Hfo & Hoo & <-) v'. unfold Build_in. simpl.
  rewrite emits_Encode, at_key_Build_params, <-picks_app.
  rewrite (picks_filters k _ _ Hfo), Hk, picks_reserved by done.
  rewrite picks_or_pairs_nil.
  - simpl. by rewrite list_elem_of_singleton.
  - intros [g fs] Hg. apply (range_order_elem_of _ _ _ _ Hoo) in Hg.
    by apply (Hfree g).
Qed.

Lemma Between_filters (field : string) (min max : Value) (qb : QueryBuilder) :
  filters (Between field min max qb) =
    <[field +:+ "_lte" := Sprint_v max]>
      (<[field +:+ "_gte" := Sprint_v min]> (filters qb)).
Proof. reflexivity. Qed.

(** X4: [Between] stores and emits both bounds, and a later [Between] on
    the same field replaces both; [Search] stores and emits the term under
    the fields joined by [__or__], with [_contains] appended. *)
Theorem Between_and_Search_emitted (field : string) (min max min' max' : Value)
    (term : string) (fields : list string) (qb : QueryBuilder) :
  (∀ s, Build_returns (Between field min max qb) s →
        emits s (field +:+ "_gte") (Sprint_v min) ∧
        emits s (field +:+ "_lte") (Sprint_v max)) ∧
  Between field min' max' (Between field min max qb) = Between field min' max' qb ∧
  (∀ s, Build_returns (Search term fields qb) s →
        emits s (Join fields "__or__" +:+ "_contains") term).
Proof.
  split; [|split].
  - intros s Hs. split; (eapply Build_emits_filter; [|done]);
      rewrite Between_filters.
    + rewrite lookup_insert_ne, lookup_insert_eq; [done|].
      intros Heq. apply (inj (String.app field)) in Heq. discriminate Heq.
    + by rewrite lookup_insert_eq.
  - unfold Between, LessThanOrEqual, GreaterThanOrEqual, set_filters. simpl.
    f_equal.
    rewrite (insert_insert_ne _ (field +:+ "_lte") (field +:+ "_gte")).
    + by rewrite insert_insert_eq, (insert_insert_ne _ (field +:+ "_gte")),
        insert_insert_eq
        by (intros Heq; apply (inj (String.app field)) in Heq; discriminate Heq).
    + intros Heq. apply (inj (String.app field)) in Heq. discriminate Heq.
  - intros s Hs. eapply Build_emits_filter; [|done].
    unfold Search, set_filters. simpl. by rewrite lookup_insert_eq.
Qed.

Lemma picks_sort (qb : QueryBuilder) :
  picks "sort" (pagination_pairs qb ++ sorting_pairs qb) =
    if decide (sort qb ≠ "") then [sort qb] else [].
Proof.
  unfold pagination_pairs, sorting_pairs.
  destruct (0 <? limit qb), (0 <? offset qb), (decide (sort qb ≠ "")),
    (decide (order qb ≠ "")); reflexivity.
Qed.

Lemma picks_order (qb : QueryBuilder) :
  picks "order" (pagination_pairs qb ++ sorting_pairs qb) =
    if decide (sort qb ≠ "") then
      if decide (order qb ≠ "") then [order qb] else []
    else [].
Proof.
  unfold pagination_pairs, sorting_pairs.
  destruct (0 <? limit qb), (0 <? offset qb), (decide (sort qb ≠ "")),
    (decide (order qb ≠ "")); reflexivity.
Qed.

Lemma at_key_Build_params_free (k : string) (qb : QueryBuilder)
    (fo : list (string * string)) (oo : list (string * list string)) :
  key_free k qb → range_order (filters qb) fo → range_order (orFilters qb) oo →
  at_key (Build_params fo oo qb) k =
    picks k (pagination_pairs qb ++ sorting_pairs qb).
Proof.
  intros Hfree Hfo Hoo. rewrite at_key_Build_params, <-picks_app.
  destruct (picks_key_free _ _ _ _ Hfree Hfo Hoo) as [-> ->]. done.
Qed.

(** X5: when no filter and no OR condition is stored under "sort", [Build]
    emits sort=<field> exactly when a sort field is set; when none is
    stored under "order", it emits order=<order> exactly when both a sort
    field and an order are set. *)
Theorem sorting_serialized (qb : QueryBuilder) (s : string) :
  Build_returns qb s →
  (key_free "sort" qb →
     ∀ v, emits s "sort" v ↔ sort qb ≠ "" ∧ v = sort qb) ∧
  (key_free "order" qb →
     ∀ v, emits s "order" v ↔ sort qb ≠ "" ∧ order qb ≠ "" ∧ v = order qb).
Proof.
  intros (fo & oo & Hfo & Hoo & <-). unfold Build_in. simpl. split.
  - intros Hfree v.
    rewrite emits_Encode, (at_key_Build_params_free _ _ _ _ Hfree Hfo Hoo).
    rewrite picks_sort. destruct (decide (sort qb ≠ "")) as [Hs|Hs].
    + rewrite list_elem_of_singleton. split; [by intros -> | by intros [_ ->]].
    + split; [by intros ?%elem_of_nil | by intros [? _]].
  - intros Hfree v.
    rewrite emits_Encode, (at_key_Build_params_free _ _ _ _ Hfree Hfo Hoo).
    rewrite picks_order.
    destruct (decide (sort qb ≠ "")) as [Hs|Hs],
             (decide (order qb ≠ "")) as [Ho|Ho];
      rewrite ?list_elem_of_singleton; split;
      try (by intros ?%elem_of_nil); try (by intros (? & ? & ?)); done.
Qed.

(** X6: the order set by [Asc] or [Desc] is dropped by [Build] as long as
    no sort field is set; [OrderBy] after [Desc] starts again from
    ascending, and [Desc] after [OrderBy] is [OrderByDesc]. *)
Theorem order_needs_sort_field (fo : list (string * string))
    (oo : list (string * list string)) (field : string) (qb : QueryBuilder) :
  (sort qb = "" →
     (Build_in fo oo (Desc qb)).1 = (Build_in fo oo qb).1 ∧
     (Build_in fo oo (Asc qb)).1 = (Build_in fo oo qb).1) ∧
  OrderBy field (Desc qb) = OrderBy field qb ∧
  Desc (OrderBy field qb) = OrderByDesc field qb ∧
  Asc (OrderByDesc field qb) = OrderByAsc field qb.
Proof.
  split; [|done]. intros Hsort. unfold Build_in, Build_params. simpl.
  unfold add_sorting, add_pagination. simpl. rewrite Hsort. done.
Qed.

Lemma Encode_empty_iff (m : Values) :
  Encode m = "" ↔ ∀ k, at_key m k = [].
Proof.
  split.
  - intros Hempty k. destruct (at_key m k) as [|v l] eqn:Hk; [done|].
    assert (emits (Encode m) k v) as Hemit.
    { apply emits_Encode. rewrite Hk. left. }
    unfold emits, components in Hemit. rewrite Hempty in Hemit.
    by apply elem_of_nil in Hemit.
  - intros Hall. unfold Encode.
    destruct (Encode_pairs m) as [|[k v] l] eqn:Hpairs; [done|].
    assert ((k, v) ∈ Encode_pairs m) as Hin by (rewrite Hpairs; left).
    apply elem_of_Encode_pairs in Hin. rewrite Hall in Hin.
    by apply elem_of_nil in Hin.
Qed.

Lemma picks_all_nil (l : list (string * string)) :
  (∀ k, picks k l = []) ↔ l = [].
Proof.
  split; [|by intros ->].
  destruct l as [|[k v] l]; [done|]. intros Hall.
  specialize (Hall k). rewrite picks_cons in Hall. simpl in Hall.
  by rewrite decide_True in Hall.
Qed.

Lemma group_pairs_nil (fs : list string) :
  group_pairs fs = [] ↔ ∀ f, f ∈ fs → has_byte "=" f = false.
Proof.
  unfold group_pairs. induction fs as [|f fs IH]; simpl.
  - split; [|done]. intros _ f Hf. by apply elem_of_nil in Hf.
  - destruct (has_byte "=" f) eqn:Hf.
    + destruct (split_pair_is_Some f Hf) as [kv ->]. simpl. split; [done|].
      intros Hall. specialize (Hall f (list_elem_of_here _ _)). congruence.
    + rewrite (split_pair_None f Hf). simpl. rewrite IH. split.
      * intros Hall f' Hf'. apply elem_of_cons in Hf' as [->|Hf']; auto.
      * intros Hall f' Hf'. apply Hall. by right.
Qed.

Lemma or_pairs_nil (oo : list (string * list string)) :
  or_pairs oo = [] ↔ ∀ g, g ∈ oo → group_pairs g.2 = [].
Proof.
  unfold or_pairs. induction oo as [|g oo IH].
  - split; [|done]. intros _ g Hg. by apply elem_of_nil in Hg.
  - rewrite bind_cons. split.
    + intros [Hg Hoo]%app_eq_nil g' Hg'.
      apply elem_of_cons in Hg' as [->|Hg']; [done|]. by apply IH.
    + intros Hall. rewrite (Hall g (list_elem_of_here _ _)). simpl.
      apply IH. intros g' Hg'. apply Hall. by right.
Qed.

Lemma Build_in_empty_iff (fo : list (string * string))
    (oo : list (string * list string)) (qb : QueryBuilder) :
  range_order (filters qb) fo → range_order (orFilters qb) oo →
  (Build_in fo oo qb).1 = "" ↔ nothing_to_emit qb.
Proof.
  intros Hfo Hoo. unfold Build_in. simpl.
  rewrite Encode_empty_iff, Build_params_adds.
  setoid_rewrite at_key_adds. unfold at_key at 1.
  setoid_rewrite lookup_empty. simpl.
  rewrite picks_all_nil. unfold added_pairs, nothing_to_emit.
  assert (fo = [] ↔ filters qb = ∅) as Hf.
  { unfold range_order in Hfo. rewrite <-map_to_list_empty_iff. split.
    - intros ->. symmetry in Hfo. by apply Permutation_nil_r in Hfo.
    - intros Hnil. rewrite Hnil in Hfo. by apply Permutation_nil_r in Hfo. }
  assert (or_pairs oo = [] ↔
          ∀ g fs f, orFilters qb !! g = Some fs → f ∈ fs → has_byte "=" f = false)
    as Ho.
  { rewrite or_pairs_nil. split.
    - intros Hall g fs f Hg. apply group_pairs_nil.
      apply (Hall (g, fs)). by apply (range_order_elem_of _ _ _ _ Hoo).
    - intros Hall [g fs] Hg. apply group_pairs_nil. intros f.
      apply (Hall g). by apply (range_order_elem_of _ _ _ _ Hoo). }
  assert (pagination_pairs qb = [] ↔ limit qb ≤ 0 ∧ offset qb ≤ 0) as Hp.
  { unfold pagination_pairs.
    destruct (Z.ltb_spec 0 (limit qb)), (Z.ltb_spec 0 (offset qb));
      simpl; split; try done; lia. }
  assert (sorting_pairs qb = [] ↔ sort qb = "") as Hs.
  { unfold sorting_pairs. destruct (decide (sort qb ≠ "")) as [Hne|Heq].
    - split; [done|]. intros ?. done.
    - split; [|done]. intros _. by apply dec_stable in Heq. }
  split.
  - intros Hnil. apply app_eq_nil in Hnil as [H1 Hnil].
    apply app_eq_nil in Hnil as [H2 Hnil].
    apply app_eq_nil in Hnil as [H3 H4].
    apply Hf in H1. apply Hp in H3 as [H3 H3']. apply Hs in H4.
    pose proof (proj1 Ho H2) as H2'. done.
  - intros (H1 & H2 & H3 & H4 & H5).
    by rewrite (proj2 Hf H1), (proj2 Ho H2), (proj2 Hp (conj H3 H4)),
      (proj2 Hs H5).
Qed.

(** X7: [Build] returns the empty string exactly when the builder holds
    nothing to write: no AND filter, no OR condition with an [=], no
    limit or offset above 0 and no sort field. *)
Theorem Build_empty_iff (qb : QueryBuilder) (s : string) :
  Build_returns qb s → s = "" ↔ nothing_to_emit qb.
Proof.
  intros (fo & oo & Hfo & Hoo & <-). by apply Build_in_empty_iff.
Qed.






End query_more_facts.

(** ** More of the client: requests, the cached user, signing in *)

Section client_more_facts.
Import errors http types client auth.
Context {S : Type} `{!Storage S}.
Variable json_Marshal : JSON → string * option error.
Variable json_Marshal_user : AppUser → string.
Variable json_Decode_user : Reader → AppUser * option error.
Variable json_Decode_token : Reader → TokenResponse * option error.
Variable NewRequest_err : string → string → option error.
Variable roundTrip : list Request → Request → Response + error.

Local Abbreviation build_request := (build_request (S:=S) json_Marshal NewRequest_err).
Local Abbreviation request := (request (S:=S) json_Marshal NewRequest_err roundTrip).
Local Abbreviation GetCurrentUser :=
  (GetCurrentUser json_Marshal json_Marshal_user json_Decode_user
                  NewRequest_err roundTrip).
Local Abbreviation UpdateUser :=
  (UpdateUser json_Marshal json_Marshal_user json_Decode_user
              NewRequest_err roundTrip).
Local Abbreviation InitAuth :=
  (InitAuth json_Marshal json_Marshal_user json_Decode_user
            NewRequest_err roundTrip).
Local Abbreviation Login :=
  (Login json_Marshal json_Marshal_user json_Decode_user json_Decode_token
         NewRequest_err roundTrip).
Local Abbreviation Register :=
  (Register json_Marshal json_Marshal_user json_Decode_user json_Decode_token
            NewRequest_err roundTrip).

(** The two ways [build_request] ends. *)
Lemma build_request_cases (method path : string) (body : option JSON)
    (useDataKey : bool) (w : World S) :
  (∃ req, build_request method path body useDataKey w = ((Some req, None), w)) ∨
  (∃ err, build_request method path body useDataKey w = ((None, Some err), w)).
Proof.
  unfold client.build_request, mbind, Call_bind, get_self, GetToken, mret, Call_ret.
  simpl. destruct body as [b|]; simpl.
  - destruct (json_Marshal _) as [jsonData [err|]]; simpl; [right; by eexists|].
    destruct (NewRequest_err _ _); simpl; [right|left]; by eexists.
  - destruct (NewRequest_err _ _); simpl; [right|left]; by eexists.
Qed.

(** The ways [request] ends: with a response below 400 after one request
    went out, or with an error; the client itself is never touched. *)
Lemma request_cases (method path : string) (body : option JSON)
    (useDataKey : bool) (w : World S) :
  (∃ req resp,
      build_request method path body useDataKey w = ((Some req, None), w) ∧
      roundTrip (sent w) req = inl resp ∧ resp_StatusCode resp < 400 ∧
      request method path body useDataKey w
        = ((Some resp, None), mkWorld (self w) (sent w ++ [req]))) ∨
  (∃ err w',
      request method path body useDataKey w = ((None, Some err), w') ∧
      self w' = self w ∧
      (sent w' = sent w ∨ ∃ req, sent w' = sent w ++ [req])).
Proof.
  unfold client.request, mbind, Call_bind.
  destruct (build_request_cases method path body useDataKey w)
    as [[req Hb]|[err Hb]]; rewrite Hb.
  - unfold Do, mret, Call_ret. simpl.
    destruct (roundTrip (sent w) req) as [resp|err] eqn:Hrt.
    + destruct (Z.leb_spec 400 (resp_StatusCode resp)).
      * right. do 2 eexists. split; [done|]. split; [done|]. right. by eexists.
      * left. exists req, resp. done.
    + right. do 2 eexists. split; [done|]. split; [done|]. right. by eexists.
  - right. do 2 eexists. split; [done|]. split; [done|]. by left.
Qed.

Lemma with_storage_self {A} (dflt : A) (op : S → A * S) (w : World S) :
  ∃ st', self (with_storage dflt op w).2 =
           mkClient (baseURL (self w)) (apiKey (self w)) (token (self w))
                    (user (self w)) st' ∧
         sent (with_storage dflt op w).2 = sent w ∧
         (storage (self w) = None → st' = None ∧ (with_storage dflt op w).1 = dflt).
Proof.
  unfold with_storage, mbind, Call_bind, get_self, put_self, mret, Call_ret.
  simpl. destruct (self w) as [b k t u [st|]] eqn:Hself; simpl.
  - destruct (op st) as [a st']. simpl. eexists. split; [done|]. split; [done|].
    done.
  - rewrite Hself. by eexists.
Qed.

Lemma GetCurrentUser_frame (w : World S) :
  let w' := (GetCurrentUser w).2 in
  baseURL (self w') = baseURL (self w) ∧ apiKey (self w') = apiKey (self w) ∧
  token (self w') = token (self w) ∧ user (self w') = user (self w).
Proof.
  unfold client.GetCurrentUser, mbind, Call_bind.
  rewrite IsAuthenticated_read. destruct (bool_decide _); simpl; [|done].
  destruct (request_cases "GET" "/auth-collections/user" None true w)
    as [(req & resp & _ & _ & _ & ->)|(err & w' & -> & Hself & _)]; simpl.
  - destruct (json_Decode_user _) as [u [err|]]; simpl; [done|].
    unfold get_self, mret, Call_ret. simpl.
    destruct (decide (storage (self w) ≠ None)); simpl; [|done].
    match goal with |- context [with_storage ?d ?op ?w0] =>
      pose proof (with_storage_frame d op w0) as Hframe;
      destruct (with_storage d op w0) as [a w1] end.
    simpl in *. destruct Hframe as (-> & -> & -> & -> & _). done.
  - by rewrite Hself.
Qed.

(** X9: how [request] fails before an answer arrives.  A body that
    cannot be marshalled and a request that cannot be created end the call
    with a wrapped error and nothing sent; a transport error ends it with
    "request failed" wrapped around it, after the request went out. *)
Theorem request_failure_modes (method path : string) (body : option JSON)
    (useDataKey : bool) (w : World S) :
  (∀ b err, body = Some b →
     (json_Marshal (if useDataKey then JObject [("data", b)] else b)).2 = Some err →
     request method path body useDataKey w
       = ((None, Some (wrapError "failed to marshal request body" err)), w)) ∧
  (∀ err,
     match body with
     | Some b => (json_Marshal (if useDataKey then JObject [("data", b)] else b)).2
     | None => None
     end = None →
     NewRequest_err method (baseURL (self w) +:+ path) = Some err →
     request method path body useDataKey w
       = ((None, Some (wrapError "failed to create request" err)), w)) ∧
  (∀ req err,
     build_request method path body useDataKey w = ((Some req, None), w) →
     roundTrip (sent w) req = inr err →
     request method path body useDataKey w
       = ((None, Some (wrapError "request failed" err)),
          mkWorld (self w) (sent w ++ [req]))).
Proof.
  split; [|split].
  - intros b err -> Hm.
    unfold client.request, client.build_request, mbind, Call_bind, get_self,
      mret, Call_ret. simpl.
    destruct (json_Marshal _) as [jsonData e]. simpl in *. by subst e.
  - intros err Hm Hn.
    unfold client.request, client.build_request, mbind, Call_bind, get_self,
      mret, Call_ret. simpl.
    destruct body as [b|]; simpl in *.
    + destruct (json_Marshal _) as [jsonData e]. simpl in *. subst e.
      by rewrite Hn.
    + by rewrite Hn.
  - intros req err Hb Hrt. unfold client.request, mbind, Call_bind.
    rewrite Hb. unfold Do, mret, Call_ret. simpl. by rewrite Hrt.
Qed.

(** X10: a response that [request] hands back has a status below 400; it
    is the answer to the one request the call sent, and the client is as
    it was. *)
Theorem request_returns_only_success (method path : string)
    (body : option JSON) (useDataKey : bool) (w w' : World S)
    (resp : Response) (err : option error) :
  request method path body useDataKey w = ((Some resp, err), w') →
  err = None ∧ resp_StatusCode resp < 400 ∧ self w' = self w ∧
  ∃ req, sent w' = sent w ++ [req] ∧ roundTrip (sent w) req = inl resp ∧
         req_URL req = baseURL (self w) +:+ path.
Proof.
  intros Hreq.
  destruct (request_cases method path body useDataKey w)
    as [(req & resp' & Hb & Hrt & Hlt & Heq)|(e & w1 & Heq & _)];
    rewrite Heq in Hreq; [|done].
  injection Hreq as <- <- <-. repeat split; try done.
  exists req. repeat split; try done.
  apply (f_equal fst) in Hb. simpl in Hb.
  by apply build_request_Some in Hb as (? & _).
Qed.

(** X11: [GetCurrentUser] never touches the token or the cached user,
    whatever it returns; [UpdateUser] replaces the cached user by the one
    it returns, leaves it alone when it fails, and never touches the
    token. *)
Theorem only_UpdateUser_refreshes_cache (w : World S)
    (data : option (gmap string JSON)) (email password : option string) :
  token (self (GetCurrentUser w).2) = token (self w) ∧
  user (self (GetCurrentUser w).2) = user (self w) ∧
  token (self (UpdateUser data email password w).2) = token (self w) ∧
  (∀ u, (UpdateUser data email password w).1.1 = Some u →
        user (self (UpdateUser data email password w).2) = Some u) ∧
  ((UpdateUser data email password w).1.1 = None →
     user (self (UpdateUser data email password w).2) = user (self w)).
Proof.
  destruct (GetCurrentUser_frame w) as (_ & _ & Ht & Hu).
  split; [done|]. split; [done|].
  unfold client.UpdateUser, mbind, Call_bind.
  rewrite IsAuthenticated_read. destruct (bool_decide _); simpl; [|done].
  unfold get_self; simpl.
  match goal with |- context [client.request _ _ _ ?m ?p ?b ?u w] =>
    destruct (request_cases m p b u w)
      as [(req & resp & _ & _ & _ & ->)|(err & w' & -> & Hself & _)] end;
    simpl.
  - destruct (json_Decode_user _) as [u [err|]]; simpl; [done|].
    unfold set_user, get_self, put_self, mbind, Call_bind, mret, Call_ret.
    simpl.
    destruct (decide (storage (self w) ≠ None)); simpl.
    + match goal with |- context [with_storage ?d ?op ?w0] =>
        pose proof (with_storage_frame d op w0) as Hframe;
        destruct (with_storage d op w0) as [a w1] end.
      simpl in *. destruct Hframe as (_ & _ & -> & -> & _).
      repeat split; try done; by intros ? [= ->].
    + repeat split; try done; by intros ? [= ->].
  - rewrite Hself. done.
Qed.

Lemma copy_into_union (m result : gmap string JSON) :
  copy_into m result = m ∪ result.
Proof.
  unfold copy_into.
  apply (map_fold_weak_ind (fun r m => r = m ∪ result)).
  - by rewrite (left_id_L ∅ (∪)).
  - intros k v m' r _ ->. by rewrite insert_union_l.
Qed.

(** X12: [mergeData] is a shallow merge in which the updates win: a key
    of the updates gets the update's value, any other key keeps the
    current value, and nothing else is in the result. *)
Theorem mergeData_updates_win (current updates : gmap string JSON) (k : string) :
  mergeData current updates !! k =
    match updates !! k with
    | Some v => Some v
    | None => current !! k
    end.
Proof.
  unfold mergeData. rewrite !copy_into_union, (right_id_L ∅ (∪)).
  rewrite lookup_union. by destruct (updates !! k), (current !! k).
Qed.

Lemma GetCurrentUser_result (w : World S) :
  (∃ u, (GetCurrentUser w).1 = (Some u, None)) ∨
  (∃ err, (GetCurrentUser w).1 = (None, Some err)).
Proof.
  unfold client.GetCurrentUser, mbind, Call_bind.
  rewrite IsAuthenticated_read. destruct (bool_decide _); simpl;
    [|right; by eexists].
  destruct (request_cases "GET" "/auth-collections/user" None true w)
    as [(req & resp & _ & _ & _ & ->)|(err & w' & -> & _)]; simpl;
    [|right; by eexists].
  destruct (json_Decode_user _) as [u [err|]]; simpl; [right; by eexists|].
  unfold get_self, mret, Call_ret. simpl.
  destruct (decide (storage (self w) ≠ None)); simpl; [|left; by eexists].
  match goal with |- context [with_storage ?d ?op ?w0] =>
    destruct (with_storage d op w0) as [a w1] end.
  left. by eexists.
Qed.

Lemma GetCurrentUser_no_token (w : World S) :
  token (self w) = "" →
  GetCurrentUser w = ((None, Some (errorString "user is not authenticated")), w).
Proof.
  intros Ht. unfold client.GetCurrentUser, mbind, Call_bind.
  by rewrite IsAuthenticated_read, Ht.
Qed.

(** The world after the token has been read from the storage and set. *)
Lemma InitAuth_stored (w : World S) (st st' : S) (t : string) :
  storage (self w) = Some st → Get "cocobase-token" st = ((t, None), st') →
  InitAuth w =
    let w1 := mkWorld (mkClient (baseURL (self w)) (apiKey (self w)) t
                                (user (self w)) (Some st')) (sent w) in
    let '((u, err), w2) := GetCurrentUser w1 in
    match err with
    | Some err => (Some err, w2)
    | None => (None, (set_user u w2).2)
    end.
Proof.
  intros Hst Hget.
  unfold auth.InitAuth, with_storage, set_token, mbind, Call_bind, get_self,
    put_self, mret, Call_ret. simpl.
  rewrite Hst. simpl. rewrite Hst, Hget. simpl.
  destruct (client.GetCurrentUser _ _ _ _ _ _) as [[u [err|]] w2]; done.
Qed.

(** X13: [InitAuth] does nothing when the client has no storage, and
    nothing but the read when the storage has no token: it returns nil,
    sends no request and leaves the token and the cached user alone. *)
Theorem InitAuth_without_stored_token (w : World S) :
  (storage (self w) = None → InitAuth w = (None, w)) ∧
  (∀ st st' t e, storage (self w) = Some st →
     Get "cocobase-token" st = ((t, Some e), st') →
     InitAuth w =
       (None, mkWorld (mkClient (baseURL (self w)) (apiKey (self w))
                                (token (self w)) (user (self w)) (Some st'))
                      (sent w))).
Proof.
  split.
  - intros Hst. unfold auth.InitAuth, mbind, Call_bind, get_self. simpl.
    by rewrite Hst.
  - intros st st' t e Hst Hget.
    unfold auth.InitAuth, with_storage, mbind, Call_bind, get_self, put_self,
      mret, Call_ret. simpl.
    rewrite Hst. simpl. rewrite Hst, Hget. done.
Qed.

(** X14: when the storage holds a token, [InitAuth] leaves that token in
    the client whether or not the user can be fetched with it: on success
    the user is cached, on failure the error is returned, the cached user
    is as before and the token stays.  A stored empty token makes it fail
    with "user is not authenticated" without a request. *)
Theorem InitAuth_keeps_stored_token (w : World S) (st st' : S) (t : string) :
  storage (self w) = Some st → Get "cocobase-token" st = ((t, None), st') →
  token (self (InitAuth w).2) = t ∧
  ((InitAuth w).1 = None → is_Some (user (self (InitAuth w).2))) ∧
  ((InitAuth w).1 ≠ None → user (self (InitAuth w).2) = user (self w)) ∧
  (t = "" → (InitAuth w).1 = Some (errorString "user is not authenticated") ∧
            sent (InitAuth w).2 = sent w).
Proof.
  intros Hst Hget. rewrite (InitAuth_stored w st st' t Hst Hget). simpl.
  set (w1 := mkWorld _ _).
  pose proof (GetCurrentUser_frame w1) as (_ & _ & Ht & Hu).
  pose proof (GetCurrentUser_no_token w1) as Hno.
  destruct (GetCurrentUser_result w1) as [[u Hr]|[err Hr]];
    destruct (GetCurrentUser w1) as [[u' e'] w2]; simpl in *;
    injection Hr as -> ->; simpl.
  - split; [done|]. split; [intros _; by eexists|]. split; [done|].
    intros Heq. specialize (Hno Heq). discriminate Hno.
  - split; [done|]. split; [done|]. split; [done|].
    intros Heq. specialize (Hno Heq). injection Hno as -> ->. done.
Qed.

Lemma SetToken_frame (t : string) (w : World S) :
  token (self (SetToken t w).2) = t ∧
  user (self (SetToken t w).2) = user (self w) ∧
  sent (SetToken t w).2 = sent w.
Proof.
  unfold SetToken, set_token, mbind, Call_bind, get_self, put_self, mret, Call_ret.
  simpl. destruct (decide (storage (self w) ≠ None)); [|done].
  match goal with |- context [with_storage ?d ?op ?w0] =>
    pose proof (with_storage_frame d op w0) as Hframe;
    destruct (with_storage d op w0) as [a w1] end.
  simpl in *. by destruct Hframe as (_ & _ & -> & -> & ->).
Qed.

(** What [Login] and [Register] do once the token has been decoded:
    [SetToken], then [GetCurrentUser], then the cache. *)
Lemma token_accepted (t : string) (w1 : World S) :
  let r := (let '(err, w2) := SetToken t w1 in
            match err with
            | Some err => (Some err, w2)
            | None =>
                let '((u, err), w3) := GetCurrentUser w2 in
                match err with
                | Some err => (Some err, w3)
                | None => (None, (set_user u w3).2)
                end
            end) in
  token (self r.2) = t ∧
  (r.1 = None → is_Some (user (self r.2))) ∧
  (r.1 ≠ None → user (self r.2) = user (self w1)) ∧
  (t = "" → r.1 ≠ None).
Proof.
  pose proof (SetToken_frame t w1) as (Ht & Hu & _).
  destruct (SetToken t w1) as [[err|] w2]; simpl in *; [done|].
  pose proof (GetCurrentUser_frame w2) as (_ & _ & Ht' & Hu').
  pose proof (GetCurrentUser_no_token w2) as Hno.
  destruct (GetCurrentUser_result w2) as [[u Hr]|[err Hr]];
    destruct (GetCurrentUser w2) as [[u' e'] w3]; simpl in *;
    injection Hr as -> ->; simpl.
  - split; [congruence|]. split; [intros _; by eexists|]. split; [done|].
    intros Heq. rewrite Heq in Ht. specialize (Hno Ht). discriminate Hno.
  - split; [congruence|]. split; [done|]. split; [congruence|]. done.
Qed.

(** X15: [Login].  When the login request fails, its error is returned and
    the client is as before; when the answer cannot be decoded, the
    wrapped decoding error is returned and the client is as before.  Once
    a token has been decoded it is the client's token from then on,
    whether the rest succeeds or not: the user is cached exactly when
    [Login] returns nil, and an empty token makes [Login] fail. *)
Theorem Login_outcomes (email password : string) (w : World S) :
  let r := request "POST" "/auth-collections/login"
             (Some (JObject [("email", JString email);
                             ("password", JString password)])) false w in
  (∀ err, r.1 = (None, Some err) →
     Login email password w = (Some err, r.2) ∧ self r.2 = self w) ∧
  (∀ resp tr e, r.1 = (Some resp, None) →
     json_Decode_token (resp_Body resp) = (tr, Some e) →
     Login email password w
       = (Some (wrapError "failed to decode response" e), r.2) ∧
     self r.2 = self w) ∧
  (∀ resp tr, r.1 = (Some resp, None) →
     json_Decode_token (resp_Body resp) = (tr, None) →
     token (self (Login email password w).2) = AccessToken tr ∧
     ((Login email password w).1 = None →
        is_Some (user (self (Login email password w).2))) ∧
     ((Login email password w).1 ≠ None →
        user (self (Login email password w).2) = user (self w)) ∧
     (AccessToken tr = "" → (Login email password w).1 ≠ None)).
Proof.
  intros r. subst r.
  match goal with |- context [client.request _ _ _ ?m ?p ?b ?u w] =>
    pose proof (request_sent json_Marshal NewRequest_err roundTrip m p b u w)
      as [Hself _] end.
  unfold auth.Login, mbind, Call_bind.
  destruct (request _ _ _ _ w) as [[resp err] w1]; simpl in *.
  split; [|split].
  - by intros e [= -> ->].
  - intros resp' tr e [= -> ->] Hd. by rewrite Hd.
  - intros resp' tr [= -> ->] Hd. rewrite Hd. simpl.
    pose proof (token_accepted (AccessToken tr) w1) as Hacc.
    unfold set_user, get_self, put_self, mbind, Call_bind, mret, Call_ret in *.
    destruct (SetToken (AccessToken tr) w1) as [[e|] w2]; simpl in *;
      [by rewrite <-Hself|].
    destruct (GetCurrentUser w2) as [[u [e|]] w3]; simpl in *;
      by rewrite <-Hself.
Qed.

(** X16: [Register] ends as [Login] does.  A failed signup request or an
    answer that cannot be decoded leaves the client as before; a decoded
    token stays the client's token whether the rest succeeds or not, and
    the user is cached exactly when [Register] returns nil. *)
Theorem Register_outcomes (email password : string)
    (data : option (gmap string JSON)) (w : World S) :
  let body := [("email", JString email); ("password", JString password)] ++
              match data with
              | Some data => [("data", JObject (map_to_list data))]
              | None => []
              end in
  let r := request "POST" "/auth-collections/signup" (Some (JObject body))
             false w in
  (∀ err, r.1 = (None, Some err) →
     Register email password data w = (Some err, r.2) ∧ self r.2 = self w) ∧
  (∀ resp tr e, r.1 = (Some resp, None) →
     json_Decode_token (resp_Body resp) = (tr, Some e) →
     Register email password data w
       = (Some (wrapError "failed to decode response" e), r.2) ∧
     self r.2 = self w) ∧
  (∀ resp tr, r.1 = (Some resp, None) →
     json_Decode_token (resp_Body resp) = (tr, None) →
     token (self (Register email password data w).2) = AccessToken tr ∧
     ((Register email password data w).1 = None →
        is_Some (user (self (Register email password data w).2))) ∧
     ((Register email password data w).1 ≠ None →
        user (self (Register email password data w).2) = user (self w)) ∧
     (AccessToken tr = "" → (Register email password data w).1 ≠ None)).
Proof.
  intros body r. subst r body.
  match goal with |- context [client.request _ _ _ ?m ?p ?b ?u w] =>
    pose proof (request_sent json_Marshal NewRequest_err roundTrip m p b u w)
      as [Hself _] end.
  unfold auth.Register, mbind, Call_bind.
  replace (match data with
           | Some data0 =>
               [("email", JString email); ("password", JString password)] ++
               [("data", JObject (map_to_list data0))]
           | None => [("email", JString email); ("password", JString password)]
           end)
    with ([("email", JString email); ("password", JString password)] ++
          match data with
          | Some data => [("data", JObject (map_to_list data))]
          | None => []
          end) by (by destruct data).
  destruct (request _ _ _ _ w) as [[resp err] w1]; simpl in *.
  split; [|split].
  - by intros e [= -> ->].
  - intros resp' tr e [= -> ->] Hd. by rewrite Hd.
  - intros resp' tr [= -> ->] Hd. rewrite Hd. simpl.
    pose proof (token_accepted (AccessToken tr) w1) as Hacc.
    unfold set_user, get_self, put_self, mbind, Call_bind, mret, Call_ret in *.
    destruct (SetToken (AccessToken tr) w1) as [[e|] w2]; simpl in *;
      [by rewrite <-Hself|].
    destruct (GetCurrentUser w2) as [[u [e|]] w3]; simpl in *;
      by rewrite <-Hself.
Qed.

End client_more_facts.

(** ** The document methods *)

Section document_facts.
Import errors http types client query query_more documents.
Context {S : Type}.
Variable json_Marshal : JSON → string * option error.
Variable json_Decode_document : Reader → Document * option error.
Variable json_Decode_documents : Reader → list Document * option error.
Variable NewRequest_err : string → string → option error.
Variable roundTrip : list Request → Request → Response + error.

Local Abbreviation build_request := (build_request (S:=S) json_Marshal NewRequest_err).
Local Abbreviation request := (request (S:=S) json_Marshal NewRequest_err roundTrip).
Local Abbreviation GetDocument :=
  (GetDocument (S:=S) json_Marshal json_Decode_document NewRequest_err roundTrip).
Local Abbreviation CreateDocument :=
  (CreateDocument (S:=S) json_Marshal json_Decode_document NewRequest_err roundTrip).
Local Abbreviation UpdateDocument :=
  (UpdateDocument (S:=S) json_Marshal json_Decode_document NewRequest_err roundTrip).
Local Abbreviation DeleteDocument :=
  (DeleteDocument (S:=S) json_Marshal NewRequest_err roundTrip).
Local Abbreviation ListDocuments :=
  (ListDocuments (S:=S) json_Marshal json_Decode_documents NewRequest_err roundTrip).
Local Abbreviation QueryDocuments :=
  (QueryDocuments (S:=S) json_Marshal json_Decode_documents NewRequest_err roundTrip).

(** What went out when [request] was called without a body. *)
Lemma request_sent_bodyless (method path : string) (useDataKey : bool)
    (w : World S) :
  self (request method path None useDataKey w).2 = self w ∧
  ∃ out, sent (request method path None useDataKey w).2 = sent w ++ out ∧
         (length out ≤ 1)%nat ∧
         ∀ req, req ∈ out →
           req_URL req = baseURL (self w) +:+ path ∧ req_Body req = None ∧
           req_Method req = (if decide (method = "") then "GET" else method).
Proof.
  destruct (request_sent json_Marshal NewRequest_err roundTrip method path None
              useDataKey w) as [Hself Hsent].
  split; [done|].
  destruct (client.build_request _ _ method path None useDataKey w)
    as [[[req|] [err|]] w0] eqn:Hb; simpl in Hsent;
    try (exists []; rewrite app_nil_r; split; [done|]; split; [simpl; lia|];
         intros ? Hin; by apply elem_of_nil in Hin).
  exists [req]. split; [done|]. split; [simpl; lia|].
  intros req' ->%list_elem_of_singleton.
  revert Hb.
  unfold client.build_request, mbind, Call_bind, get_self, GetToken, mret, Call_ret.
  simpl. destruct (NewRequest_err _ _); simpl; [done|].
  by intros [= <- <-].
Qed.

(** X17: [ListDocuments] with a builder is [QueryDocuments] with the
    string the builder builds, and without a builder it is
    [QueryDocuments] with the empty string.  The request it sends is a GET
    without a body for baseURL/collections/<collection>/documents, with
    [?] and the built string appended exactly when the builder has
    something to write. *)
Theorem ListDocuments_sends_built_query (collection : string)
    (qb : QueryBuilder) (fo : list (string * string))
    (oo : list (string * list string)) (w : World S) :
  range_order (filters qb) fo → range_order (orFilters qb) oo →
  ListDocuments collection (Some qb) fo oo w
    = QueryDocuments collection (Build_in fo oo qb).1 w ∧
  ListDocuments collection None fo oo w = QueryDocuments collection "" w ∧
  ∃ out, sent (ListDocuments collection (Some qb) fo oo w).2 = sent w ++ out ∧
         (length out ≤ 1)%nat ∧
         ∀ req, req ∈ out →
           req_Method req = "GET" ∧ req_Body req = None ∧
           (nothing_to_emit qb →
              req_URL req = baseURL (self w) +:+ "/collections/" +:+ collection
                              +:+ "/documents") ∧
           (¬ nothing_to_emit qb →
              req_URL req = baseURL (self w) +:+ "/collections/" +:+ collection
                              +:+ "/documents" +:+ "?" +:+ (Build_in fo oo qb).1).
Proof.
  intros Hfo Hoo. split; [done|]. split; [done|].
  pose proof (Build_in_empty_iff fo oo qb Hfo Hoo) as Hempty.
  unfold documents.ListDocuments, mbind, Call_bind.
  destruct (decide ((Build_in fo oo qb).1 ≠ "")) as [Hne|Heq];
    match goal with |- context [client.request _ _ _ ?m ?p None ?u w] =>
      destruct (request_sent_bodyless m p u w) as (_ & out & Hsent & Hlen & Hout);
      destruct (request m p None u w) as [r w1] eqn:Hr end;
    simpl in *; exists out; (split; [done|]); (split; [done|]);
    intros req Hreq; destruct (Hout req Hreq) as (Hurl & Hbody & Hmethod);
    (split; [done|]); (split; [done|]); rewrite Hurl; split.
  - intros Hnothing. by apply Hempty in Hnothing.
  - intros _. by rewrite !app_assoc_string.
  - done.
  - intros Hsome. apply dec_stable in Heq. by apply Hempty in Heq.
Qed.

Lemma decode_document_Some (r : option Response * option error)
    (doc : Document) (err : option error) :
  decode_document json_Decode_document r = (Some doc, err) →
  err = None ∧ ∃ resp, r = (Some resp, None) ∧
                       json_Decode_document (resp_Body resp) = (doc, None).
Proof.
  unfold decode_document. destruct r as [[resp|] [e|]]; try done.
  destruct (json_Decode_document _) as [d [e|]] eqn:Hd; [done|].
  intros [= <- <-]. split; [done|]. by exists resp.
Qed.

(** A call that is [request] followed by [decode_document] returns a
    document only when the one request it sent was answered below 400 with
    a body that decodes to that document. *)
Lemma document_call (method path : string) (body : option JSON)
    (w w' : World S) (doc : Document) (err : option error) :
  (r ← request method path body true; mret (decode_document json_Decode_document r)) w
    = ((Some doc, err), w') →
  err = None ∧ self w' = self w ∧
  ∃ req resp, sent w' = sent w ++ [req] ∧
              req_URL req = baseURL (self w) +:+ path ∧
              roundTrip (sent w) req = inl resp ∧
              resp_StatusCode resp < 400 ∧
              json_Decode_document (resp_Body resp) = (doc, None).
Proof.
  unfold mbind, Call_bind, mret, Call_ret.
  destruct (request_cases json_Marshal NewRequest_err roundTrip method path body
              true w) as [(req & resp & Hb & Hrt & Hlt & ->)|(e & w1 & -> & _)];
    simpl; [|done].
  intros [= Hdec <-].
  apply (decode_document_Some (Some resp, None) doc err) in Hdec
    as (-> & resp' & [= <-] & Hd).
  split; [done|]. split; [done|]. exists req, resp. repeat split; try done.
  apply (f_equal fst) in Hb. simpl in Hb.
  by apply build_request_Some in Hb as (? & _).
Qed.

(** X18: [GetDocument], [CreateDocument] and [UpdateDocument] return a
    document only together with a nil error, and only when the single
    request they sent (to the document's path, or to
    /collections/documents?collection=<collection> for a creation) was
    answered with a status below 400 and a body that decodes to that
    document; the client is as before. *)
Theorem document_returned_only_on_success (collection docID : string)
    (data : option (gmap string JSON)) (w w' : World S) (doc : Document)
    (err : option error) :
  let answered path :=
    err = None ∧ self w' = self w ∧
    ∃ req resp, sent w' = sent w ++ [req] ∧
                req_URL req = baseURL (self w) +:+ path ∧
                roundTrip (sent w) req = inl resp ∧
                resp_StatusCode resp < 400 ∧
                json_Decode_document (resp_Body resp) = (doc, None) in
  (GetDocument collection docID w = ((Some doc, err), w') →
     answered ("/collections/" +:+ collection +:+ "/documents/" +:+ docID)) ∧
  (CreateDocument collection data w = ((Some doc, err), w') →
     answered ("/collections/documents?collection=" +:+ collection)) ∧
  (UpdateDocument collection docID data w = ((Some doc, err), w') →
     answered ("/collections/" +:+ collection +:+ "/documents/" +:+ docID)).
Proof.
  intros answered. subst answered. simpl.
  split; [|split]; apply document_call.
Qed.

(** X19: [DeleteDocument] returns nil exactly when its request was
    answered with a status below 400, whatever the body of the answer;
    otherwise it returns the error of [request]. *)
Theorem DeleteDocument_result (collection docID : string) (w : World S) :
  let path := "/collections/" +:+ collection +:+ "/documents/" +:+ docID in
  (DeleteDocument collection docID w).1 = None ↔
  ∃ req resp, build_request "DELETE" path None true w = ((Some req, None), w) ∧
              roundTrip (sent w) req = inl resp ∧ resp_StatusCode resp < 400.
Proof.
  intros path. unfold documents.DeleteDocument, mbind, Call_bind, mret, Call_ret.
  fold path.
  destruct (request_cases json_Marshal NewRequest_err roundTrip "DELETE" path
              None true w) as [(req & resp & Hb & Hrt & Hlt & ->)|(e & w1 & Hreq & _)].
  - simpl. split; [|done]. intros _. by exists req, resp.
  - rewrite Hreq. simpl. split; [done|].
    intros (req & resp & Hb & Hrt & Hlt). exfalso. revert Hreq.
    unfold client.request, mbind, Call_bind. rewrite Hb.
    unfold Do, mret, Call_ret. simpl. rewrite Hrt.
    apply Z.leb_gt in Hlt. by rewrite Hlt.
Qed.

End document_facts.

(** ** The two storages *)

Section storage_facts.
Import errors types memory file.

(** X20: [MemoryStorage] gives back what was set: [Get] after [Set] of the
    same key returns the value, a [Set] or [Delete] of another key does
    not change what [Get] returns, [Get] after [Delete] fails with "key
    not found", and [Set] and [Delete] never fail. *)
Theorem MemoryStorage_round_trip (s : MemoryStorage) (k k' v : string) :
  (Memory_Get k (Memory_Set k v s).2).1 = (v, None) ∧
  (Memory_Get k (Memory_Delete k s).2).1
    = ("", Some (errorString ("key not found: " +:+ k))) ∧
  (k' ≠ k →
     (Memory_Get k' (Memory_Set k v s).2).1 = (Memory_Get k' s).1 ∧
     (Memory_Get k' (Memory_Delete k s).2).1 = (Memory_Get k' s).1) ∧
  (Memory_Set k v s).1 = None ∧ (Memory_Delete k s).1 = None ∧
  (Memory_Get k s).2 = s ∧
  (memory.data s !! k = None → Memory_Delete k s = (None, s)).
Proof.
  unfold Memory_Get, Memory_Set, Memory_Delete. simpl.
  rewrite lookup_insert_eq, lookup_delete_eq.
  split; [done|]. split; [done|]. split; [|split; [done|split; [done|split]]].
  - intros Hne. rewrite lookup_insert_ne, lookup_delete_ne by done.
    by destruct (memory.data s !! k').
  - by destruct (memory.data s !! k).
  - intros Hk. rewrite delete_id by done. by destruct s.
Qed.

Variable filepath_Dir : string → string.
Variable os_MkdirAll : string → Disk → option error * Disk.
Variable os_WriteFile : string → string → Disk → option error * Disk.
Variable json_MarshalIndent : gmap string string → string * option error.
Variable json_Unmarshal :
  string → gmap string string → gmap string string * option error.

Local Abbreviation save :=
  (save filepath_Dir os_MkdirAll os_WriteFile json_MarshalIndent).
Local Abbreviation File_Set :=
  (File_Set filepath_Dir os_MkdirAll os_WriteFile json_MarshalIndent).
Local Abbreviation File_Delete :=
  (File_Delete filepath_Dir os_MkdirAll os_WriteFile json_MarshalIndent).
Local Abbreviation NewFileStorage := (NewFileStorage json_Unmarshal).

Lemma save_store (m : Mounted) : store (save m).2 = store m.
Proof.
  unfold file.save. destruct (os_MkdirAll _ _) as [[err|] d]; [done|].
  destruct (json_MarshalIndent _) as [bytes [err|]]; [done|].
  by destruct (os_WriteFile _ _ _).
Qed.

(** X21: a [FileStorage] answers from memory, ahead of the disk: after
    [Set] the key reads back as the new value and after [Delete] it is
    not found, also when saving failed and the call returned an error;
    other keys and the file path are as before. *)
Theorem FileStorage_answers_from_memory (m : Mounted) (k k' v : string) :
  (File_Get k (File_Set k v m).2).1 = (v, None) ∧
  (File_Get k (File_Delete k m).2).1
    = ("", Some (errorString ("key not found: " +:+ k))) ∧
  (k' ≠ k →
     (File_Get k' (File_Set k v m).2).1 = (File_Get k' m).1 ∧
     (File_Get k' (File_Delete k m).2).1 = (File_Get k' m).1) ∧
  filepath (store (File_Set k v m).2) = filepath (store m) ∧
  filepath (store (File_Delete k m).2) = filepath (store m).
Proof.
  unfold File_Get, file.File_Set, file.File_Delete. rewrite !save_store. simpl.
  rewrite lookup_insert_eq, lookup_delete_eq.
  split; [done|]. split; [done|]. split; [|done].
  intros Hne. rewrite lookup_insert_ne, lookup_delete_ne by done.
  by destruct (data (store m) !! k').
Qed.

(** After a [save] that returned nil the file holds the marshalled map. *)
Lemma save_written (m : Mounted) :
  (∀ path bytes d d', os_WriteFile path bytes d = (None, d') →
                      d' !! path = Some (Regular bytes)) →
  (save m).1 = None →
  (json_MarshalIndent (data (store m))).2 = None ∧
  ReadFile (filepath (store m)) (disk (save m).2)
    = ((json_MarshalIndent (data (store m))).1, None).
Proof.
  intros Hwrite. unfold file.save.
  destruct (os_MkdirAll _ _) as [[err|] d]; [done|].
  destruct (json_MarshalIndent _) as [bytes [err|]]; [done|].
  destruct (os_WriteFile _ _ _) as [[err|] d'] eqn:Hw; [done|].
  simpl. intros _. split; [done|]. unfold ReadFile.
  by rewrite (Hwrite _ _ _ _ Hw).
Qed.

(** X22: what [NewFileStorage] makes of the file at its path: a missing
    file gives an empty storage and no error; a file that cannot be read,
    or whose content cannot be unmarshalled, gives the error and no
    storage; otherwise the storage holds the unmarshalled map. *)
Theorem NewFileStorage_outcomes (path : string) (d : Disk) :
  (d !! path = None →
     NewFileStorage path d = (Some (mkFileStorage path ∅), None)) ∧
  (∀ err, d !! path = Some (Unreadable err) →
     NewFileStorage path d = (None, Some err)) ∧
  (∀ content m err, d !! path = Some (Regular content) →
     json_Unmarshal content ∅ = (m, Some err) →
     NewFileStorage path d = (None, Some err)) ∧
  (∀ content m, d !! path = Some (Regular content) →
     json_Unmarshal content ∅ = (m, None) →
     NewFileStorage path d = (Some (mkFileStorage path m), None)).
Proof.
  unfold file.NewFileStorage, load, ReadFile. simpl.
  split; [|split; [|split]].
  - by intros ->.
  - by intros err ->.
  - intros content m err -> Hu. by rewrite Hu.
  - intros content m -> Hu. by rewrite Hu.
Qed.

(** X23: a storage reopened after a [Set] or [Delete] that returned nil is
    the storage that was saved, provided a successful [os.WriteFile] leaves
    the bytes at the path and the saved bytes unmarshal to the saved map. *)
Theorem FileStorage_reopens_as_saved (m : Mounted) (k v : string) :
  let unmarshals saved :=
    json_Unmarshal (json_MarshalIndent saved).1 ∅ = (saved, None) in
  (∀ path bytes d d', os_WriteFile path bytes d = (None, d') →
                      d' !! path = Some (Regular bytes)) →
  ((File_Set k v m).1 = None → unmarshals (<[k := v]> (data (store m))) →
     NewFileStorage (filepath (store m)) (disk (File_Set k v m).2)
       = (Some (store (File_Set k v m).2), None)) ∧
  ((File_Delete k m).1 = None → unmarshals (delete k (data (store m))) →
     NewFileStorage (filepath (store m)) (disk (File_Delete k m).2)
       = (Some (store (File_Delete k m).2), None)).
Proof.
  intros unmarshals Hwrite. subst unmarshals.
  unfold file.File_Set, file.File_Delete.
  split; intros Hok Hcodec;
    destruct (save_written _ Hwrite Hok) as [_ Hread];
    rewrite save_store; simpl in *;
    unfold file.NewFileStorage, load; simpl; rewrite Hread, Hcodec; done.
Qed.

End storage_facts.

(** ** More of the realtime connection *)

Section realtime_more_facts.
Import errors types realtime.

Lemma step_without_Close (w w' : Watch) (a : Action) (o : Output) :
  (∀ r, a ≠ CallClose r) → step w a = Some (w', o) →
  conn (connection w') = conn (connection w).
Proof.
  destruct w as [[[url n] nm cl] l rs cs]. unfold step. simpl. intros Ha.
  destruct a as [[e|err]| | |ws_result|], l as [|e'| |]; simpl;
    intros Heq; simplify_eq; simpl; try done; by destruct (Ha ws_result).
Qed.

Lemma run_without_Close (w w' : Watch) (actions : list Action)
    (outs : list Output) :
  (∀ r, CallClose r ∉ actions) → run w actions = Some (w', outs) →
  conn (connection w') = conn (connection w).
Proof.
  revert w outs. induction actions as [|a actions IH]; intros w outs Hno; simpl.
  - by intros [= <- <-].
  - destruct (step w a) as [[w1 o]|] eqn:Hstep; [|done].
    destruct (run w1 actions) as [[w2 os]|] eqn:Hrun; [|done].
    intros [= <- <-]. rewrite (IH w1 os); [|..|done].
    + apply (step_without_Close _ _ _ _) in Hstep; [done|].
      intros r ->. apply (Hno r). left.
    + intros r Hin. apply (Hno r). by right.
Qed.

Lemma run_closed_results (w w' : Watch) (actions : list Action)
    (outs : list Output) :
  closed (connection w) = true → run w actions = Some (w', outs) →
  ∀ err, CloseResult err ∈ outs → err = None.
Proof.
  revert w outs. induction actions as [|a actions IH]; intros w outs Hw; simpl.
  - intros [= <- <-] err Hin. by apply elem_of_nil in Hin.
  - destruct (step w a) as [[w1 o]|] eqn:Hstep; [|done].
    destruct (run w1 actions) as [[w2 os]|] eqn:Hrun; [|done].
    intros [= <- <-] err Hin.
    destruct (step_closed _ _ _ _ Hw Hstep) as (Hc1 & _ & _ & Ho).
    apply elem_of_cons in Hin as [Heq|Hin]; [by apply Ho|].
    by apply (IH w1 os Hc1 Hrun).
Qed.

(** X24: when the read loop ends before anyone has called [Close], the
    websocket is never closed through the [Connection]: the goroutine
    only sets the flag, and every later [Close] finds the flag set,
    returns nil and leaves the websocket alone. *)
Theorem websocket_stays_open_after_loop_ends (w0 w : Watch)
    (actions : list Action) (outs : list Output) :
  fresh w0 → run w0 actions = Some (w, outs) →
  (∀ r, CallClose r ∉ actions) → loop w = Returned →
  ws_closes (conn (connection w)) = 0%nat ∧
  ∀ more w' outs', run w more = Some (w', outs') →
    ws_closes (conn (connection w')) = 0%nat ∧
    ∀ err, CloseResult err ∈ outs' → err = None.
Proof.
  intros Hfresh Hrun Hno Hloop.
  assert (ws_closes (conn (connection w)) = 0%nat) as Hws.
  { rewrite (run_without_Close _ _ _ _ Hno Hrun). by destruct Hfresh as (_ & _ & _ & _ & ?). }
  destruct (run_consistent _ _ _ _ (fresh_consistent _ Hfresh) Hrun)
    as ((_ & _ & Hret & _) & _).
  specialize (Hret Hloop). split; [done|].
  intros more w' outs' Hmore.
  destruct (run_closed _ _ _ _ Hret Hmore) as (_ & -> & _).
  split; [done|]. by apply (run_closed_results _ _ _ _ Hret Hmore).
Qed.

Lemma Replace1_prefix (old new rest : string) :
  strings.Replace1 (old +:+ rest) old new = new +:+ rest.
Proof.
  assert (∀ s, strings.CutPrefix (old +:+ s) old = Some s) as Hcut.
  { induction old as [|c old IH]; intros s; [by destruct s|].
    rewrite app_String. simpl. by rewrite decide_True. }
  assert (∀ s, strings.Replace1 s old new =
               match strings.CutPrefix s old with
               | Some rest => new +:+ rest
               | None => match s with
                         | EmptyString => EmptyString
                         | String c s' => String c (strings.Replace1 s' old new)
                         end
               end) as Hunfold by (by intros []).
  by rewrite Hunfold, Hcut.
Qed.

(** X25: [WatchCollection] returns a connection exactly when the dial and
    the auth message both succeed, and wraps the error otherwise.  The
    connection starts open with nothing read or delivered; its name is the
    given one, or watch-<collection> when none is given; and for a base
    URL that starts with http the websocket URL is the base URL with that
    http turned into ws, followed by /realtime/collections/<collection>. *)
Theorem WatchCollection_outcomes (baseURL collection name : string)
    (dial write : option error) :
  (∀ err, dial = Some err →
     WatchCollection baseURL collection name dial write
       = (None, Some (wrapError "failed to connect to WebSocket" err))) ∧
  (∀ err, dial = None → write = Some err →
     WatchCollection baseURL collection name dial write
       = (None, Some (wrapError "failed to send auth message" err))) ∧
  (dial = None → write = None →
     ∃ w, WatchCollection baseURL collection name dial write = (Some w, None) ∧
          fresh w ∧ (IsClosed (connection w)).1 = false ∧
          realtime.name (connection w)
            = (if decide (name = "") then "watch-" +:+ collection else name) ∧
          ∀ rest, baseURL = "http" +:+ rest →
            ws_URL (conn (connection w))
              = "ws" +:+ rest +:+ "/realtime/collections/" +:+ collection).
Proof.
  unfold WatchCollection. split; [|split].
  - by intros err ->.
  - by intros err -> ->.
  - intros -> ->. eexists. split; [done|]. split; [done|]. split; [done|].
    split; [done|]. intros rest ->.
    change (ws_URL _) with
      (strings.Replace1 ("http" +:+ rest) "http" "ws"
         +:+ "/realtime/collections/" +:+ collection).
    by rewrite (Replace1_prefix "http" "ws" rest), app_assoc_string.
Qed.

End realtime_more_facts.

(** ** The token and the storage *)

Section token_storage_facts.
Import errors http types memory client auth.
Variable json_Marshal : JSON → string * option error.
Variable json_Marshal_user : AppUser → string.
Variable json_Decode_user : Reader → AppUser * option error.
Variable NewRequest_err : string → string → option error.
Variable roundTrip : list Request → Request → Response + error.

Local Abbreviation InitAuth :=
  (InitAuth (S:=MemoryStorage) json_Marshal json_Marshal_user json_Decode_user
            NewRequest_err roundTrip).

(** X26: with a [MemoryStorage], [SetToken] writes the token under
    "cocobase-token" and [Logout] deletes that key and nothing else (a
    stored "cocobase-user" stays); neither fails.  A client that shares
    the storage after [SetToken(t)] has [t] as its token after [InitAuth],
    whatever its token was before. *)
Theorem token_round_trip_through_storage (w w2 : World MemoryStorage)
    (st : MemoryStorage) (t : string) :
  storage (self w) = Some st →
  (SetToken t w).1 = None ∧
  storage (self (SetToken t w).2)
    = Some (mkMemoryStorage (<["cocobase-token" := t]> (memory.data st))) ∧
  (Logout w).1 = None ∧
  storage (self (Logout w).2)
    = Some (mkMemoryStorage (delete "cocobase-token" (memory.data st))) ∧
  (storage (self w2) = storage (self (SetToken t w).2) →
     token (self (InitAuth w2).2) = t).
Proof.
  intros Hst.
  assert (SetToken t w =
          (None, mkWorld (mkClient (baseURL (self w)) (apiKey (self w)) t
                            (user (self w))
                            (Some (mkMemoryStorage
                                     (<["cocobase-token" := t]> (memory.data st)))))
                         (sent w))) as Hset.
  { unfold SetToken, with_storage, set_token, mbind, Call_bind, get_self,
      put_self, mret, Call_ret. simpl. rewrite Hst. done. }
  rewrite Hset. simpl. split; [done|]. split; [done|].
  split; [|split].
  - unfold Logout, with_storage, set_token, set_user, mbind, Call_bind,
      get_self, put_self, mret, Call_ret. simpl. by rewrite Hst.
  - unfold Logout, with_storage, set_token, set_user, mbind, Call_bind,
      get_self, put_self, mret, Call_ret. simpl. by rewrite Hst.
  - intros Hst2.
    set (st1 := mkMemoryStorage (<["cocobase-token" := t]> (memory.data st))) in *.
    assert (Get "cocobase-token" st1 = ((t, None), st1)) as Hget.
    { simpl. unfold Memory_Get. simpl. by rewrite lookup_insert_eq. }
    rewrite (InitAuth_stored json_Marshal json_Marshal_user json_Decode_user
               NewRequest_err roundTrip w2 st1 st1 t Hst2 Hget).
    cbv zeta. set (w1 := mkWorld _ _).
    pose proof (GetCurrentUser_frame json_Marshal json_Marshal_user
                  json_Decode_user NewRequest_err roundTrip w1)
      as (_ & _ & Ht & _).
    destruct (client.GetCurrentUser _ _ _ _ _ w1) as [[u [e|]] w3]; done.
Qed.

End token_storage_facts.

(** ** The further properties on the fixtures *)

Section more_instances.
Import strings fmt url query query_more errors http types memory client auth
  documents file realtime.

Lemma or_condition_emitted_witness :
  emits (Build (Or_Where (OrGroup "tier") "isPremium" (VBool true) NewQuery)).1
        "[or:tier]isPremium" "true".
Proof.
  apply (proj2 (or_condition_emitted (OrGroup "tier") "isPremium" "" (VBool true)
                  NewQuery _ (Build_returns_Build _))); reflexivity.
Defined.

Lemma predicate_calls_compose_witness :
  call (PIsNotNull "deletedAt") (call (PIsNull "deletedAt") NewQuery)
  = call (PIsNotNull "deletedAt") NewQuery.
Proof.
  apply (proj1 (predicate_calls_compose (PIsNull "deletedAt")
                  (PIsNotNull "deletedAt") NewQuery)).
  reflexivity.
Defined.

Lemma filter_emitted_with_its_value_witness :
  emits (Build (Where "status" (VString "active") NewQuery)).1 "status" "active"
  ↔ "active" = "active".
Proof.
  apply (filter_emitted_with_its_value
           (Where "status" (VString "active") NewQuery) "status" "active").
  - vm_compute. reflexivity.
  - intros g fs Hg. simpl in Hg. rewrite lookup_empty in Hg. discriminate Hg.
  - unfold reserved.
    repeat (apply not_elem_of_cons; split; [discriminate|]).
    apply not_elem_of_nil.
  - apply Build_returns_Build.
Defined.

Lemma Between_and_Search_emitted_witness :
  emits (Build (Between "age" (VInt 18) (VInt 65) NewQuery)).1 "age_gte" "18".
Proof.
  apply (proj1 (Between_and_Search_emitted "age" (VInt 18) (VInt 65) VNil VNil
                  "" [] NewQuery)).
  apply Build_returns_Build.
Defined.

Lemma sorting_serialized_witness :
  emits (Build (OrderByDesc "createdAt" NewQuery)).1 "order" "desc" ↔
  "createdAt" ≠ "" ∧ "desc" ≠ "" ∧ "desc" = "desc".
Proof.
  apply (proj2 (sorting_serialized (OrderByDesc "createdAt" NewQuery) _
                  (Build_returns_Build _))).
  split; [reflexivity|]. intros g fs Hg. simpl in Hg.
  rewrite lookup_empty in Hg. discriminate Hg.
Defined.

Lemma order_needs_sort_field_witness :
  (Build_in [] [] (Desc NewQuery)).1 = (Build_in [] [] NewQuery).1.
Proof.
  apply (proj1 (order_needs_sort_field [] [] "" NewQuery)). reflexivity.
Defined.

Lemma Build_empty_iff_witness :
  (Build (Limit (-5) NewQuery)).1 = "" ↔ nothing_to_emit (Limit (-5) NewQuery).
Proof.
  apply (Build_empty_iff (Limit (-5) NewQuery) _ (Build_returns_Build _)).
Defined.


Lemma request_failure_modes_witness :
  request fixtures.json_Marshal fixtures.NewRequest_err fixtures_more.unreachable
          "GET" "/auth-collections/user" None true fixtures.logged_in
  = ((None, Some (wrapError "request failed" (errorString "connection refused"))),
     mkWorld (self fixtures.logged_in) [fixtures.get_user]).
Proof.
  apply (proj2 (proj2 (request_failure_modes fixtures.json_Marshal
                         fixtures.NewRequest_err fixtures_more.unreachable
                         "GET" "/auth-collections/user" None true
                         fixtures.logged_in))).
  - vm_compute. reflexivity.
  - reflexivity.
Defined.

Lemma request_returns_only_success_witness :
  200 < 400 ∧
  self (request fixtures.json_Marshal fixtures.NewRequest_err fixtures_more.ok
          "GET" "/auth-collections/user" None true fixtures.logged_in).2
  = self fixtures.logged_in.
Proof.
  pose proof (request_returns_only_success fixtures.json_Marshal
                fixtures.NewRequest_err fixtures_more.ok
                "GET" "/auth-collections/user" None true fixtures.logged_in
                (request fixtures.json_Marshal fixtures.NewRequest_err
                   fixtures_more.ok "GET" "/auth-collections/user" None true
                   fixtures.logged_in).2
                (mkResponse 200 (mkReader "{}" None)) None)
    as Hsuccess.
  destruct Hsuccess as (_ & Hlt & Hself & _); [vm_compute; reflexivity|].
  split; [exact Hlt | exact Hself].
Defined.

Lemma only_UpdateUser_refreshes_cache_witness :
  user (self (UpdateUser fixtures.json_Marshal fixtures.json_Marshal_user
                fixtures.json_Decode_user fixtures.NewRequest_err
                fixtures_more.ok None None None fixtures.logged_in).2)
  = Some fixtures_more.the_user.
Proof.
  apply (proj1 (proj2 (proj2 (proj2 (only_UpdateUser_refreshes_cache
           fixtures.json_Marshal fixtures.json_Marshal_user
           fixtures.json_Decode_user fixtures.NewRequest_err fixtures_more.ok
           fixtures.logged_in None None None))))).
  vm_compute. reflexivity.
Defined.

Lemma InitAuth_without_stored_token_witness :
  InitAuth fixtures.json_Marshal fixtures.json_Marshal_user
           fixtures.json_Decode_user fixtures.NewRequest_err fixtures.not_found
           fixtures_more.no_storage
  = (None, fixtures_more.no_storage).
Proof.
  apply (proj1 (InitAuth_without_stored_token fixtures.json_Marshal
                  fixtures.json_Marshal_user fixtures.json_Decode_user
                  fixtures.NewRequest_err fixtures.not_found
                  fixtures_more.no_storage)).
  reflexivity.
Defined.

Lemma InitAuth_keeps_stored_token_witness :
  token (self (InitAuth fixtures.json_Marshal fixtures.json_Marshal_user
                 fixtures.json_Decode_user fixtures.NewRequest_err
                 fixtures.not_found fixtures_more.restarted).2)
  = "tok-abc".
Proof.
  refine (proj1 (InitAuth_keeps_stored_token fixtures.json_Marshal
                   fixtures.json_Marshal_user fixtures.json_Decode_user
                   fixtures.NewRequest_err fixtures.not_found
                   fixtures_more.restarted fixtures_more.with_token
                   fixtures_more.with_token "tok-abc" eq_refl _)).
  vm_compute. reflexivity.
Defined.

Lemma Login_outcomes_witness :
  token (self (Login fixtures.json_Marshal fixtures.json_Marshal_user
                 fixtures.json_Decode_user fixtures_more.json_Decode_token
                 fixtures.NewRequest_err fixtures_more.ok
                 "user@example.com" "secret" fixtures.logged_out).2)
  = "tok-new".
Proof.
  refine (proj1 (proj2 (proj2 (Login_outcomes fixtures.json_Marshal
            fixtures.json_Marshal_user fixtures.json_Decode_user
            fixtures_more.json_Decode_token fixtures.NewRequest_err
            fixtures_more.ok "user@example.com" "secret" fixtures.logged_out))
            (mkResponse 200 (mkReader "{}" None))
            (mkTokenResponse "tok-new") _ _)).
  - vm_compute. reflexivity.
  - reflexivity.
Defined.

Lemma Register_outcomes_witness :
  token (self (Register fixtures.json_Marshal fixtures.json_Marshal_user
                 fixtures.json_Decode_user fixtures_more.json_Decode_token
                 fixtures.NewRequest_err fixtures_more.ok
                 "user@example.com" "secret" None fixtures.logged_out).2)
  = "tok-new".
Proof.
  refine (proj1 (proj2 (proj2 (Register_outcomes fixtures.json_Marshal
            fixtures.json_Marshal_user fixtures.json_Decode_user
            fixtures_more.json_Decode_token fixtures.NewRequest_err
            fixtures_more.ok "user@example.com" "secret" None
            fixtures.logged_out))
            (mkResponse 200 (mkReader "{}" None))
            (mkTokenResponse "tok-new") _ _)).
  - vm_compute. reflexivity.
  - reflexivity.
Defined.

Lemma ListDocuments_sends_built_query_witness :
  ListDocuments fixtures.json_Marshal fixtures_more.json_Decode_documents
                fixtures.NewRequest_err fixtures_more.ok "users"
                (Some (Where "status" (VString "active") NewQuery))
                [("status", "active")] [] fixtures.logged_in
  = QueryDocuments fixtures.json_Marshal fixtures_more.json_Decode_documents
                   fixtures.NewRequest_err fixtures_more.ok "users"
                   "status=active" fixtures.logged_in.
Proof.
  refine (proj1 (ListDocuments_sends_built_query fixtures.json_Marshal
                   fixtures_more.json_Decode_documents fixtures.NewRequest_err
                   fixtures_more.ok "users"
                   (Where "status" (VString "active") NewQuery)
                   [("status", "active")] [] fixtures.logged_in _ _)).
  - unfold range_order. vm_compute. reflexivity.
  - unfold range_order. vm_compute. reflexivity.
Defined.

Lemma document_returned_only_on_success_witness :
  self (GetDocument fixtures.json_Marshal fixtures_more.json_Decode_document
          fixtures.NewRequest_err fixtures_more.ok "users" "42"
          fixtures.logged_in).2
  = self fixtures.logged_in.
Proof.
  refine (proj1 (proj2 (proj1 (document_returned_only_on_success
            fixtures.json_Marshal fixtures_more.json_Decode_document
            fixtures.NewRequest_err fixtures_more.ok "users" "42" None
            fixtures.logged_in _ fixtures_more.the_document None) _))).
  vm_compute. reflexivity.
Defined.

Lemma DeleteDocument_result_witness :
  (DeleteDocument fixtures.json_Marshal fixtures.NewRequest_err fixtures_more.ok
                  "users" "42" fixtures.logged_in).1 = None.
Proof.
  apply (proj2 (DeleteDocument_result fixtures.json_Marshal
                  fixtures.NewRequest_err fixtures_more.ok "users" "42"
                  fixtures.logged_in)).
  eexists _, (mkResponse 200 (mkReader "{}" None)).
  split; [vm_compute; reflexivity|]. split; [reflexivity|]. simpl. lia.
Defined.

Lemma MemoryStorage_round_trip_witness :
  (Memory_Get "cocobase-user" (Memory_Set "cocobase-token" "t" NewMemoryStorage).2).1
  = (Memory_Get "cocobase-user" NewMemoryStorage).1.
Proof.
  refine (proj1 (proj1 (proj2 (proj2 (MemoryStorage_round_trip NewMemoryStorage
                   "cocobase-token" "cocobase-user" "t"))) _)).
  discriminate.
Defined.

Lemma FileStorage_answers_from_memory_witness :
  (File_Set fixtures_more.filepath_Dir fixtures_more.os_MkdirAll_denied
            fixtures_more.os_WriteFile fixtures_more.json_MarshalIndent
            "k" "v" fixtures_more.empty_mount).1
    = Some (errorString "permission denied") ∧
  (File_Get "other"
     (File_Set fixtures_more.filepath_Dir fixtures_more.os_MkdirAll_denied
               fixtures_more.os_WriteFile fixtures_more.json_MarshalIndent
               "k" "v" fixtures_more.empty_mount).2).1
    = (File_Get "other" fixtures_more.empty_mount).1.
Proof.
  split; [reflexivity|].
  refine (proj1 (proj1 (proj2 (proj2 (FileStorage_answers_from_memory
            fixtures_more.filepath_Dir fixtures_more.os_MkdirAll_denied
            fixtures_more.os_WriteFile fixtures_more.json_MarshalIndent
            fixtures_more.empty_mount "k" "other" "v"))) _)).
  discriminate.
Defined.

Lemma NewFileStorage_outcomes_witness :
  NewFileStorage fixtures_more.json_Unmarshal "/home/user/.cocobase/auth.json" ∅
  = (Some (mkFileStorage "/home/user/.cocobase/auth.json" ∅), None).
Proof.
  apply (proj1 (NewFileStorage_outcomes fixtures_more.json_Unmarshal
                  "/home/user/.cocobase/auth.json" ∅)).
  reflexivity.
Defined.

Lemma FileStorage_reopens_as_saved_witness :
  NewFileStorage fixtures_more.json_Unmarshal "/home/user/.cocobase/auth.json"
    (disk (File_Set fixtures_more.filepath_Dir fixtures_more.os_MkdirAll
                    fixtures_more.os_WriteFile fixtures_more.json_MarshalIndent
                    "k" "v" fixtures_more.empty_mount).2)
  = (Some (mkFileStorage "/home/user/.cocobase/auth.json" (<["k" := "v"]> ∅)), None).
Proof.
  apply (proj1 (FileStorage_reopens_as_saved fixtures_more.filepath_Dir
                  fixtures_more.os_MkdirAll fixtures_more.os_WriteFile
                  fixtures_more.json_MarshalIndent fixtures_more.json_Unmarshal
                  fixtures_more.empty_mount "k" "v"
                  (fun path bytes d d' Hw =>
                     eq_ind _ (fun d0 => d0 !! path = Some (Regular bytes))
                            (lookup_insert_eq d path (Regular bytes)) _
                            (f_equal snd Hw)))).
  - reflexivity.
  - reflexivity.
Defined.

Lemma websocket_stays_open_after_loop_ends_witness :
  ∃ w outs,
    run fixtures.subscription
        [ReadJSON (inr (errorString "EOF")); Deferred;
         CallClose (Some (errorString "close failed"))] = Some (w, outs) ∧
    ws_closes (conn (connection w)) = 0%nat ∧ closed (connection w) = true.
Proof.
  eexists _, _. split; [vm_compute; reflexivity|].
  assert (fresh fixtures.subscription) as Hfresh by (repeat split; reflexivity).
  pose proof (websocket_stays_open_after_loop_ends fixtures.subscription
                _ [ReadJSON (inr (errorString "EOF")); Deferred] _
                Hfresh eq_refl) as Hopen.
  destruct Hopen as [_ Hlater]; [|reflexivity|].
  - intros r Hin. apply elem_of_cons in Hin as [Hin|Hin]; [discriminate Hin|].
    apply elem_of_cons in Hin as [Hin|Hin]; [discriminate Hin|].
    by apply elem_of_nil in Hin.
  - split; [|reflexivity].
    exact (proj1 (Hlater [CallClose (Some (errorString "close failed"))]
                    _ _ eq_refl)).
Defined.

Lemma WatchCollection_outcomes_witness :
  WatchCollection "https://api.cocobase.com" "users" ""
                  (Some (errorString "dial tcp: timeout")) None
  = (None, Some (wrapError "failed to connect to WebSocket"
                           (errorString "dial tcp: timeout"))).
Proof.
  apply (proj1 (WatchCollection_outcomes "https://api.cocobase.com" "users" ""
                  (Some (errorString "dial tcp: timeout")) None)).
  reflexivity.
Defined.

Lemma token_round_trip_through_storage_witness :
  token (self (InitAuth fixtures.json_Marshal fixtures.json_Marshal_user
                 fixtures.json_Decode_user fixtures.NewRequest_err
                 fixtures_more.ok
                 (mkWorld (mkClient "https://api.cocobase.com" "key-123" ""
                             None
                             (storage (self (SetToken "tok-1" fixtures.logged_in).2)))
                          [])).2)
  = "tok-1".
Proof.
  apply (proj2 (proj2 (proj2 (proj2 (token_round_trip_through_storage
           fixtures.json_Marshal fixtures.json_Marshal_user
           fixtures.json_Decode_user fixtures.NewRequest_err fixtures_more.ok
           fixtures.logged_in _ NewMemoryStorage "tok-1" eq_refl))))).
  reflexivity.
Defined.

End more_instances.
